(** * PLUMED task engine: a shallow embedding of the scheduling and
      derivative bookkeeping code, with the properties its specification
      states about it.

    Conventions of the embedding.
    - C++ [unsigned] counters and indices are natural numbers; the sizes
      involved (numbers of atoms, grid points, arguments) are assumed to fit
      the machine type, so no wrap-around occurs.
    - A C++ [double] whose rounding decides a test (the sign of a product,
      a squared distance against a squared cutoff) is an IEEE 754 binary64
      number, [double]; the other quantities of type [double], which the
      code stores, copies and combines, are exact rationals ([Q]), and
      equalities between computed quantities are stated with [Qeq] ([==]).
    - Objects that the C++ code reaches through pointers (actions, values)
      are identified by a key: the label for an action, a number for a
      value. Mutable fields of shared objects live in an explicit store. *)

From Stdlib Require Import ZArith QArith Lia Bool Ascii String.
From Stdlib Require DecimalString SpecFloat.
From stdpp Require Import base list strings gmap.

Close Scope Q_scope.
Open Scope nat_scope.

(** * Part I: the embedding *)

(** ** Order of the entries of a list *)

(** [before x y l]: an occurrence of [x] in [l] precedes an occurrence
    of [y]. *)
Definition before {A : Type} (x y : A) (l : list A) : Prop :=
  exists l1 l2 l3, l = l1 ++ x :: l2 ++ y :: l3.

(** Projection of a list through a partial function. *)
Fixpoint select {A B : Type} (f : A -> option B) (l : list A) : list B :=
  match l with
  | [] => []
  | x :: l' =>
      match f x with
      | Some y => y :: select f l'
      | None => select f l'
      end
  end.

(** ** Doubles *)

(** The binary64 numbers of IEEE 754, as the Standard Library specifies
    them: the two zeros, the two infinities, NaN and the finite numbers
    with a sign, a mantissa and an exponent. The operations are those of
    the specification at 53 bits of precision, rounded to nearest, ties to
    even: [x-y], [x*y], [x/y], [x<y] and [x==y]. *)
Definition double : Type := SpecFloat.spec_float.

Definition dzero : double := SpecFloat.S754_zero false.

Definition dsub : double -> double -> double := SpecFloat.SFsub 53 1024.

Definition dmul : double -> double -> double := SpecFloat.SFmul 53 1024.

Definition ddiv : double -> double -> double := SpecFloat.SFdiv 53 1024.

Definition dltb : double -> double -> bool := SpecFloat.SFltb.

Definition deqb : double -> double -> bool := SpecFloat.SFeqb.

(** The double of a whole number, and the double nearest to the fraction
    [n/d] of two whole numbers that doubles hold: the double that a
    decimal of the input is read as. *)
Definition ofZ (z : Z) : double :=
  SpecFloat.binary_normalize 53 1024 z 0 false.

Definition decimalOf (n d : Z) : double := ddiv (ofZ n) (ofZ d).

(** The number that a finite double stands for. *)
Definition toQ (x : double) : Q :=
  match x with
  | SpecFloat.S754_finite s m e =>
      (inject_Z (SpecFloat.cond_Zopp s (Z.pos m)) * Qpower 2 e)%Q
  | _ => 0%Q
  end.

(** ** PlumedMain: the forward and the backward loop over the action set
    (core/PlumedMain.cpp, [justCalculate] and [backwardPropagate]) *)

Module PlumedMain.

(** What the two loops look at in an action. The dynamic casts to
    [ActionWithValue] and [ActionAtomistic] are flags. *)
Record Action := mkAction {
  getLabel : string;
  isActive : bool;
  checkNumericalDerivatives : bool;
  isActionWithValue : bool;
  isActionAtomistic : bool
}.

(** The calls the loops make on the actions; an action is named by its
    position in [actionSet] (the identity of the object). *)
Inductive Event :=
| EvClearInputForces (a : nat)
| EvClearDerivatives (a : nat)
| EvSetupForCalculation (a : nat)
| EvRetrieveAtoms (a : nat)
| EvCalculateNumericalDerivatives (a : nat)
| EvCalculate (a : nat)
| EvGetOutputQuantity (a : nat) (name : string)
| EvSetupConstantValues (a : nat)
| EvSetGradientsIfNeeded (a : nat)
| EvApply (a : nat).

Record PlumedMain := mkPlumedMain {
  active : bool;
  actionSet : list Action;
  (* [firststep] of each of the input actions *)
  inputs_firststep : list bool
}.

(** The actions of the set with their positions. *)
Definition numbered (l : list Action) : list (nat * Action) :=
  combine (seq 0 (length l)) l.

(** Body of the forward loop for one active action. *)
Definition calculate_body (firststep : bool) (i : nat) (p : Action)
    : list Event :=
  (if isActionWithValue p
   then [EvClearInputForces i; EvClearDerivatives i; EvSetupForCalculation i]
   else if isActionAtomistic p then [EvRetrieveAtoms i] else [])
  ++ [if checkNumericalDerivatives p
      then EvCalculateNumericalDerivatives i else EvCalculate i]
  ++ (if isActionWithValue p
      then [EvGetOutputQuantity i "bias"; EvGetOutputQuantity i "work"]
      else [])
  ++ (if firststep then [EvSetupConstantValues i] else [])
  ++ (if isActionWithValue p then [EvSetGradientsIfNeeded i] else []).

Definition justCalculate (pm : PlumedMain) : list Event :=
  if negb (active pm) then []
  else
    let firststep := existsb (fun b => b) (inputs_firststep pm) in
    flat_map (fun ip => if isActive (snd ip)
                        then calculate_body firststep (fst ip) (snd ip)
                        else [])
             (numbered (actionSet pm)).

Definition backwardPropagate (pm : PlumedMain) : list Event :=
  if negb (active pm) then []
  else
    flat_map (fun ip => if isActive (snd ip) then [EvApply (fst ip)] else [])
             (rev (numbered (actionSet pm))).

(** The action whose calculation a forward event performs, the action a
    backward event applies. *)
Definition calculated (e : Event) : option nat :=
  match e with
  | EvCalculate a | EvCalculateNumericalDerivatives a => Some a
  | _ => None
  end.

Definition applied (e : Event) : option nat :=
  match e with
  | EvApply a => Some a
  | _ => None
  end.

(** Order in which the forward loop visits the actions, and order in
    which the backward loop does. *)
Definition forwardOrder (pm : PlumedMain) : list nat :=
  select calculated (justCalculate pm).

Definition backwardOrder (pm : PlumedMain) : list nat :=
  select applied (backwardPropagate pm).

(** The active actions of a numbered list, in its order. *)
Definition activeActions (l : list (nat * Action)) : list nat :=
  List.map fst (List.filter (fun ip => isActive (snd ip)) l).

(** A step with three actions, the second one inactive. *)
Definition three_actions : PlumedMain :=
  mkPlumedMain true
    [ mkAction "d1" true false true true;
      mkAction "skip" false false true false;
      mkAction "restraint" true false true false ]
    [false].

(** *** The steps of [performCalc] *)

(** The calls of [waitData] and [update] beside those of the two loops:
    on an input, named by its position in [inputs], and on an action. *)
Inductive Call :=
| Loop (e : Event)
| InputWait (ip : nat)
| InputWarning (ip : nat)
| FirstUpdate (a : nat)
| BeforeUpdate (a : nat)
| Update (a : nat)
| SetStopFlag
| FlushFiles
| FlushLog
| Fflush (a : nat).

(** What the steps read beside the actions: [isActive()] and
    [hasBeenSet()] of each input; [checkUpdate()] of each action; the
    answer of [updateFlagsTop()] when the loop of [update] is at an action
    (the stack [updateFlags] is changed by the calls [beforeUpdate] of the
    actions, which are not among the sources); [stopNow] after the calls of
    [update], whether [stopFlag] is set, [step] and [doCheckPoint]. *)
Record Step := mkStep {
  inputs : list (bool * bool);
  checkUpdate : nat -> bool;
  updateFlagsTop : nat -> bool;
  stopNow : bool;
  stopFlag : bool;
  step : Z;
  doCheckPoint : bool
}.

Definition waitData (pm : PlumedMain) (s : Step) : list Call :=
  if negb (active pm) then []
  else
    flat_map
      (fun ip =>
         if fst (snd ip) && snd (snd ip) then [InputWait (fst ip)]
         else if fst (snd ip) then [InputWarning (fst ip)] else [])
      (combine (seq 0 (length (inputs s))) (inputs s)).

(** [update]: the calls made and, when [plumed_merror] is reached, its
    message. *)
Definition update (pm : PlumedMain) (s : Step) : list Call * option string :=
  if negb (active pm) then ([], None)
  else
    let first :=
      flat_map (fun ip => if isActive (snd ip) then [FirstUpdate (fst ip)]
                          else [])
        (numbered (actionSet pm)) in
    let updates :=
      flat_map
        (fun ip =>
           BeforeUpdate (fst ip)
           :: (if isActive (snd ip) && checkUpdate s (fst ip)
                  && updateFlagsTop s (fst ip)
               then [Update (fst ip)] else []))
        (numbered (actionSet pm)) in
    if stopNow s && negb (stopFlag s) then
      (first ++ updates,
       Some "your md code cannot handle plumed stop events - add a call to plumed.comm(stopFlag,stopCondition)")
    else
      (first ++ updates
       ++ (if stopNow s then [SetStopFlag] else [])
       ++ (if (Z.rem (step s) 10000 =? 0)%Z || doCheckPoint s
           then FlushFiles :: FlushLog
                :: List.map Fflush (seq 0 (length (actionSet pm)))
           else []),
       None).

Definition performCalcNoUpdate (pm : PlumedMain) (s : Step) : list Call :=
  waitData pm s ++ List.map Loop (justCalculate pm)
  ++ List.map Loop (backwardPropagate pm).

Definition performCalc (pm : PlumedMain) (s : Step)
    : list Call * option string :=
  (performCalcNoUpdate pm s ++ fst (update pm s), snd (update pm s)).

(** The part of [performCalc] that makes a call: waiting for the data, the
    forward loop, the backward loop, the update. *)
Definition phase (c : Call) : nat :=
  match c with
  | InputWait _ | InputWarning _ => 0
  | Loop (EvApply _) => 2
  | Loop _ => 1
  | _ => 3
  end.

(** The calls of a list come phase by phase. *)
Definition inPhases (l : list Call) : Prop :=
  forall p q x y, l !! p = Some x -> l !! q = Some y -> p < q ->
                  phase x <= phase y.

(** A step of the first simulation step, on which nothing stops. *)
Definition first_step : Step :=
  mkStep [(true, true)] (fun _ => true) (fun _ => true) false true 0 false.

End PlumedMain.

(** ** FindContour (contour/FindContour.cpp) *)

Module FindContour.

Section Grid.

(** The input grid. [GridCoordinatesObject] and [Value] are not among the
    sources, so what [FindContour] asks of them is a parameter:
    [getPntrToArgument(0)->getRank()], [->getNumberOfValues()] and
    [->get(i)]; [getGridObject().getNbin(false)[j]], [.isPeriodic(j)],
    [.getIndices(i,ind)], [.getIndex(ind)],
    [.getGridPointCoordinates(i,point)] and [.getGridSpacing()[j]]. *)
Variable rank : nat.
Variable npoints : nat.
Variable nbin : nat -> nat.
Variable isPeriodic : nat -> bool.
Variable getIndices : nat -> list nat.
Variable getIndex : list nat -> nat.
Variable get : nat -> double.
Variable getGridPointCoordinates : nat -> list Q.
Variable getGridSpacing : nat -> Q.

(** The isovalue read from the keyword [CONTOUR]. *)
Variable contour : double.

(** State of the loops of [setupCurrentTaskList]: the index vector [ind]
    and the flag [edge], the arguments of the calls of
    [addTaskToCurrentList] made so far, and a ghost log of the edges
    (grid point, dimension) whose far end was read by the [get] of
    line 165. *)
Record Search := mkSearch {
  ind : list nat;
  edge : bool;
  tasks : list nat;
  examined : list (nat * nat)
}.

(** The index vector moved to the neighbour of the point along dimension
    [j] (lines 163 and 164), with the new value of [edge]. *)
Definition move_to_neighbour (s : Search) (j : nat) : list nat * bool :=
  if ind s !!! j + 1 =? nbin j
  then (<[j:=0]> (ind s), true)
  else (<[j:=ind s !!! j + 1]> (ind s), edge s).

(** Body of the loop over the dimensions (lines 160 to 169) for the grid
    point [i], where [val1] is the field at [i] minus the isovalue. *)
Definition search_dimension (i : nat) (val1 : double) (s : Search) (j : nat)
    : Search :=
  if negb (isPeriodic j) && (ind s !!! j + 1 =? nbin j) then s
  else
    let moved := move_to_neighbour s j in
    let val2 := dsub (get (getIndex (fst moved))) contour in
    let tasks' :=
      if dltb (dmul val1 val2) dzero
      then tasks s ++ [rank * i + j] else tasks s in
    let examined' := examined s ++ [(i, j)] in
    if isPeriodic j && snd moved
    then mkSearch (<[j:=nbin j - 1]> (fst moved)) false tasks' examined'
    else mkSearch (<[j:=fst moved !!! j - 1]> (fst moved)) (snd moved)
           tasks' examined'.

(** Body of the loop over the grid points (lines 144 to 170). The vector
    [ind] has [rank] entries (line 139) and is filled by [getIndices]. The
    call of [getNeighbors] at line 150 fills [num_neighbours] and
    [neighbours], which the loop does not read. *)
Definition search_point (acc : list nat * list (nat * nat)) (i : nat)
    : list nat * list (nat * nat) :=
  let val1 := dsub (get i) contour in
  let s := fold_left (search_dimension i val1) (seq 0 rank)
             (mkSearch (resize rank 0 (getIndices i)) false (fst acc) (snd acc)) in
  (tasks s, examined s).

Definition setupCurrentTaskList_run : list nat * list (nat * nat) :=
  fold_left search_point (seq 0 npoints) ([], []).

(** The tasks handed to [addTaskToCurrentList], in the order of the
    calls. *)
Definition setupCurrentTaskList : list nat := fst setupCurrentTaskList_run.

(** The edges whose far end the loops read. *)
Definition examinedEdges : list (nat * nat) := snd setupCurrentTaskList_run.

(** Modelled from the spec: [Value::addTaskToCurrentList] (core/Value.h) is
    not among the sources. The specification speaks of the task set of the
    step, so the current task list of the output value is a finite set and
    the call adds one element to it. *)
Definition addTaskToCurrentList (t : nat) (current : gset nat) : gset nat :=
  {[ t ]} ∪ current.

(** One run of [setupCurrentTaskList] on the current task list of the
    output value. *)
Definition setupCurrentTaskList_on (current : gset nat) : gset nat :=
  fold_left (fun cur t => addTaskToCurrentList t cur) setupCurrentTaskList
    current.

(** The grid point at the far end of the edge that leaves the point with
    index vector [v] along dimension [j]. *)
Definition neighbour (v : list nat) (j : nat) : list nat :=
  if v !!! j + 1 =? nbin j then <[j:=0]> v else <[j:=v !!! j + 1]> v.

(** The edge along [j] at a point with index vector [v] leaves the grid
    along a dimension that is not periodic. *)
Definition leaves_grid (v : list nat) (j : nat) : bool :=
  negb (isPeriodic j) && (v !!! j + 1 =? nbin j).

(** The index vector of the grid point [i], as the loops hold it. *)
Definition indexVector (i : nat) : list nat := resize rank 0 (getIndices i).

(** The sign test of line 166 for the edge that leaves [i] along [j]. *)
Definition signChange (i j : nat) : bool :=
  dltb (dmul (dsub (get i) contour)
          (dsub (get (getIndex (neighbour (indexVector i) j))) contour))
    dzero.

(** What the edge that leaves [i] along [j] adds to the task list, and to
    the log of the edges read. *)
Definition flagged (i j : nat) : list nat :=
  if negb (leaves_grid (indexVector i) j) && signChange i j
  then [rank * i + j] else [].

Definition looked (i j : nat) : list (nat * nat) :=
  if leaves_grid (indexVector i) j then [] else [(i, j)].

(** The statement on the edges of the grid, as the specification words it:
    an edge that stays in the grid is a task exactly when the product of
    the field minus the isovalue at its two ends is strictly below zero,
    for the numbers that the doubles stand for. *)
Definition flaggedIffSignChange : Prop :=
  forall i j, i < npoints -> j < rank ->
    leaves_grid (indexVector i) j = false ->
    (In (rank * i + j) setupCurrentTaskList <->
     ((toQ (get i) - toQ contour)
      * (toQ (get (getIndex (neighbour (indexVector i) j))) - toQ contour)
      < 0)%Q).

(** *** performTask *)

(** Modelled from the spec: [ContourFindingBase::findContour]
    (contour/ContourFindingBase.h) is not among the sources. It is the 1-D
    root search along the direction vector: it moves the point by the
    fraction of the direction vector at which the search locates the
    crossing. The fraction found is the parameter [linesearch]. *)
Variable linesearch : list Q -> list Q -> Q.

Definition findContour (direction point : list Q) : list Q :=
  let t := linesearch direction point in
  zip_with (fun p d => (p + t * d)%Q) point direction.

(** The direction of the search of task [current] (lines 180 to 182). *)
Definition direction (current : nat) : list Q :=
  let gdir := current mod rank in
  <[gdir:=((999999999 # 1000000000) * getGridSpacing gdir)%Q]>
    (replicate rank 0%Q).

(** The grid point the search of task [current] starts from (lines 175 to
    177). *)
Definition startPoint (current : nat) : list Q :=
  resize rank 0%Q (getGridPointCoordinates (current / rank)).

(** [performTask]: the coordinates written to the outputs [0 .. rank-1] of
    the task. *)
Definition performTask (current : nat) : list Q :=
  findContour (direction current) (startPoint current).

End Grid.

(** [finishOutputSetup] (lines 131 to 134): the shape that every output
    of the action gets. *)
Definition finishOutputSetup (rank npoints : nat) : list nat :=
  [rank * npoints].

(** The entries of a list grow from each position to the next ones. *)
Definition increasing (l : list nat) : Prop :=
  forall p q x y, l !! p = Some x -> l !! q = Some y -> p < q -> x < y.

(** The periodic grid of three points with the field [0.2, 0.6, 0.3]. *)
Definition field3 (i : nat) : double :=
  match i with
  | 0 => decimalOf 2 10
  | 1 => decimalOf 6 10
  | _ => decimalOf 3 10
  end.

Definition tasks3 : list nat :=
  setupCurrentTaskList 1 3 (fun _ => 3) (fun _ => true)
    (fun i => [i]) (fun v => v !!! 0) field3 (decimalOf 5 10).

(** The periodic grid of three points with the field
    [2^-600, -2^-600, -2^-600], which lies on both sides of zero. *)
Definition tiny_field (i : nat) : double :=
  match i with
  | 0 => SpecFloat.S754_finite false 4503599627370496 (-652)
  | _ => SpecFloat.S754_finite true 4503599627370496 (-652)
  end.

Definition tiny_tasks : list nat :=
  setupCurrentTaskList 1 3 (fun _ => 3) (fun _ => true)
    (fun i => [i]) (fun v => v !!! 0) tiny_field dzero.

End FindContour.

(** ** Vectors and tensors *)

Module Tools.

(** Modelled from the spec: [tools/Vector.h] and [tools/Tensor.h] are not
    among the sources. A [Vector] has three components, a [Tensor] three
    rows; [Tensor(v1,v2)] is the outer product the specification writes
    [v1 (x) v2]. *)
Record Vector := mkVector { vx : Q; vy : Q; vz : Q }.

Record Tensor := mkTensor { row0 : Vector; row1 : Vector; row2 : Vector }.

Definition vget (v : Vector) (i : nat) : Q :=
  match i with
  | 0 => vx v
  | 1 => vy v
  | _ => vz v
  end.

Definition tget (t : Tensor) (i j : nat) : Q :=
  match i with
  | 0 => vget (row0 t) j
  | 1 => vget (row1 t) j
  | _ => vget (row2 t) j
  end.

Definition vscale (a : Q) (v : Vector) : Vector :=
  mkVector (a * vx v) (a * vy v) (a * vz v).

Definition vminus (u v : Vector) : Vector :=
  mkVector (vx u - vx v) (vy u - vy v) (vz u - vz v).

Definition tzero : Tensor :=
  mkTensor (mkVector 0 0 0) (mkVector 0 0 0) (mkVector 0 0 0).

Definition outer (u v : Vector) : Tensor :=
  mkTensor (vscale (vx u) v) (vscale (vy u) v) (vscale (vz u) v).

Definition tminus (s t : Tensor) : Tensor :=
  mkTensor (vminus (row0 s) (row0 t)) (vminus (row1 s) (row1 t))
    (vminus (row2 s) (row2 t)).

End Tools.

(** ** SecondaryStructureRMSD
    (secondarystructure/SecondaryStructureRMSD.cpp) *)

Module SecondaryStructureRMSD.
Import Tools.

(** Lines 96 to 101 of the constructor. The argument is [None] when the
    keyword STRANDS_CUTOFF is not registered for the action and the number
    parsed otherwise (zero when the input does not give it). The result is
    the pair of [align_strands] and [s_cutoff2]. *)
Definition construct_strands (strands_cutoff : option double)
    : bool * double :=
  match strands_cutoff with
  | Some s_cutoff => (true, dmul s_cutoff s_cutoff)
  | None => (false, dzero)
  end.

Section Strands.

(** [ActionAtomistic::pbcDistance] and [::getPosition],
    [getAtomIndex(task,i)] of SecondaryStructureRMSD.h and
    [Vector::modulo2] of tools/Vector.h are not among the sources; they are
    parameters. [modulo2] gives the double that the machine computes for the
    squared length. *)
Variable pbcDistance : Vector -> Vector -> Vector.
Variable getPosition : nat -> Vector.
Variable getAtomIndex : nat -> nat -> nat.
Variable modulo2 : Vector -> double.

Variable getLabel : string.
Variable align_atom_1 align_atom_2 : nat.
Variable s_cutoff2 : double.

(** [buildCurrentTaskList] (lines 183 to 192): the new
    [actionsThatSelectTasks] and the new [tflags]; [forceAllTasks] is not
    written. *)
Definition buildCurrentTaskList (forceAllTasks : bool)
    (actionsThatSelectTasks : list string) (tflags : list nat)
    : list string * list nat :=
  if dltb dzero s_cutoff2 then
    (actionsThatSelectTasks ++ [getLabel],
     imap (fun i flag =>
             let distance :=
               pbcDistance (getPosition (getAtomIndex i align_atom_1))
                           (getPosition (getAtomIndex i align_atom_2)) in
             if dltb (modulo2 distance) s_cutoff2 then 1 else flag) tflags)
  else (actionsThatSelectTasks, tflags).

(** Modelled from the spec: [ActionWithValue::runAllTasks]
    (core/ActionWithValue.cpp) is not among the sources. Before a chain
    runs, the flags of all tasks are zero and the action restricts the
    tasks visited in the step through [buildCurrentTaskList]; when an
    action selected tasks, the active task list holds the tasks whose flag
    is set, and all the tasks otherwise. [performTask] is called for the
    tasks of the active list only, and the value of a skipped task is
    zero. *)
Definition getCurrentTasks (ntasks : nat) : list nat :=
  let built := buildCurrentTaskList false [] (replicate ntasks 0) in
  match fst built with
  | [] => seq 0 ntasks
  | _ => List.filter (fun i => 0 <? snd built !!! i) (seq 0 ntasks)
  end.

(** The parameter [rmsd] is the value that [performTask] computes for a
    task by superposition on the reference structure. The result is the
    list of the tasks [performTask] was called for and the values of all
    the tasks. *)
Definition runAllTasks (rmsd : nat -> Q) (ntasks : nat)
    : list nat * list Q :=
  let current := getCurrentTasks ntasks in
  (current,
   List.map (fun i => if existsb (Nat.eqb i) current then rmsd i else 0%Q)
     (seq 0 ntasks)).

End Strands.

(** Three strand pairs on a line; the marker atoms of pair [i] are the
    atoms [2i] and [2i+1], at distance 1, 2 and 3. *)
Definition line_position (a : nat) : Vector :=
  match a with
  | 1 => mkVector 1 0 0
  | 3 => mkVector 2 0 0
  | 5 => mkVector 3 0 0
  | _ => mkVector 0 0 0
  end.

Definition line_atom (task i : nat) : nat := 2 * task + i.

(** The squared length of a vector with whole components, which a double
    holds as it is. *)
Definition line_modulo2 (v : Vector) : double :=
  ofZ (Qnum (Qred (vx v * vx v + vy v * vy v + vz v * vz v))).

End SecondaryStructureRMSD.

(** ** MultiValue, the record of one task *)

Module MultiValue.

(** Modelled from the spec: [tools/MultiValue.h] is not among the sources.
    The record of a task holds a derivative store that maps a component
    (its position in the stream) and a derivative index to a double, the
    list of the active derivative indices of each component, and the index
    of the task. A contribution to a derivative is added to what the store
    holds, never written over it; [updateIndex] puts one more index at the
    end of the active list of a component. *)
Record MultiValue := mkMultiValue {
  derivatives : nat -> nat -> Q;
  active_list : nat -> list nat;
  getTaskIndex : nat
}.

Definition getDerivative (m : MultiValue) (ival jder : nat) : Q :=
  derivatives m ival jder.

Definition addDerivative (ival jder : nat) (der : Q) (m : MultiValue)
    : MultiValue :=
  mkMultiValue
    (fun i j => if (i =? ival) && (j =? jder)
                then (derivatives m i j + der)%Q else derivatives m i j)
    (active_list m) (getTaskIndex m).

Definition updateIndex (ival jder : nat) (m : MultiValue) : MultiValue :=
  mkMultiValue (derivatives m)
    (fun i => if i =? ival then active_list m i ++ [jder] else active_list m i)
    (getTaskIndex m).

(** A record with no derivative and no active index. *)
Definition cleared (task : nat) : MultiValue :=
  mkMultiValue (fun _ _ => 0%Q) (fun _ => []) task.

End MultiValue.

(** ** AdjacencyMatrixBase (adjmat/AdjacencyMatrixBase.h) *)

Module AdjacencyMatrixBase.
Import Tools MultiValue.

Section Matrix.

(** [getNumberOfAtoms()], [doNotCalculateDerivatives()] and
    [getPntrToOutput(0)->getPositionInStream()]. *)
Variable getNumberOfAtoms : nat.
Variable doNotCalculateDerivatives : bool.
Variable w_index : nat.

Definition addBoxDerivatives (vir : Tensor) (myvals : MultiValue)
    : MultiValue :=
  if doNotCalculateDerivatives then myvals
  else
    let nbase := 3 * getNumberOfAtoms in
    let m0 := addDerivative w_index (nbase + 0) (tget vir 0 0) myvals in
    let m1 := addDerivative w_index (nbase + 1) (tget vir 0 1) m0 in
    let m2 := addDerivative w_index (nbase + 2) (tget vir 0 2) m1 in
    let m3 := addDerivative w_index (nbase + 3) (tget vir 1 0) m2 in
    let m4 := addDerivative w_index (nbase + 4) (tget vir 1 1) m3 in
    let m5 := addDerivative w_index (nbase + 5) (tget vir 1 2) m4 in
    let m6 := addDerivative w_index (nbase + 6) (tget vir 2 0) m5 in
    let m7 := addDerivative w_index (nbase + 7) (tget vir 2 1) m6 in
    addDerivative w_index (nbase + 8) (tget vir 2 2) m7.

End Matrix.

(** Modelled from the spec: the code that forms the tensor handed to
    [addBoxDerivatives] (adjmat/AdjacencyMatrixBase.cpp and the matrices
    derived from it) is not among the sources. The specification gives the
    box derivative of a pairwise contribution as minus the sum, over the
    atoms involved, of the outer product of the position of the atom with
    the derivative of the weight with respect to the atom. An entry of
    [involved] is the position of an atom with that derivative. *)
Definition pairVirial (involved : list (Vector * Vector)) : Tensor :=
  fold_left (fun vir pd => tminus vir (outer (fst pd) (snd pd))) involved
    tzero.

End AdjacencyMatrixBase.

(** ** MultiColvarBase (multicolvar/MultiColvarBase.cpp) *)

Module MultiColvarBase.
Import Tools MultiValue.

Section Colvar.

(** [ablocks], [getNumberOfAtoms()], [getNumberOfDerivatives()],
    [doNotCalculateDerivatives()] and, for each component [j] of the
    action, [getPntrToOutput(j)->getPositionInStream()]. *)
Variable ablocks : list (list nat).
Variable getNumberOfAtoms : nat.
Variable getNumberOfDerivatives : nat.
Variable doNotCalculateDerivatives : bool.
Variable streams : list nat.

(** [ablocks[i][task]], the atom at position [i] of the atom list of a
    task. *)
Definition atomOf (task i : nat) : nat := nth task (nth i ablocks []) 0.

(** The atom list of a task. *)
Definition atomsOf (task : nat) : list nat :=
  List.map (atomOf task) (seq 0 (length ablocks)).

(** The flag [newi] of the two loops: no earlier position of the atom list
    of the task holds the atom of position [i]. *)
Definition newi (task i : nat) : bool :=
  negb (existsb (fun j => atomOf task j =? atomOf task i) (seq 0 i)).

(** The end of [performTask] (lines 380 to 399), which updates the active
    derivatives of the record that [compute] has filled. *)
Definition updateActiveDerivatives (task_index : nat) (myvals : MultiValue)
    : MultiValue :=
  if doNotCalculateDerivatives
     || (getNumberOfDerivatives =? getNumberOfAtoms)
  then myvals
  else
    let atoms_done :=
      fold_left
        (fun m i =>
           if newi task_index i then
             let base := 3 * atomOf task_index i in
             fold_left
               (fun m' s =>
                  updateIndex s (base + 2)
                    (updateIndex s (base + 1) (updateIndex s base m')))
               streams m
           else m)
        (seq 0 (length ablocks)) myvals in
    let nvir := 3 * getNumberOfAtoms in
    fold_left
      (fun m s =>
         fold_left (fun m' i => updateIndex s (nvir + i) m') (seq 0 9) m)
      streams atoms_done.

(** [performTask] after the positions are set: [compute] is the virtual
    function of the colvar, given with the positions applied. *)
Definition performTask (compute : MultiValue -> MultiValue)
    (task_index : nat) (myvals : MultiValue) : MultiValue :=
  updateActiveDerivatives task_index (compute myvals).

(** The derivative of component [ival] with respect to the atom at
    position [i] of the task of the record (lines 412 to 414). *)
Definition atomDerivative (ival : nat) (myvals : MultiValue) (i : nat)
    : Vector :=
  let a := atomOf (getTaskIndex myvals) i in
  mkVector (getDerivative myvals ival (3 * a + 0))
           (getDerivative myvals ival (3 * a + 1))
           (getDerivative myvals ival (3 * a + 2)).

(** The loop of [setBoxDerivativesNoPbc] (lines 404 to 415). *)
Definition virialNoPbc (ival : nat) (fpositions : list Vector)
    (myvals : MultiValue) : Tensor :=
  fold_left
    (fun virial i =>
       if newi (getTaskIndex myvals) i
       then tminus virial
              (outer (nth i fpositions (mkVector 0 0 0))
                     (atomDerivative ival myvals i))
       else virial)
    (seq 0 (length ablocks)) tzero.

(** Modelled from the spec: [MultiColvarBase::addBoxDerivatives]
    (multicolvar/MultiColvarBase.h) is not among the sources. The nine
    entries of the tensor go, row by row, to the indices
    [3*Natoms .. 3*Natoms+8] of the component, the range of the box
    derivative in the flat index space. *)
Definition addBoxDerivatives (ival : nat) (vir : Tensor) (myvals : MultiValue)
    : MultiValue :=
  if doNotCalculateDerivatives then myvals
  else
    let nvir := 3 * getNumberOfAtoms in
    let jval := nth ival streams 0 in
    fold_left
      (fun m k => addDerivative jval (nvir + k) (tget vir (k / 3) (k mod 3)) m)
      (seq 0 9) myvals.

Definition setBoxDerivativesNoPbc (ival : nat) (fpositions : list Vector)
    (myvals : MultiValue) : MultiValue :=
  if doNotCalculateDerivatives then myvals
  else addBoxDerivatives ival (virialNoPbc ival fpositions myvals) myvals.

(** The positions of the atom list of a task whose outer product the loop
    of [setBoxDerivativesNoPbc] subtracts, and whose three derivative
    indices the loop of [performTask] registers. *)
Definition countedPositions (task : nat) : list nat :=
  List.filter (newi task) (seq 0 (length ablocks)).

End Colvar.

(** A torsion whose four atoms are the atoms 0, 1, 1 and 2 of the action
    ([useFourAtomsForEachCV] repeats the second atom), in a single task. *)
Definition torsion_blocks : list (list nat) := [[0]; [1]; [1]; [2]].

End MultiColvarBase.

(** ** Outcomes of construction code *)

(** A call returns, or it throws ([plumed_assert], [plumed_massert] and
    [error], with the text of the failure), or its behaviour is undefined
    (a null pointer is followed, a vector is read out of range). *)
Inductive Outcome (A : Type) : Type :=
| Done (a : A)
| Failed (msg : string)
| Undefined.

Arguments Done {A} a.
Arguments Failed {A} msg.
Arguments Undefined {A}.

Definition bindO {A B : Type} (c : Outcome A) (f : A -> Outcome B)
    : Outcome B :=
  match c with
  | Done a => f a
  | Failed msg => Failed msg
  | Undefined => Undefined
  end.

Notation "'let!' x := c 'in' k" := (bindO c (fun x => k))
  (at level 10, x name, c at level 100, k at level 200).

(** A loop whose body can throw. *)
Fixpoint foldM {A B : Type} (f : A -> B -> Outcome A) (l : list B) (a : A)
    : Outcome A :=
  match l with
  | [] => Done a
  | x :: l' => let! a' := f a x in foldM f l' a'
  end.

(** [plumed_massert(c, msg)]. *)
Definition massert (c : bool) (msg : string) : Outcome unit :=
  if c then Done tt else Failed msg.

(** ** Matrix (tools/Matrix.h) *)

Module Matrix.

(** [Matrix<T>] for doubles: the number of elements, of rows and of
    columns, and the elements row by row. *)
Record Matrix := mkMatrix {
  sz : nat;
  rw : nat;
  cl : nat;
  data : list Q
}.

(** The constructor [Matrix(nr,nc)]; its elements are zero. *)
Definition create (nr nc : nat) : Matrix :=
  mkMatrix (nr * nc) nr nc (replicate (nr * nc) 0%Q).

(** [resize(nr,nc)]; [std::vector::resize] keeps the elements that fit and
    adds zeros. *)
Definition resize (nr nc : nat) (m : Matrix) : Matrix :=
  mkMatrix (nr * nc) nr nc
    (take (nr * nc) (data m) ++ replicate (nr * nc - length (data m)) 0%Q).

(** What the constructor and [resize] establish, and the other members
    keep. *)
Definition wf (m : Matrix) : Prop :=
  sz m = rw m * cl m /\ length (data m) = sz m.

(** [operator()(i,j)], read and written: the element [j+i*cl] of the
    data. Outside the data the access is undefined. *)
Definition elem (m : Matrix) (i j : nat) : Outcome Q :=
  match data m !! (j + i * cl m) with
  | Some x => Done x
  | None => Undefined
  end.

Definition setElem (m : Matrix) (i j : nat) (v : Q) : Outcome Matrix :=
  if j + i * cl m <? length (data m)
  then Done (mkMatrix (sz m) (rw m) (cl m) (<[j + i * cl m:=v]> (data m)))
  else Undefined.

(** [operator=(const T& v)]: the first [sz] elements are set to [v]. *)
Definition fill (v : Q) (m : Matrix) : Outcome Matrix :=
  if sz m <=? length (data m)
  then Done (mkMatrix (sz m) (rw m) (cl m)
               (replicate (sz m) v ++ drop (sz m) (data m)))
  else Undefined.

(** [assert(c)] of <cassert>, which stops the program when [c] is false.
    (A build with NDEBUG has no assertions; the model is of a build that
    has them.) *)
Definition assert (c : bool) (text : string) : Outcome unit :=
  if c then Done tt else Failed text.

(** [isSymmetric]: the inner loop of line 126 for the row [i], which is
    left at the first pair of elements that differ. *)
Fixpoint symmetricRow (m : Matrix) (sym i : nat) (js : list nat)
    : Outcome nat :=
  match js with
  | [] => Done sym
  | j :: js' =>
      match data m !! (i + j * cl m), data m !! (j + i * cl m) with
      | Some a, Some b =>
          if Qeq_bool a b then symmetricRow m sym i js' else Done 0
      | _, _ => Undefined
      end
  end.

Definition isSymmetric (m : Matrix) : Outcome nat :=
  if negb (rw m =? cl m) then Done 0
  else foldM (fun sym i => symmetricRow m sym i (seq 0 i))
         (seq 1 (rw m - 1)) 1.

(** [mult( A, B, C )] for two matrices: the new [C]. *)
Definition mult (A B C : Matrix) : Outcome Matrix :=
  let! ok := assert (cl A =? rw B) "A.cl==B.rw" in
  let C1 := if negb (rw A =? rw C) || negb (cl B =? cl C)
            then resize (rw A) (cl B) C else C in
  let! C2 := fill 0%Q C1 in
  foldM
    (fun C3 i =>
       foldM
         (fun C4 j =>
            foldM
              (fun C5 k =>
                 let! a := elem A i k in
                 let! b := elem B k j in
                 let! c := elem C5 i j in
                 setElem C5 i j (c + a * b)%Q)
              (seq 0 (cl A)) C4)
         (seq 0 (cl B)) C3)
    (seq 0 (rw A)) C2.

(** [transpose( A, AT )]: the new [AT]. *)
Definition transpose (A AT : Matrix) : Outcome Matrix :=
  let AT1 := if negb (rw A =? cl AT) || negb (cl A =? rw AT)
             then resize (cl A) (rw A) AT else AT in
  foldM
    (fun AT2 i =>
       foldM (fun AT3 j => let! x := elem A j i in setElem AT3 i j x)
         (seq 0 (rw A)) AT2)
    (seq 0 (cl A)) AT1.

(** [chol_elsolve( M, b, y )]: the new [y]. The numbers are the values
    of the doubles; the difference, the product and the quotient of two
    doubles as the machine rounds them are parameters. One turn of the loop
    over [j] of line 275, and the turn of the loop over [i]. *)
Section Solve.

Variable rsub rmul rdiv : Q -> Q -> Q.

Definition subtractKnown (M : Matrix) (i : nat) (y : list Q) (j : nat)
    : Outcome (list Q) :=
  let! m := elem M i j in
  match y !! i, y !! j with
  | Some yi, Some yj => Done (<[i:=rsub yi (rmul m yj)]> y)
  | _, _ => Undefined
  end.

Definition solveRow (M : Matrix) (b : list Q) (y : list Q) (i : nat)
    : Outcome (list Q) :=
  match b !! i with
  | None => Undefined
  | Some bi =>
      if i <? length y then
        let! y1 := foldM (subtractKnown M i) (seq 0 i) (<[i:=bi]> y) in
        let! m := elem M i i in
        match y1 !! i with
        | Some yi => Done (<[i:=rmul yi (rdiv 1 m)]> y1)
        | None => Undefined
        end
      else Undefined
  end.

Definition chol_elsolve (M : Matrix) (b y : list Q) : Outcome (list Q) :=
  let text := "M.rw==M.cl && M(0,1)==0.0 && b.size()==M.rw" in
  let! ok1 := assert (rw M =? cl M) text in
  let! m01 := elem M 0 1 in
  let! ok2 := assert (Qeq_bool m01 0 && (length b =? rw M)) text in
  let y1 := if negb (length y =? rw M)
            then take (rw M) y ++ replicate (rw M - length y) 0%Q else y in
  foldM (solveRow M b) (seq 0 (rw M)) y1.

End Solve.

(** The elements of a matrix with [nr] rows and [nc] columns, row by row,
    when the element of the row [i] and the column [j] is [f i j]. *)
Definition table (nr nc : nat) (f : nat -> nat -> Q) : list Q :=
  flat_map (fun i => List.map (f i) (seq 0 nc)) (seq 0 nr).

(** The element read with zero outside the data, for the statements on
    matrices that are well formed. *)
Definition entry (m : Matrix) (i j : nat) : Q :=
  nth (j + i * cl m) (data m) 0%Q.

(** The sum that [mult] forms for an element of the product, term by term
    from the first. *)
Definition dot (A B : Matrix) (i j : nat) : Q :=
  fold_left (fun acc k => (acc + entry A i k * entry B k j)%Q)
    (seq 0 (cl A)) 0%Q.

(** Small matrices: two rows of three, three rows of two, a lower
    triangle with its diagonal, the same triangle with other elements above
    the diagonal, a symmetric matrix and a single element. *)
Definition two_by_three : Matrix :=
  mkMatrix 6 2 3 [1; 2; 3; 4; 5; 6]%Q.

Definition three_by_two : Matrix :=
  mkMatrix 6 3 2 [1; 0; 2; 1; 0; 3]%Q.

Definition lower3 : Matrix :=
  mkMatrix 9 3 3 [2; 0; 0; 1; 1; 0; 4; 2; 5]%Q.

Definition filled3 : Matrix :=
  mkMatrix 9 3 3 [2; 0; 8; 1; 1; 9; 4; 2; 5]%Q.

Definition symmetric2 : Matrix :=
  mkMatrix 4 2 2 [1; 7; 7; 3]%Q.

Definition single : Matrix :=
  mkMatrix 1 1 1 [2]%Q.

End Matrix.

(** ** MultiColvarBase: the atoms of the constructor
    (multicolvar/MultiColvarBase.cpp, lines 257 to 317) *)

Module MultiColvarConstruction.

(** What the constructor reads: the name of the action and the lists of
    atoms of the keywords. An [AtomNumber] is a number. For a numbered
    keyword the entry [i-1] of the list is what [parseAtomList] reads for
    the number [i]; it is empty for a number that the input does not
    give. *)
Record Input := mkInput {
  getName : string;
  ATOM : list nat;
  ATOMS : list nat;
  VECTORA : list nat;
  VECTORB : list nat;
  AXIS : list nat;
  ATOMSn : list (list nat);
  VECTORAn : list (list nat);
  VECTORBn : list (list nat);
  AXISn : list (list nat)
}.

Definition numbered (l : list (list nat)) (i : nat) : list nat :=
  nth (i - 1) l [].

(** The actions that take one atom for each value (lines 258 and 277). *)
Definition oneAtom (name : string) : bool :=
  String.eqb name "POSITION" || String.eqb name "MASSES"
  || String.eqb name "CHARGES".

(** The six atoms of a torsion given by two vectors and an axis (lines 267
    and 294). *)
Definition vectorsAndAxis (v1 v2 axis : list nat) : Outcome (list nat) :=
  match v1, v2, axis with
  | [a0; a1], [b0; b1], [x0; x1] => Done [a1; a0; x0; x1; b0; b1]
  | _, _, _ =>
      Failed "wrong number of atoms specified to VECTORA, VECTORB or AXIS keyword"
  end.

(** Lines 287 to 300: the atoms of the torsion with the number [i], or
    nothing when the loop is left. [plumed_error()] gives no message. *)
Definition torsionAtoms (inp : Input) (i : nat) (t : list nat)
    : Outcome (option (list nat)) :=
  match t with
  | [] =>
      match numbered (VECTORAn inp) i with
      | [] => Done None
      | v1 =>
          let! t' := vectorsAndAxis v1 (numbered (VECTORBn inp) i)
                       (numbered (AXISn inp) i) in
          Done (Some t')
      end
  | [t0; t1; t2; t3] =>
      if (0 <? length (VECTORA inp)) || (0 <? length (VECTORB inp))
         || (0 <? length (AXIS inp))
      then Failed "cannot mix ATOMS with VECTORA/VECTORB/AXIS"
      else Done (Some [t0; t1; t1; t2; t2; t3])
  | _ => Failed ""
  end.

Section Constructor.

(** [Tools::convert] of a number to a string is not among the sources. *)
Variable convert : nat -> string.

(** The loop of lines 285 to 316 from the number [i] on. The loop has no
    bound of its own; it is left at the first number for which no atoms
    are read, which the lists of the input reach within [fuel] turns. *)
Fixpoint readNumbered (inp : Input) (fuel i : nat)
    (ablocks : list (list nat)) (all_atoms : list nat)
    : Outcome (list (list nat) * list nat) :=
  match fuel with
  | 0 => Undefined
  | S fuel' =>
      let! read :=
        (if String.eqb (getName inp) "TORSION"
         then torsionAtoms inp i (numbered (ATOMSn inp) i)
         else Done (Some (numbered (ATOMSn inp) i))) in
      match read with
      | None | Some [] => Done (ablocks, all_atoms)
      | Some t =>
          let ablocks1 :=
            if i =? 1 then resize (length t) [] ablocks else ablocks in
          if negb (length t =? length ablocks1) then
            Failed (String.append "ATOMS"
                      (String.append (convert i)
                         " keyword has the wrong number of atoms"))
          else
            readNumbered inp fuel' (S i)
              (imap (fun j b => b ++ [length ablocks1 * (i - 1) + j])
                 ablocks1)
              (all_atoms ++ t)
      end
  end.

(** Lines 257 to 317: [ablocks] and [all_atoms], the atoms handed to
    [requestAtoms]. *)
Definition readAtoms (inp : Input) : Outcome (list (list nat) * list nat) :=
  let name := getName inp in
  let! all0 :=
    (if oneAtom name then
       if 1 <? length (ATOM inp)
       then Failed "Too many atoms read in for ATOM keyword"
       else Done (ATOM inp)
     else Done (ATOMS inp)) in
  let! all1 :=
    (if String.eqb name "TORSION" then
       if 0 <? length (VECTORA inp) then
         if 0 <? length all0
         then Failed "cannot mix ATOMS with VECTORA/VECTORB/AXIS"
         else vectorsAndAxis (VECTORA inp) (VECTORB inp) (AXIS inp)
       else
         match all0 with
         | [a0; a1; a2; a3] => Done [a0; a1; a1; a2; a2; a3]
         | [] => Done []
         | _ => Failed "wrong number of atoms specified to torsion"
         end
     else Done all0) in
  if 0 <? length all1 then
    Done (List.map (fun j => [j]) (seq 0 (length all1)), all1)
  else if oneAtom name then
    Done ([seq 0 (length (ATOMS inp))], ATOMS inp)
  else
    readNumbered inp
      (S (Nat.max (length (ATOMSn inp)) (length (VECTORAn inp)))) 1 [] [].

End Constructor.

(** The blocks of [n] tasks of [m] atoms each, when the atoms are numbered
    task by task: the block [j] holds the atom [m*k + j] for the task
    [k]. *)
Definition blocks (m n : nat) : list (list nat) :=
  List.map (fun j => List.map (fun k => m * k + j) (seq 0 n)) (seq 0 m).

(** What the loop over the numbered keywords keeps. *)
Definition numberedSoFar (i : nat) (ablocks : list (list nat))
    (all_atoms : list nat) : Prop :=
  (i = 1 /\ ablocks = [] /\ all_atoms = []) \/
  (1 < i /\ exists m, ablocks = blocks m (i - 1) /\
                      length all_atoms = m * (i - 1)).

(** What the loop keeps for an action that is no torsion. *)
Record NumberedKept (inp : Input) (i : nat) (ablocks : list (list nat))
    (all_atoms : list nat) : Prop := mkNumberedKept {
  kept_from : 1 <= i;
  kept_in : i - 1 <= length (ATOMSn inp);
  kept_blocks :
    ablocks = if i =? 1 then []
              else blocks (length (numbered (ATOMSn inp) 1)) (i - 1);
  kept_atoms : all_atoms = concat (take (i - 1) (ATOMSn inp));
  kept_lengths :
    Forall (fun t => length t = length (numbered (ATOMSn inp) 1))
      (take (i - 1) (ATOMSn inp))
}.

(** *** useFourAtomsForEachCV *)

(** One turn of the first loop (lines 346 to 349) on [tblocks]. *)
Definition fourAtoms (ablocks : list (list nat))
    (tblocks : list nat * list nat * list nat * list nat) (i : nat)
    : Outcome (list nat * list nat * list nat * list nat) :=
  let '(t0, t1, t2, t3) := tblocks in
  match ablocks !! 0 ≫= (.!! i), ablocks !! 1 ≫= (.!! i),
        ablocks !! 2 ≫= (.!! i) with
  | Some a0, Some a1, Some a2 =>
      Done (t0 ++ [a0], t1 ++ [a1], t2 ++ [a1], t3 ++ [a2])
  | _, _, _ => Undefined
  end.

(** One turn of the second loop (lines 351 to 353). *)
Definition copyAtoms (tblocks : list (list nat)) (ablocks : list (list nat))
    (i : nat) : Outcome (list (list nat)) :=
  foldM
    (fun ab j =>
       match tblocks !! j ≫= (.!! i), ab !! j with
       | Some a, Some b => Done (<[j:=b ++ [a]]> ab)
       | _, _ => Undefined
       end)
    (seq 0 4) ablocks.

Definition useFourAtomsForEachCV (ablocks : list (list nat))
    : Outcome (list (list nat)) :=
  match ablocks with
  | [] => Undefined
  | b0 :: _ =>
      let! t := foldM (fourAtoms ablocks) (seq 0 (length b0)) ([], [], [], []) in
      let '(t0, t1, t2, t3) := t in
      foldM (copyAtoms [t0; t1; t2; t3]) (seq 0 (length t0)) [[]; []; []; []]
  end.

(** *** Small inputs *)

(** The decimal numeral of a number. *)
Definition decimal (n : nat) : string :=
  DecimalString.NilZero.string_of_uint (Nat.to_uint n).

(** Two angles, ATOMS1=1,2,3 and ATOMS2=4,5,6. *)
Definition two_angles : Input :=
  mkInput "ANGLE" [] [] [] [] [] [[1; 2; 3]; [4; 5; 6]] [] [] [].

(** ATOMS1=1,2,3 and ATOMS2=4,5. *)
Definition short_angle : Input :=
  mkInput "ANGLE" [] [] [] [] [] [[1; 2; 3]; [4; 5]] [] [] [].

End MultiColvarConstruction.

(** ** ActionWithArguments (core/ActionWithArguments.cpp) *)

Module ActionWithArguments.

(** The part of a name before its first dot ([requestArguments], lines 2709
    to 2715). *)
Fixpoint before_dot (s : string) : string :=
  match s with
  | EmptyString => EmptyString
  | String c r =>
      if Ascii.eqb c "."%char then EmptyString else String c (before_dot r)
  end.

(** The data stores of the values: for each value the labels of the
    actions it stores its data for (the first components of
    [Value::store_data_for]). *)
Abbreviation Stores := (gmap nat (list string)).

Definition store_data_for (sd : Stores) (v : nat) : list string :=
  default [] (sd !! v).

(** Modelled from the spec: [Value::buildDataStore] (core/Value.cpp) is not
    among the sources. The call puts the value in stored mode for the
    action with the label given: the label joins [store_data_for], once. *)
Definition buildDataStore (label : string) (v : nat) (sd : Stores) : Stores :=
  if existsb (String.eqb label) (store_data_for sd v) then sd
  else <[v:=store_data_for sd v ++ [label]]> sd.

(** The entries [store_data_for] of the values with their two components:
    the label of the action the data is stored for and the position of the
    data in the stash of that action. *)
Abbreviation Stash := (gmap nat (list (string * nat))).

(** The fields of the object that [requestArguments] writes. An entry of
    [distinct_arguments] is a pointer to an action, null or not, with its
    kind. *)
Record Object := mkObject {
  arguments : list nat;
  after : list string;
  distinct_arguments : list (option string * nat);
  arg_deriv_starts : list nat;
  done_over_stream : bool;
  theAverageInArguments : option string;
  theReweightBase : option string
}.

Record State := mkState {
  this : Object;
  stores : Stores
}.

(** The values and the actions of the input, and the action that requests
    the arguments. The classes [Value], [Action], [ActionWithValue] and
    [ActionSet] are not among the sources, so what the code asks of these
    objects is given with the input. A value is named by a number and an
    action by its label, which is unique in the action set; a null pointer
    to an action is [None].

    Of a value: [getName()], [getPntrToAction()], [getRank()],
    [isConstant()], [alwaysstore], [ntasks], [getNumberOfValues()],
    [isTimeSeries()], [getPositionInStream()] and the position of the value
    in the stash of the action that requests the arguments (the second
    component of its entry in [store_data_for]).

    [plumed.getActionSet()], in its order, and for the action with a label:
    the casts to [ActionWithValue], [ActionSetup], [AverageBase],
    [ReweightBase] and [ActionWithArguments]; [getName()];
    [theAverageInArguments] and [theReweightBase];
    [getActionThatCalculates()]; the outputs [getPntrToOutput(j)] for
    [j < getNumberOfComponents()]; [checkForDependency(b)];
    [getDependencies()]; [canChainFromThisAction()];
    [mustBeTreatedAsDistinctArguments()]; [getFirstNonStream()] and
    [getNumberOfDerivatives()].

    Of the action that requests the arguments: its label, the flag
    [lockRequestArguments], whether it is an [ActionWithValue] and whether
    its keywords hold SERIAL. *)
Record Plumed := mkPlumed {
  getName : nat -> string;
  getPntrToAction : nat -> option string;
  getRank : nat -> nat;
  isConstant : nat -> bool;
  alwaysstore : nat -> bool;
  ntasks : nat -> nat;
  getNumberOfValues : nat -> nat;
  isTimeSeries : nat -> bool;
  getPositionInStream : nat -> nat;
  stashPosition : nat -> nat;
  actionSet : list string;
  isActionWithValue : string -> bool;
  isActionSetup : string -> bool;
  isAverageBase : string -> bool;
  isReweightBase : string -> bool;
  isActionWithArguments : string -> bool;
  actionName : string -> string;
  averageInArgumentsOf : string -> option string;
  reweightBaseOf : string -> option string;
  getActionThatCalculates : string -> string;
  outputs : string -> list nat;
  checkForDependency : string -> string -> bool;
  getDependencies : string -> list string;
  canChainFromThisAction : string -> bool;
  mustBeTreatedAsDistinctArguments : string -> bool;
  getFirstNonStream : string -> string;
  getNumberOfDerivatives : string -> nat;
  getLabel : string;
  lockRequestArguments : bool;
  thisIsActionWithValue : bool;
  keywordSERIAL : bool
}.

Section Plumed.

Variable plumed : Plumed.

Local Abbreviation getName := (getName plumed).
Local Abbreviation getPntrToAction := (getPntrToAction plumed).
Local Abbreviation getRank := (getRank plumed).
Local Abbreviation isConstant := (isConstant plumed).
Local Abbreviation alwaysstore := (alwaysstore plumed).
Local Abbreviation ntasks := (ntasks plumed).
Local Abbreviation getNumberOfValues := (getNumberOfValues plumed).
Local Abbreviation isTimeSeries := (isTimeSeries plumed).
Local Abbreviation getPositionInStream := (getPositionInStream plumed).
Local Abbreviation stashPosition := (stashPosition plumed).
Local Abbreviation actionSet := (actionSet plumed).
Local Abbreviation isActionWithValue := (isActionWithValue plumed).
Local Abbreviation isActionSetup := (isActionSetup plumed).
Local Abbreviation isAverageBase := (isAverageBase plumed).
Local Abbreviation isReweightBase := (isReweightBase plumed).
Local Abbreviation isActionWithArguments := (isActionWithArguments plumed).
Local Abbreviation actionName := (actionName plumed).
Local Abbreviation averageInArgumentsOf := (averageInArgumentsOf plumed).
Local Abbreviation reweightBaseOf := (reweightBaseOf plumed).
Local Abbreviation getActionThatCalculates := (getActionThatCalculates plumed).
Local Abbreviation outputs := (outputs plumed).
Local Abbreviation checkForDependency := (checkForDependency plumed).
Local Abbreviation getDependencies := (getDependencies plumed).
Local Abbreviation canChainFromThisAction := (canChainFromThisAction plumed).
Local Abbreviation mustBeTreatedAsDistinctArguments := (mustBeTreatedAsDistinctArguments plumed).
Local Abbreviation getFirstNonStream := (getFirstNonStream plumed).
Local Abbreviation getNumberOfDerivatives := (getNumberOfDerivatives plumed).
Local Abbreviation getLabel := (getLabel plumed).
Local Abbreviation lockRequestArguments := (lockRequestArguments plumed).
Local Abbreviation thisIsActionWithValue := (thisIsActionWithValue plumed).
Local Abbreviation keywordSERIAL := (keywordSERIAL plumed).

(** A cast of a pointer that can be null. *)
Definition cast (isa : string -> bool) (p : option string) : bool :=
  match p with
  | Some a => isa a
  | None => false
  end.

(** [plumed.getActionSet().selectWithLabel<ActionWithValue*>(name)]. *)
Definition selectWithLabel (name : string) : option string :=
  if existsb (String.eqb name) actionSet && isActionWithValue name
  then Some name else None.

(** The loop of lines 2739 to 2741: [action] is met in the action set
    before this action. *)
Fixpoint appearsBeforeThis (action : string) (l : list string) : bool :=
  match l with
  | [] => false
  | p :: l' =>
      if String.eqb p getLabel then false
      else if String.eqb p action then true
      else appearsBeforeThis action l'
  end.

(** The loop of lines 2793 to 2799: the dependency [d] is met in the
    action set no later than the first action of the chain. *)
Fixpoint computedBefore (d first : string) (l : list string) : bool :=
  match l with
  | [] => false
  | p :: l' =>
      if String.eqb p d then true
      else if String.eqb p first then false
      else computedBefore d first l'
  end.

(** *** requestArguments *)

(** The loop of lines 2697 to 2704, on the arguments from [argstart]: the
    flags [storing] and [allconstant] and the data stores. *)
Fixpoint checkStoring (allow_streams : bool) (args : list nat)
    (allconstant : bool) (sd : Stores) : bool * bool * Stores :=
  match args with
  | [] => (false, allconstant, sd)
  | v :: rest =>
      if negb allow_streams then (true, allconstant, sd)
      else if alwaysstore v then
        if isConstant v || cast isActionSetup (getPntrToAction v)
        then checkStoring allow_streams rest (allconstant && isConstant v)
               (buildDataStore getLabel v sd)
        else (true, allconstant, sd)
      else
        checkStoring allow_streams rest (allconstant && isConstant v)
          (if isConstant v then buildDataStore getLabel v sd else sd)
  end.

(** What the loop of lines 2708 to 2766 carries from one argument to the
    next. *)
Record Request := mkRequest {
  rq_stores : Stores;
  rq_after : list string;
  rq_average : option string;
  rq_reweight : option string;
  f_actions : list string
}.

Definition rq_build (v : nat) (r : Request) : Request :=
  mkRequest (buildDataStore getLabel v (rq_stores r)) (rq_after r)
    (rq_average r) (rq_reweight r) (f_actions r).

Definition addDependency (action : string) (r : Request) : Request :=
  mkRequest (rq_stores r) (rq_after r ++ [action]) (rq_average r)
    (rq_reweight r) (f_actions r).

(** Lines 2716 to 2728. *)
Definition noteAverages (v : nat) (r : Request) : Outcome Request :=
  let owner := getPntrToAction v in
  if cast isAverageBase owner then
    let! ok := massert (negb (cast isReweightBase owner)) "!rb" in
    Done (mkRequest (buildDataStore getLabel v (rq_stores r)) (rq_after r)
            owner (rq_reweight r) (f_actions r))
  else if cast isReweightBase owner then
    Done (mkRequest (rq_stores r) (rq_after r) (rq_average r) owner
            (f_actions r))
  else
    match owner with
    | Some aa =>
        if isActionWithArguments aa then
          Done (mkRequest (rq_stores r) (rq_after r)
                  (match averageInArgumentsOf aa with
                   | Some av => Some av
                   | None => rq_average r
                   end)
                  (match reweightBaseOf aa with
                   | Some rb => Some rb
                   | None => rq_reweight r
                   end)
                  (f_actions r))
        else Done r
    | None => Done r
    end.

(** Lines 2747 to 2755: the data of the value is used to calculate one of
    the arguments. *)
Definition usedByAnArgument (args : list nat) (sd : Stores) (v : nat) : bool :=
  existsb
    (fun lab =>
       existsb
         (fun k =>
            match getPntrToAction k with
            | None => false
            | Some a =>
                String.eqb lab a && negb (String.eqb (actionName a) "NEIGHBORS")
            end)
         args)
    (store_data_for sd v).

(** Lines 2757 to 2764. *)
Definition noteStream (v : nat) (r : Request) : Outcome Request :=
  match getPntrToAction v with
  | None => Undefined
  | Some owner =>
      let myact := getActionThatCalculates owner in
      if negb (isActionSetup myact) && negb (isConstant v)
         && negb (String.eqb (actionName myact) "READ")
      then
        if existsb (String.eqb myact) (f_actions r) then Done r
        else Done (mkRequest (rq_stores r) (rq_after r) (rq_average r)
                     (rq_reweight r) (f_actions r ++ [myact]))
      else Done r
  end.

(** Body of the loop of lines 2708 to 2766 for the argument [v] at
    position [i]. *)
Definition requestArgument (args : list nat) (storing : bool) (argstart : nat)
    (r : Request) (iv : nat * nat) : Outcome Request :=
  let i := fst iv in
  let v := snd iv in
  let name := before_dot (getName v) in
  let! r1 := noteAverages v r in
  match selectWithLabel name with
  | None =>
      Failed ("cannot find action named (in requestArguments - this is weird)"
              ++ name)
  | Some action =>
      if i <? argstart then
        Done (if isAverageBase action then r1 else addDependency action r1)
      else
        let r2 := if appearsBeforeThis action actionSet
                  then addDependency action r1 else r1 in
        let r3 := if storing then rq_build v r2 else r2 in
        if 0 <? getRank v then
          noteStream v
            (if usedByAnArgument args (rq_stores r3) v
             then rq_build v r3 else r3)
        else Done (rq_build v r3)
  end.

(** [buildDataStore] for every argument of rank above zero (lines 2770,
    2804 and 2875). *)
Definition storeRanked (args : list nat) (sd : Stores) : Stores :=
  fold_left
    (fun sd' v => if 0 <? getRank v then buildDataStore getLabel v sd' else sd')
    args sd.

(** Lines 2780 and 2781, 2808 and 2809: the number of tasks of the first
    output of the first action, which all its outputs must share. *)
Definition firstTasks (f0 : string) : Outcome nat :=
  match outputs f0 with
  | [] => Undefined
  | v0 :: rest =>
      let! ok := massert (forallb (fun v => ntasks v0 =? ntasks v) rest)
            "ntasks==(f_actions[0]->getPntrToOutput(i))->ntasks" in
      Done (ntasks v0)
  end.

(** The loop of lines 2782 to 2802 over the actions after the first. *)
Fixpoint canStream (tasks0 : nat) (f0 : string) (rest : list string)
    (done : bool) : bool :=
  match rest with
  | [] => done
  | fi :: rest' =>
      let done1 :=
        if forallb (fun v => tasks0 =? ntasks v) (outputs fi)
        then done else false in
      if negb done1 || checkForDependency f0 fi then false
      else
        canStream tasks0 f0 rest'
          (if forallb (fun d => computedBefore d f0 actionSet)
                (getDependencies fi)
           then done1 else false)
  end.

(** [distinct_but_stored] (lines 2816 to 2819, 2845 to 2848). *)
Definition distinctButStored (sd : Stores) (v : nat) : bool :=
  (getRank v =? 0) || existsb (fun lab => String.eqb lab getLabel)
                        (store_data_for sd v).

(** The action that forces are applied to for an argument (lines 2821 to
    2829, 2841 to 2843). *)
Definition forceTarget (v : nat) : option string :=
  match getPntrToAction v with
  | Some aa =>
      if negb (isActionWithArguments aa) || mustBeTreatedAsDistinctArguments aa
      then Some aa else Some (getFirstNonStream aa)
  | None => None
  end.

Definition pointerEq (p q : option string) : bool :=
  match p, q with
  | Some a, Some b => String.eqb a b
  | None, None => true
  | _, _ => false
  end.

(** Position of a pointer in [distinct_arguments] (lines 2851 to 2854). *)
Fixpoint argno (p : option string) (l : list (option string * nat))
    : option nat :=
  match l with
  | [] => None
  | e :: l' =>
      if pointerEq p (fst e) then Some 0
      else match argno p l' with
           | Some n => Some (S n)
           | None => None
           end
  end.

Definition derivativesOf (p : option string) : Outcome nat :=
  match p with
  | Some a => Done (getNumberOfDerivatives a)
  | None => Undefined
  end.

(** Body of the loop of lines 2839 to 2872: the new [distinct_arguments],
    [arg_deriv_starts] and [nder]. *)
Definition distinctArgument (sd : Stores)
    (acc : list (option string * nat) * list nat * nat) (v : nat)
    : Outcome (list (option string * nat) * list nat * nat) :=
  let '(distinct, starts, nder) := acc in
  let myval := forceTarget v in
  let dbs := distinctButStored sd v in
  match argno myval distinct with
  | Some n =>
      match starts !! n with
      | Some s => Done (distinct, starts ++ [s], nder)
      | None => Undefined
      end
  | None =>
      if negb (isConstant v) && negb (cast isActionSetup myval) && negb dbs
         && negb (cast isAverageBase myval)
      then
        let! n := derivativesOf myval in
        Done (distinct ++ [(myval, 0)], starts ++ [nder], nder + n)
      else if cast isAverageBase myval
      then Done (distinct ++ [(myval, 2)], starts ++ [nder], nder + 1)
      else Done (distinct ++ [(myval, 1)], starts ++ [nder],
                 nder + getNumberOfValues v)
  end.

(** Lines 2813 to 2873, run when the calculation is done over the
    stream. *)
Definition setDistinctArguments (args : list nat) (argstart : nat)
    (sd : Stores) : Outcome (list (option string * nat) * list nat) :=
  match args !! argstart with
  | None => Undefined
  | Some v =>
      let dbs := distinctButStored sd v in
      let ab := cast isAverageBase (getPntrToAction v) in
      let kind := if negb dbs && negb ab then 0 else if ab then 2 else 1 in
      let first := forceTarget v in
      let! nder := (if negb (isConstant v) && negb dbs then derivativesOf first
              else if ab then Done 1 else Done (getNumberOfValues v)) in
      if length args =? 1 then Done ([(first, kind)], [0; nder])
      else
        let! r := foldM (distinctArgument sd) (drop (S argstart) args)
              ([(first, kind)], [0], nder) in
        Done (fst (fst r), snd (fst r))
  end.

(** Lines 2775 to 2811: whether the calculation is done over the stream,
    and the data stores. *)
Definition decideStream (args : list nat) (storing : bool)
    (f : list string) (sd : Stores) : Outcome (bool * Stores) :=
  if storing then Done (false, sd)
  else
    match f with
    | [] => Done (false, sd)
    | [f0] => let! ok := firstTasks f0 in Done (true, sd)
    | f0 :: rest =>
        let! tasks0 := firstTasks f0 in
        let done := canStream tasks0 f0 rest true in
        Done (done, if done then sd else storeRanked args sd)
    end.

(** The test of lines 2768 to 2773 lets the call go on to line 2775. *)
Definition reachesStreamTest (firstcall : bool) : bool :=
  thisIsActionWithValue || (firstcall && keywordSERIAL).

Definition requestArguments (arg : list nat) (allow_streams : bool)
    (argstart : nat) (st : State) : Outcome State :=
  let! ok := massert (negb lockRequestArguments)
        "requested argument list can only be changed in the prepare() method" in
  let firstcall := length (arguments (this st)) =? 0 in
  let old := this st in
  if length arg =? 0 then
    Done (mkState
            (mkObject arg [] (distinct_arguments old) (arg_deriv_starts old)
               (done_over_stream old) (theAverageInArguments old)
               (theReweightBase old))
            (stores st))
  else
    let '(stopped, allconstant, sd1) :=
      checkStoring allow_streams (drop argstart arg) true (stores st) in
    let storing := stopped || allconstant in
    let! r := foldM (requestArgument arg storing argstart)
          (combine (seq 0 (length arg)) arg)
          (mkRequest sd1 [] (theAverageInArguments old) (theReweightBase old)
             []) in
    let finish (done : bool) (distinct : list (option string * nat))
          (starts : list nat) (sd : Stores) :=
      mkState
        (mkObject arg (rq_after r) distinct starts done (rq_average r)
           (rq_reweight r))
        sd in
    if negb (reachesStreamTest firstcall) then
      Done (finish false [] (arg_deriv_starts old)
              (if firstcall then storeRanked arg (rq_stores r)
               else rq_stores r))
    else
      let! ds := decideStream arg storing (f_actions r) (rq_stores r) in
      let sd2 := snd ds in
      if fst ds then
        let! da := setDistinctArguments arg argstart sd2 in
        Done (finish true (fst da) (snd da) sd2)
      else
        Done (finish false [] (arg_deriv_starts old)
                (storeRanked (drop argstart arg) sd2)).

(** The actions that [requestArguments] finds at the head of the streams
    of the arguments, in the order of the arguments (the vector
    [f_actions] of lines 2756 to 2764). *)
Definition noteStreamAction (f : list string) (v : nat) : list string :=
  match getPntrToAction v with
  | None => f
  | Some owner =>
      let myact := getActionThatCalculates owner in
      if (0 <? getRank v) && negb (isActionSetup myact)
         && negb (isConstant v)
         && negb (String.eqb (actionName myact) "READ")
         && negb (existsb (String.eqb myact) f)
      then f ++ [myact] else f
  end.

Definition streamActions (arg : list nat) (argstart : nat) : list string :=
  fold_left noteStreamAction (drop argstart arg) [].

(** The flag [storing] after line 2705. *)
Definition mustStore (arg : list nat) (allow_streams : bool) (argstart : nat)
    : bool :=
  let r := checkStoring allow_streams (drop argstart arg) true ∅ in
  fst (fst r) || snd (fst r).

(** The number of tasks of the first output of the first of the actions
    [f] (line 2780). *)
Definition tasksOfFirst (f : list string) : nat :=
  match f with
  | [] => 0
  | f0 :: _ =>
      match outputs f0 with
      | [] => 0
      | v0 :: _ => ntasks v0
      end
  end.

(** Every output of the action [a] has [tasks0] tasks. *)
Definition hasTasks (tasks0 : nat) (a : string) : bool :=
  forallb (fun v => tasks0 =? ntasks v) (outputs a).

(** The first of the actions [f] depends on none of the others (the test
    of line 2788). *)
Definition firstIndependent (f : list string) : bool :=
  match f with
  | [] => true
  | f0 :: rest => forallb (fun fi => negb (checkForDependency f0 fi)) rest
  end.

(** The value is in stored mode for this action. *)
Definition storedForThis (sd : Stores) (v : nat) : Prop :=
  In getLabel (store_data_for sd v).

(** The data stores [sd'] hold what the data stores [sd] hold. *)
Definition storesGrow (sd sd' : Stores) : Prop :=
  forall (v : nat) (lab : string),
    In lab (store_data_for sd v) -> In lab (store_data_for sd' v).

(** The second sentence of the statement on chaining, as the specification
    words it: when streamed arguments come from more than one upstream
    action and some task count differs, the call ends with chaining off and
    every argument of rank above zero in stored mode. *)
Definition storesOnAnyMismatch (arg : list nat) (allow_streams : bool)
    (argstart : nat) (st : State) : Prop :=
  let f := streamActions arg argstart in
  1 < length f ->
  thisIsActionWithValue = true ->
  mustStore arg allow_streams argstart = false ->
  forallb (hasTasks (tasksOfFirst f)) f = false ->
  exists st',
    requestArguments arg allow_streams argstart st = Done st' /\
    done_over_stream (this st') = false /\
    forall v, In v arg -> 0 < getRank v -> storedForThis (stores st') v.

(** The arguments with the actions they point to. *)
Definition argumentOwners (args : list nat) : list (nat * string) :=
  flat_map (fun v => match getPntrToAction v with
                     | Some owner => [(v, owner)]
                     | None => []
                     end) args.

(** The action at the head of the stream of a value. *)
Definition calculatedBy (v : nat) : option string :=
  match getPntrToAction v with
  | Some owner => Some (getActionThatCalculates owner)
  | None => None
  end.

(** *** setupActionInChain *)

(** The chains of the actions. [ActionWithValue::addActionToChain] is not
    among the sources: the call on the action [target], with the labels
    given, for the action [added], answers whether the action was added and
    leaves the chains in a new state. *)
Variable Chain : Type.
Variable addActionToChain :
  string -> list string -> string -> Chain -> bool * Chain.

Definition storingForThis (sd : Stores) (v : nat) : bool :=
  existsb (fun lab => (getRank v =? 0) || String.eqb lab getLabel)
    (store_data_for sd v).

(** What the loop of lines 2882 to 2903 builds: the labels [alabels], the
    actions [f_actions] and, for the loops that follow, the arguments with
    the actions they point to. *)
Record Collected := mkCollected {
  alabels : list string;
  chained : list string;
  owners : list (nat * string)
}.

Definition collectArgument (sd : Stores) (c : Collected) (v : nat)
    : Outcome Collected :=
  match getPntrToAction v with
  | None => Undefined
  | Some mylab =>
      let labels := if existsb (String.eqb mylab) (alabels c)
                    then alabels c else alabels c ++ [mylab] in
      let myact := getActionThatCalculates mylab in
      let f := chained c in
      let f' :=
        if negb (isActionSetup myact) && negb (isConstant v) then
          if existsb (String.eqb myact) f then f
          else if (length f =? 0) || negb (storingForThis sd v)
               then f ++ [myact] else f
        else f in
      Done (mkCollected labels f' (owners c ++ [(v, mylab)]))
  end.

(** Line 2908: the actions after the first join the chain of the first;
    what the calls answer is not looked at. *)
Definition fuse (f : list string) (chain : Chain) : Chain :=
  match f with
  | [] => chain
  | f0 :: rest =>
      fold_left (fun ch fi => snd (addActionToChain f0 [f0] fi ch)) rest chain
  end.

(** The loop of lines 2914 to 2922 over the arguments from position [i]:
    the flags [added] and [all_setup], the chains, and the positions of the
    arguments whose action was asked to take this action in its chain. *)
Fixpoint tryChains (labels : list string) (args : list (nat * string))
    (i : nat) (all_setup : bool) (chain : Chain) (asked : list nat)
    : bool * bool * Chain * list nat :=
  match args with
  | [] => (false, all_setup, chain, asked)
  | (v, owner) :: rest =>
      if canChainFromThisAction owner && (0 <? getRank v) then
        let answer := addActionToChain owner labels getLabel chain in
        if fst answer then (true, all_setup, snd answer, asked ++ [i])
        else tryChains labels rest (S i) false (snd answer) (asked ++ [i])
      else
        tryChains labels rest (S i)
          (if canChainFromThisAction owner then false else all_setup)
          chain asked
  end.

Definition couldNotAdd : string :=
  String.append "could not add action "
    (String.append getLabel " to chain of any of its arguments").

(** The loop of lines 2933 to 2938. *)
Fixpoint countValuesOf (first : string) (kind : nat) (args : list nat)
    (nd : nat) : Outcome nat :=
  match args with
  | [] => Done nd
  | v :: rest =>
      match getPntrToAction v with
      | None => Undefined
      | Some owner =>
          if String.eqb owner first then
            if 0 <? nd
            then Failed
                   "cannot use more than one argument from an action at once in this way"
            else countValuesOf first kind rest
                   (if kind =? 2 then 1 else getNumberOfValues v)
          else countValuesOf first kind rest nd
      end
  end.

(** Body of the loop of lines 2927 to 2942. *)
Definition addDerivativesOf (args : list nat) (nderivatives : nat)
    (d : option string * nat) : Outcome nat :=
  match fst d with
  | None => Undefined
  | Some first =>
      if snd d =? 0 then Done (nderivatives + getNumberOfDerivatives first)
      else
        match outputs first with
        | [v] => Done (nderivatives + getNumberOfValues v)
        | _ =>
            let! nd := countValuesOf first (snd d) args 0 in
            let! ok := massert (0 <? nd) "nd > 0" in
            Done (nderivatives + nd)
        end
  end.

(** [setupActionInChain]: the number of derivatives, the chains, and the
    positions of the arguments asked. *)
Definition setupActionInChain (argstart : nat) (st : State) (chain : Chain)
    : Outcome (nat * Chain * list nat) :=
  let! ok := massert (done_over_stream (this st)) "done_over_stream" in
  let args := arguments (this st) in
  let! c := foldM (collectArgument (stores st)) (drop argstart args)
              (mkCollected [] [] []) in
  let chain1 := fuse (chained c) chain in
  let! av := massert thisIsActionWithValue "av" in
  let '(added, all_setup, chain2, asked) :=
    tryChains (alabels c) (owners c) argstart true chain1 [] in
  let! ok2 := massert (all_setup || added) couldNotAdd in
  let! nderivatives :=
    foldM (addDerivativesOf args) (distinct_arguments (this st)) 0 in
  Done (nderivatives, chain2, asked).

(** The actions that [setupActionInChain] collects to fuse (the vector
    [f_actions] of lines 2889 to 2902), when no argument points to a null
    action. *)
Definition chainActions (argstart : nat) (st : State) : Outcome (list string) :=
  let! c := foldM (collectArgument (stores st))
              (drop argstart (arguments (this st))) (mkCollected [] [] []) in
  Done (chained c).

(** *** HistogramBase (gridtools/HistogramBase.cpp) *)

(** The loop of lines 123 to 128 of the constructor over the arguments from
    position [i]: the flag [added], the chains and the positions asked. *)
Fixpoint histogramTryChains (labels : list string) (args : list (nat * string))
    (i : nat) (chain : Chain) (asked : list nat) : bool * Chain * list nat :=
  match args with
  | [] => (false, chain, asked)
  | (v, owner) :: rest =>
      if 0 <? getRank v then
        let answer := addActionToChain owner labels getLabel chain in
        if fst answer then (true, snd answer, asked ++ [i])
        else histogramTryChains labels rest (S i) (snd answer) (asked ++ [i])
      else histogramTryChains labels rest (S i) chain asked
  end.

Definition histogramLabel (c : Collected) (v : nat) : Outcome Collected :=
  match getPntrToAction v with
  | None => Undefined
  | Some mylab =>
      Done (mkCollected
              (if existsb (String.eqb mylab) (alabels c)
               then alabels c else alabels c ++ [mylab])
              [] (owners c ++ [(v, mylab)]))
  end.

(** Lines 113 to 129 of the constructor of [HistogramBase], which run when
    [distinct_arguments] is not empty and the shapes of the arguments
    agree. *)
Definition histogramChain (st : State) (chain : Chain)
    : Outcome (Chain * list nat) :=
  let! c := foldM histogramLabel (arguments (this st))
              (mkCollected [] [] []) in
  let '(added, chain1, asked) :=
    histogramTryChains (alabels c) (owners c) 0 chain [] in
  let! ok := massert added couldNotAdd in
  Done (chain1, asked).

(** What the last part of the constructor of [HistogramBase] leaves: the
    arguments of the calls of [addTaskToList], the chains with the
    positions of the arguments asked, the stores and
    [one_kernel_at_a_time]. *)
Record Tasks := mkTasks {
  taskList : list nat;
  chains : Chain;
  askedArguments : list nat;
  dataStores : Stores;
  one_kernel_at_a_time : bool
}.

(** Body of the loop of lines 107 to 111 for the argument at position
    [fst iv]. [getShape()[0]] is read from a vector that is empty for a
    value of rank zero. *)
Definition sameShape (arg_ends : list nat) (getShape0 : nat -> option nat)
    (rank0 ntasks : nat) (ok : unit) (iv : nat * nat) : Outcome unit :=
  match arg_ends !! fst iv with
  | None => Undefined
  | Some e =>
      if negb (e =? fst iv)
      then Failed "not sure if this sort of reshaping works"
      else if (rank0 =? 0) && negb (getRank (snd iv) =? 0)
      then Failed "all arguments should have same shape"
      else
        match getShape0 (snd iv) with
        | None => Undefined
        | Some n =>
            if negb (n =? ntasks)
            then Failed "all arguments should have same shape"
            else Done tt
        end
  end.

(** Body of the loop of line 133. *)
Definition storeRankedArgument (sd : Stores) (v : nat) : Outcome Stores :=
  let sd' := buildDataStore getLabel v sd in
  let! ok := massert (0 <? getRank v) "getPntrToArgument(i)->getRank()>0" in
  Done sd'.

(** Lines 104 to 139 of the constructor of [HistogramBase], the part that
    constructs the tasks. [arg_ends] and [nvals] are what the first part of
    the constructor computed, and [getShape0] is [getShape()[0]] of a
    value (core/Value.h is not among the sources). *)
Definition constructTasks (arg_ends : list nat) (nvals : nat)
    (getShape0 : nat -> option nat) (st : State) (chain : Chain)
    : Outcome Tasks :=
  let args := arguments (this st) in
  if 0 <? length (distinct_arguments (this st)) then
    let! ok := massert (0 <? length args) "getNumberOfArguments()>0" in
    match args with
    | [] => Undefined
    | v0 :: rest =>
        let! ntasks :=
          if 0 <? getRank v0 then
            match getShape0 v0 with
            | Some n => Done n
            | None => Undefined
            end
          else Done 1 in
        let! ok1 :=
          foldM (sameShape arg_ends getShape0 (getRank v0) ntasks)
            (combine (seq 1 (length rest)) rest) tt in
        let! r := histogramChain st chain in
        Done (mkTasks (seq 0 ntasks) (fst r) (snd r) (stores st) false)
    end
  else
    match args with
    | [] => Undefined
    | v0 :: _ =>
        if 0 <? getRank v0 then
          let! sd := foldM storeRankedArgument args (stores st) in
          Done (mkTasks (seq 0 nvals) chain [] sd false)
        else
          let one :=
            forallb (fun ie => snd ie =? fst ie)
              (combine (seq 0 (length arg_ends)) arg_ends) in
          Done (mkTasks (if one then [] else seq 0 nvals) chain []
                  (stores st) one)
    end.

(** *** getArgumentPositionInStream *)

(** Lines 3191 to 3204: the position in the stream of the argument at
    position [jder], and the record of the task, in which a stored argument
    gets the derivative one with respect to the element read. *)
Definition getArgumentPositionInStream (st : State) (jder : nat)
    (myvals : MultiValue.MultiValue) : Outcome (nat * MultiValue.MultiValue) :=
  match arguments (this st) !! jder with
  | None => Undefined
  | Some v =>
      if existsb (fun lab => String.eqb lab getLabel)
           (store_data_for (stores st) v)
      then
        let istrn := stashPosition v in
        let task_index :=
          if (0 <? getRank v) && negb (isTimeSeries v)
          then MultiValue.getTaskIndex myvals else 0 in
        let m := MultiValue.addDerivative istrn task_index 1%Q myvals in
        Done (istrn,
              if length (MultiValue.active_list m istrn) =? 0
              then MultiValue.updateIndex istrn task_index m else m)
      else Done (getPositionInStream v, myvals)
  end.

(** *** Forces on the arguments *)

(** A call [v->addForce( k, f )] on an argument: the value [v], the index
    [k] and the force [f]. [Value::addForce] is not among the sources; the
    functions below are given by the calls they make, in their order. *)
Record AddForce := mkAddForce {
  onValue : nat;
  atIndex : nat;
  force : Q
}.

(** The loop of lines 3068 to 3072 of [setForceOnScalarArgument] from the
    argument at position [i]: the values of [j] and [nn] when it ends. *)
Fixpoint findScalarArgument (n : nat) (args : list nat) (i nt nn : nat)
    : nat * nat :=
  match args with
  | [] => (0, nn)
  | v :: rest =>
      let nt' := nt + getNumberOfValues v in
      if n <? nt' then (i, nn)
      else findScalarArgument n rest (S i) nt' (nn + getNumberOfValues v)
  end.

Definition setForceOnScalarArgument (n : nat) (ff : Q) (st : State)
    : Outcome AddForce :=
  let found := findScalarArgument n (arguments (this st)) 0 0 0 in
  match arguments (this st) !! fst found with
  | Some v => Done (mkAddForce v (n - snd found) ff)
  | None => Undefined
  end.

(** One turn of the loops of lines 3150 to 3153 and of line 3161: the call
    made and the new [start]. Below the end of [forces] a debug build stops
    on its assertion; the read is undefined otherwise. *)
Definition addForceFrom (forces : list Q) (v : nat)
    (acc : list AddForce * nat) (k : nat) : Outcome (list AddForce * nat) :=
  match forces !! snd acc with
  | Some f => Done (fst acc ++ [mkAddForce v k f], S (snd acc))
  | None => Undefined
  end.

(** Whether the name of a value holds [_ones] (line 3148). *)
Definition namedOnes (v : nat) : bool :=
  match String.index 0 "_ones" (getName v) with
  | Some _ => true
  | None => false
  end.

(** Body of the loop of lines 3135 to 3155 for the entry [d] of
    [distinct_arguments] and the argument [v]: the names in
    [added_force_on], the calls and [start]. *)
Definition addStoredForces (sd : Stores) (forces : list Q)
    (d : option string * nat) (acc : list string * (list AddForce * nat))
    (v : nat) : Outcome (list string * (list AddForce * nat)) :=
  if existsb (fun lab => String.eqb lab getLabel) (store_data_for sd v)
     && pointerEq (getPntrToAction v) (fst d)
  then
    if existsb (String.eqb (getName v)) (fst acc) then Done acc
    else
      let names := if namedOnes v then fst acc ++ [getName v] else fst acc in
      let narg_v := if snd d =? 2 then 1 else getNumberOfValues v in
      let! r := foldM (addForceFrom forces v) (seq 0 narg_v) (snd acc) in
      Done (names, r)
  else Done acc.

(** [setForcesOnActionChain] (lines 3120 to 3126) hands the forces to the
    object of another action, whose state is not part of this object. What
    that object does with the forces from [start] on, and the value of
    [start] it leaves, are given with the input. *)
Variable setForcesOnActionChain :
  list Q -> nat -> option string -> Outcome (list AddForce * nat).

(** [setForcesOnArguments]: the calls of [addForce] and the new value of
    [start]. *)
Definition setForcesOnArguments (argstart : nat) (forces : list Q)
    (start : nat) (st : State) : Outcome (list AddForce * nat) :=
  let args := drop argstart (arguments (this st)) in
  if done_over_stream (this st) then
    foldM
      (fun acc d =>
         if snd d =? 0 then
           let! r := setForcesOnActionChain forces (snd acc) (fst d) in
           Done (fst acc ++ fst r, snd r)
         else
           let! r := foldM (addStoredForces (stores st) forces d) args
                       ([], acc) in
           Done (snd r))
      (distinct_arguments (this st)) ([], start)
  else
    foldM
      (fun acc v =>
         foldM (addForceFrom forces v) (seq 0 (getNumberOfValues v)) acc)
      args ([], start).

(** The number of scalars that a list of arguments holds, and the scalars
    themselves (the value and the index in it) in the order of the flat
    numbering: argument by argument, each from its first element. *)
Definition numberOfScalars (args : list nat) : nat :=
  fold_right Nat.add 0 (List.map getNumberOfValues args).

Definition scalarsOf (args : list nat) : list (nat * nat) :=
  flat_map (fun v => List.map (pair v) (seq 0 (getNumberOfValues v))) args.

(** The flat number of the element [k] of the argument at position
    [argstart + j], counted from the argument at [argstart]. *)
Definition forceIndex (argstart j k : nat) (st : State) : nat :=
  numberOfScalars (take j (drop argstart (arguments (this st)))) + k.

(** *** skipCalculate and skipUpdate *)

Definition skipCalculate (o : Object) : bool :=
  match theAverageInArguments o, theReweightBase o with
  | None, None => false
  | _, _ => true
  end.

(** [isActive] is the flag of the other actions. *)
Definition skipUpdate (isActive : string -> bool) (o : Object) : bool :=
  match theAverageInArguments o, theReweightBase o with
  | None, None => true
  | Some av, _ => negb (isActive av)
  | None, Some rb => negb (isActive rb)
  end.

(** *** The stash of the stored arguments *)

Definition stashEntries (sd : Stash) (v : nat) : list (string * nat) :=
  default [] (sd !! v).

(** The position that [getArgumentPositionInStream] reads for a value: the
    second component of the first entry for this action (lines 3193 to
    3195). *)
Fixpoint positionFor (label : string) (l : list (string * nat))
    : option nat :=
  match l with
  | [] => None
  | e :: l' =>
      if String.eqb (fst e) label then Some (snd e) else positionFor label l'
  end.

Definition stashed (sd : Stash) (v : nat) : option nat :=
  positionFor getLabel (stashEntries sd v).

(** The inner loop of [getNumberOfStashedInputArguments] (lines 3183 to
    3187): the entries with the position written, if an entry is for this
    action. *)
Fixpoint stashAt (label : string) (nquants : nat) (l : list (string * nat))
    : option (list (string * nat)) :=
  match l with
  | [] => None
  | e :: l' =>
      if String.eqb (fst e) label then Some ((fst e, nquants) :: l')
      else match stashAt label nquants l' with
           | Some l'' => Some (e :: l'')
           | None => None
           end
  end.

Definition stashArgument (acc : Stash * nat) (v : nat) : Stash * nat :=
  match stashAt getLabel (snd acc) (stashEntries (fst acc) v) with
  | Some l => (<[v:=l]> (fst acc), S (snd acc))
  | None => acc
  end.

Definition getNumberOfStashedInputArguments (nquants : nat) (args : list nat)
    (sd : Stash) : Outcome (Stash * nat) :=
  let! ok := massert thisIsActionWithValue "av" in
  Done (fold_left stashArgument args (sd, nquants)).

End Plumed.

(** What the loop of lines 2839 to 2872 keeps: no action is twice in
    [distinct_arguments], which is no longer than [arg_deriv_starts]. *)
Definition distinctKept (acc : list (option string * nat) * list nat * nat)
    : Prop :=
  List.NoDup (List.map fst (fst (fst acc))) /\
  length (fst (fst acc)) <= length (snd (fst acc)).

(** *** A small input

    The actions [c], [a], [b] and [f], in this order. The action [a] has the
    outputs 0 ([a.x]) and 1 ([a.y]), [b] the output 2 and [c] the constant
    output 3; all of them are vectors. The action [f] requests arguments.
    The numbers of tasks of the values are left open. *)
Definition sample (tasks : nat -> nat) : Plumed :=
  mkPlumed
    (fun v => match v with 0 => "a.x" | 1 => "a.y" | 2 => "b" | _ => "c" end)
    (fun v => match v with
              | 0 | 1 => Some "a"
              | 2 => Some "b"
              | _ => Some "c"
              end)
    (fun _ => 1)
    (fun v => v =? 3)
    (fun _ => false)
    tasks
    tasks
    (fun _ => false)
    (fun v => v)
    (fun v => 10 + v)
    ["c"; "a"; "b"; "f"]
    (fun _ => true)
    (fun _ => false)
    (fun _ => false)
    (fun _ => false)
    (fun a => String.eqb a "f")
    (fun a => a)
    (fun _ => None)
    (fun _ => None)
    (fun a => a)
    (fun a => if String.eqb a "a" then [0; 1]
              else if String.eqb a "b" then [2]
              else if String.eqb a "c" then [3] else [])
    (fun _ _ => false)
    (fun _ => [])
    (fun _ => true)
    (fun _ => true)
    (fun a => a)
    (fun _ => 6)
    "f"
    false
    true
    false.

(** The action [f] before its first request. *)
Definition fresh : State :=
  mkState (mkObject [] [] [] [] false None None) ∅.

(** The two outputs of [a] have 3 and 4 tasks. *)
Definition uneven_first (v : nat) : nat :=
  match v with
  | 1 => 4
  | _ => 3
  end.

(** The outputs of [a] have 3 tasks, the output of [b] has 5. *)
Definition uneven_second (v : nat) : nat :=
  match v with
  | 2 => 5
  | _ => 3
  end.

(** Chains that take no action. *)
Definition refuse (target : string) (labels : list string) (added : string)
    (chain : unit) : bool * unit :=
  (false, chain).

(** Chains that take no action and keep the list of the actions that were
    asked, a call after the other. *)
Definition refuseAndRecord (target : string) (labels : list string)
    (added : string) (calls : list string) : bool * list string :=
  (false, calls ++ [target]).

(** The action [f] with the vectors [a.x] and [b] as its arguments, when
    the calculation is not done over the stream. *)
Definition two_vectors : State :=
  mkState (mkObject [0; 2] [] [] [] false None None) ∅.

(** A chain that takes no force. *)
Definition no_chain (forces : list Q) (start : nat) (av : option string)
    : Outcome (list AddForce * nat) :=
  Done ([], start).

(** The small input with [a] an [AverageBase]. *)
Definition averaged : Plumed :=
  let s := sample (fun _ => 3) in
  mkPlumed (getName s) (getPntrToAction s) (getRank s) (isConstant s)
    (alwaysstore s) (ntasks s) (getNumberOfValues s) (isTimeSeries s)
    (getPositionInStream s) (stashPosition s) (actionSet s)
    (isActionWithValue s) (isActionSetup s) (String.eqb "a")
    (isReweightBase s) (isActionWithArguments s) (actionName s)
    (averageInArgumentsOf s) (reweightBaseOf s) (getActionThatCalculates s)
    (outputs s) (checkForDependency s) (getDependencies s)
    (canChainFromThisAction s) (mustBeTreatedAsDistinctArguments s)
    (getFirstNonStream s) (getNumberOfDerivatives s) (getLabel s)
    (lockRequestArguments s) (thisIsActionWithValue s) (keywordSERIAL s).

(** The entries of [a.x] and of [b]: [a.x] is stored for [f], [b] for [g]
    and for [f]. *)
Definition stash0 : Stash :=
  <[0:=[("f", 0)]]> (<[2:=[("g", 5); ("f", 0)]]> ∅).

End ActionWithArguments.

(** ** FunctionOfVector (function/FunctionOfVector.h) *)

Module FunctionOfVector.
Import MultiValue ActionWithArguments.

Section Task.

Variable plumed : Plumed.

(** [myfunc.getArgStart()], the positions in the stream of the outputs of
    the action, [actionInChain()], [doNotCalculateDerivatives()] and the
    matrix [derivatives] that [myfunc.calc] fills for the task. *)
Variable argstart : nat.
Variable outputStreams : list nat.
Variable actionInChain : bool.
Variable doNotCalculateDerivatives : bool.
Variable derivatives : nat -> nat -> Q.

(** The outputs of the action with their numbers. *)
Definition numberedOutputs : list (nat * nat) :=
  combine (seq 0 (length outputStreams)) outputStreams.

(** Body of the loop of lines 210 to 231 of [performTask] for the argument
    [argstart + j]. The active indices of the argument are read before the
    loops; the outputs of the action are other components of the record
    than its arguments. *)
Definition chainDerivatives (st : State) (myvals : MultiValue) (j : nat)
    : Outcome MultiValue :=
  let! found := getArgumentPositionInStream plumed st (argstart + j) myvals in
  let istrn := fst found in
  let starts := arg_deriv_starts (this st) in
  let start := nth j starts 0 in
  let kinds := active_list (snd found) istrn in
  let m :=
    fold_left
      (fun m' kind =>
         fold_left
           (fun m'' io =>
              addDerivative (snd io) (start + kind)
                (derivatives (fst io) j * getDerivative m'' istrn kind)%Q m'')
           numberedOutputs m')
      kinds (snd found) in
  if existsb (fun k => nth k starts 0 =? start) (seq 0 j) then Done m
  else
    Done (fold_left
            (fun m' kind =>
               fold_left (fun m'' ostrn => updateIndex ostrn (start + kind) m'')
                 outputStreams m')
            kinds m).

(** Body of the loop of lines 234 to 250 for the argument [argstart + j]:
    the record and the new [base]. *)
Definition plainDerivatives (st : State) (current : nat)
    (acc : MultiValue * nat) (j : nat) : Outcome (MultiValue * nat) :=
  match arguments (this st) !! (argstart + j) with
  | None => Undefined
  | Some v =>
      let base := snd acc in
      let idx := if getRank plumed v =? 1 then base + current else base in
      Done (fold_left
              (fun m io =>
                 updateIndex (snd io) idx
                   (addDerivative (snd io) idx (derivatives (fst io) j) m))
              numberedOutputs (fst acc),
            base + getNumberOfValues plumed v)
  end.

(** The derivatives of [performTask] (lines 205 to 251), on the record in
    which the values of the task are set. *)
Definition performTask (st : State) (current : nat) (myvals : MultiValue)
    : Outcome MultiValue :=
  if doNotCalculateDerivatives then Done myvals
  else
    let nargs := length (arguments (this st)) - argstart in
    if actionInChain && (0 <? length (arg_deriv_starts (this st))) then
      foldM (chainDerivatives st) (seq 0 nargs) myvals
    else
      let! r := foldM (plainDerivatives st current) (seq 0 nargs)
                  (myvals, 0) in
      Done (fst r).

(** The third part of the statement on constant arguments, as the
    specification words it: no derivative index of a constant argument is
    added to the record of a task. The indices of the argument at position
    [argstart + j] are those from [arg_deriv_starts[j]] on, one for each of
    its values. *)
Definition constantIndicesStayOut (st : State) : Prop :=
  forall (current j v out idx : nat) (m : MultiValue),
    arguments (this st) !! (argstart + j) = Some v ->
    isConstant plumed v = true ->
    In out outputStreams ->
    performTask st current (cleared current) = Done m ->
    nth j (arg_deriv_starts (this st)) 0 <= idx
      < nth j (arg_deriv_starts (this st)) 0 + getNumberOfValues plumed v ->
    ~ In idx (active_list m out).

End Task.

End FunctionOfVector.

(** * Part II: properties *)

(** ** Lists *)

Lemma before_rev {A : Type} (x y : A) (l : list A) :
  before x y l -> before y x (rev l).
Proof.
  intros (l1 & l2 & l3 & ->).
  exists (rev l3), (rev l2), (rev l1).
  rewrite rev_app_distr. simpl. rewrite rev_app_distr. simpl.
  rewrite <- !app_assoc. reflexivity.
Qed.

Lemma before_map {A B : Type} (f : A -> B) (x y : A) (l : list A) :
  before x y l -> before (f x) (f y) (List.map f l).
Proof.
  intros (l1 & l2 & l3 & ->).
  exists (List.map f l1), (List.map f l2), (List.map f l3).
  rewrite List.map_app. simpl. rewrite List.map_app. reflexivity.
Qed.

Lemma select_app {A B : Type} (f : A -> option B) (l1 l2 : list A) :
  select f (l1 ++ l2) = select f l1 ++ select f l2.
Proof.
  induction l1 as [|x l1 IH]; simpl; [reflexivity|].
  destruct (f x); simpl; rewrite IH; reflexivity.
Qed.

Lemma select_flat_map {A B C : Type} (f : B -> option C) (g : A -> list B)
    (l : list A) :
  select f (flat_map g l) = flat_map (fun x => select f (g x)) l.
Proof.
  induction l as [|x l IH]; simpl; [reflexivity|].
  rewrite select_app, IH. reflexivity.
Qed.

Lemma before_select {A B : Type} (f : A -> option B) (x y : A) (x' y' : B)
    (l : list A) :
  f x = Some x' -> f y = Some y' ->
  before x y l -> before x' y' (select f l).
Proof.
  intros Hx Hy (l1 & l2 & l3 & ->).
  exists (select f l1), (select f l2), (select f l3).
  rewrite select_app. simpl. rewrite Hx, select_app. simpl. rewrite Hy.
  reflexivity.
Qed.

(** Two doubles that compare equal have the same sign, mantissa and
    exponent when they are finite. *)
Lemma deqb_finite (sx sc : bool) (mx mc : positive) (ex ec : Z) :
  deqb (SpecFloat.S754_finite sx mx ex) (SpecFloat.S754_finite sc mc ec)
  = true ->
  sx = sc /\ mx = mc /\ ex = ec.
Proof.
  unfold deqb, SpecFloat.SFeqb. cbn.
  destruct sx, sc; try discriminate;
    destruct (Z.compare_spec ex ec) as [->| |]; try discriminate;
    change (PosDef.Pos.compare_cont Eq mx mc) with (Pos.compare mx mc);
    destruct (Pos.compare_spec mx mc) as [->| |]; try discriminate; auto.
Qed.

(** The difference of two doubles that compare equal is a zero, or NaN for
    two infinities. *)
Lemma dsub_equal (x c : double) :
  deqb x c = true ->
  exists s, dsub x c = SpecFloat.S754_zero s \/ dsub x c = SpecFloat.S754_nan.
Proof.
  destruct x as [sx|sx| |sx mx ex], c as [sc|sc| |sc mc ec]; intros H;
    try discriminate H;
    try (destruct sx; discriminate H); try (destruct sc; discriminate H).
  - destruct sx, sc; eexists; left; reflexivity.
  - destruct sx, sc; try discriminate H; exists false; right; reflexivity.
  - apply deqb_finite in H as (-> & -> & ->).
    exists false. left. unfold dsub. cbn.
    now rewrite Z.min_id, Z.sub_diag.
Qed.

(** A product with a zero or with NaN is not below zero. *)
Lemma product_with_zero (x y : double) :
  (exists s, x = SpecFloat.S754_zero s \/ x = SpecFloat.S754_nan) ->
  dltb (dmul x y) dzero = false /\ dltb (dmul y x) dzero = false.
Proof.
  intros (s & [-> | ->]); destruct y as [sy|sy| |sy my ey]; split;
    reflexivity.
Qed.

(** ** The backward loop mirrors the forward loop *)

Section PlumedMainFacts.
Import PlumedMain.

Lemma select_calculate_body (firststep : bool) (i : nat) (p : Action) :
  select calculated (calculate_body firststep i p) = [i].
Proof.
  unfold calculate_body.
  destruct (isActionWithValue p), (isActionAtomistic p),
    (checkNumericalDerivatives p), firststep; reflexivity.
Qed.

Lemma flat_map_active (l : list (nat * Action)) :
  flat_map (fun ip => if isActive (snd ip) then [fst ip] else []) l
  = activeActions l.
Proof.
  unfold activeActions.
  induction l as [|[i p] l IH]; simpl; [reflexivity|].
  destruct (isActive p); simpl; rewrite IH; reflexivity.
Qed.

Lemma activeActions_rev (l : list (nat * Action)) :
  activeActions (rev l) = rev (activeActions l).
Proof.
  unfold activeActions.
  induction l as [|ip l IH]; simpl; [reflexivity|].
  rewrite List.filter_app, List.map_app, IH. simpl.
  destruct (isActive (snd ip)); simpl; [reflexivity|].
  rewrite app_nil_r. reflexivity.
Qed.

Lemma forwardOrder_active (pm : PlumedMain) :
  forwardOrder pm
  = if active pm then activeActions (numbered (actionSet pm)) else [].
Proof.
  unfold forwardOrder, justCalculate.
  destruct (active pm); simpl; [|reflexivity].
  rewrite select_flat_map, <- flat_map_active.
  apply flat_map_ext. intros [i p]. simpl.
  destruct (isActive p); [apply select_calculate_body | reflexivity].
Qed.

Lemma backwardOrder_active (pm : PlumedMain) :
  backwardOrder pm
  = if active pm then rev (activeActions (numbered (actionSet pm))) else [].
Proof.
  unfold backwardOrder, backwardPropagate.
  destruct (active pm); simpl; [|reflexivity].
  rewrite select_flat_map, <- activeActions_rev, <- flat_map_active.
  apply flat_map_ext. intros [i p]. simpl.
  destruct (isActive p); reflexivity.
Qed.

(** The backward loop issues nothing but [apply] calls. *)
Lemma backwardPropagate_applies (pm : PlumedMain) :
  backwardPropagate pm = List.map EvApply (backwardOrder pm).
Proof.
  unfold backwardOrder, backwardPropagate.
  destruct (negb (active pm)); [reflexivity|].
  induction (rev (numbered (actionSet pm))) as [|[i p] l IH];
    simpl; [reflexivity|].
  destruct (isActive p); simpl; [f_equal|]; exact IH.
Qed.

(** C2. In a calculation step the backward loop visits the active actions
    in exactly the reverse of the order of the forward loop; so when the
    [calculate()] of an action [a] runs before that of an action [b] in
    the forward loop, the [apply()] of [b] runs before that of [a] in the
    backward loop. *)
Theorem backward_pass_reverses_forward_pass (pm : PlumedMain) :
  backwardOrder pm = rev (forwardOrder pm) /\
  forall a b : nat,
    before (EvCalculate a) (EvCalculate b) (justCalculate pm) ->
    before (EvApply b) (EvApply a) (backwardPropagate pm).
Proof.
  assert (Hrev : backwardOrder pm = rev (forwardOrder pm)).
  { rewrite backwardOrder_active, forwardOrder_active.
    destruct (active pm); reflexivity. }
  split; [exact Hrev|].
  intros a b Hab.
  rewrite backwardPropagate_applies, Hrev.
  apply before_map, before_rev.
  unfold forwardOrder.
  apply (before_select calculated (EvCalculate a) (EvCalculate b));
    [reflexivity | reflexivity | exact Hab].
Qed.

Lemma backward_pass_reverses_forward_pass_witness :
  before (EvApply 2) (EvApply 0) (backwardPropagate three_actions).
Proof.
  apply (proj2 (backward_pass_reverses_forward_pass three_actions) 0 2).
  exists [EvClearInputForces 0; EvClearDerivatives 0; EvSetupForCalculation 0],
    [EvGetOutputQuantity 0 "bias"; EvGetOutputQuantity 0 "work";
     EvSetGradientsIfNeeded 0;
     EvClearInputForces 2; EvClearDerivatives 2; EvSetupForCalculation 2],
    [EvGetOutputQuantity 2 "bias"; EvGetOutputQuantity 2 "work";
     EvSetGradientsIfNeeded 2].
  reflexivity.
Defined.

End PlumedMainFacts.

(** ** Contour finding: which grid edges become tasks *)

Section FindContourFacts.
Import FindContour.

Variable rank : nat.
Variable npoints : nat.
Variable nbin : nat -> nat.
Variable isPeriodic : nat -> bool.
Variable getIndices : nat -> list nat.
Variable getIndex : list nat -> nat.
Variable get : nat -> double.
Variable contour : double.

Local Abbreviation search_dimension :=
  (search_dimension rank nbin isPeriodic getIndex get contour).
Local Abbreviation search_point :=
  (search_point rank nbin isPeriodic getIndices getIndex get contour).
Local Abbreviation taskList :=
  (setupCurrentTaskList rank npoints nbin isPeriodic getIndices getIndex get
     contour).
Local Abbreviation edgeLog :=
  (examinedEdges rank npoints nbin isPeriodic getIndices getIndex get contour).
Local Abbreviation neighbour := (neighbour nbin).
Local Abbreviation leaves_grid := (leaves_grid nbin isPeriodic).
Local Abbreviation indexVector := (indexVector rank getIndices).
Local Abbreviation signChange :=
  (signChange rank nbin getIndices getIndex get contour).
Local Abbreviation flagged :=
  (flagged rank nbin isPeriodic getIndices getIndex get contour).
Local Abbreviation looked := (looked rank nbin isPeriodic getIndices).

(** One turn of the loop over the dimensions leaves [ind] and [edge] as it
    found them. *)
Lemma search_dimension_spec (i j : nat) (s : Search) :
  ind s = indexVector i -> edge s = false -> j < rank ->
  search_dimension i (dsub (get i) contour) s j
  = mkSearch (ind s) false (tasks s ++ flagged i j) (examined s ++ looked i j).
Proof.
  intros Hind Hedge Hj.
  assert (Hlen : j < length (ind s)).
  { rewrite Hind. unfold indexVector. rewrite length_resize. exact Hj. }
  unfold FindContour.search_dimension, flagged, looked, signChange,
    FindContour.leaves_grid, FindContour.neighbour, move_to_neighbour.
  rewrite <- Hind.
  destruct (negb (isPeriodic j) && (ind s !!! j + 1 =? nbin j)) eqn:Hleave.
  - simpl. rewrite !app_nil_r. destruct s; simpl in *; subst; reflexivity.
  - simpl negb. rewrite andb_true_l.
    destruct (ind s !!! j + 1 =? nbin j) eqn:Hwrap; simpl fst; simpl snd.
    + assert (Hper : isPeriodic j = true).
      { destruct (isPeriodic j); [reflexivity | discriminate]. }
      rewrite Hper. simpl andb.
      apply Nat.eqb_eq in Hwrap.
      rewrite list_insert_insert_eq.
      rewrite (list_insert_id (ind s) j (nbin j - 1)).
      * destruct (dltb _ dzero); [reflexivity | rewrite app_nil_r; reflexivity].
      * rewrite list_lookup_lookup_total_lt by exact Hlen.
        f_equal. lia.
    + rewrite Hedge, andb_false_r.
      rewrite list_lookup_total_insert_eq by exact Hlen.
      rewrite list_insert_insert_eq.
      rewrite (list_insert_id (ind s) j (ind s !!! j + 1 - 1)).
      * destruct (dltb _ dzero); [reflexivity | rewrite app_nil_r; reflexivity].
      * rewrite list_lookup_lookup_total_lt by exact Hlen.
        f_equal. lia.
Qed.

Lemma search_dimensions_spec (i : nat) (js : list nat) (s : Search) :
  ind s = indexVector i -> edge s = false ->
  (forall j, In j js -> j < rank) ->
  fold_left (search_dimension i (dsub (get i) contour)) js s
  = mkSearch (ind s) false (tasks s ++ flat_map (flagged i) js)
      (examined s ++ flat_map (looked i) js).
Proof.
  revert s. induction js as [|j js IH]; intros s Hind Hedge Hjs.
  - simpl. rewrite !app_nil_r. destruct s; simpl in *; subst; reflexivity.
  - simpl fold_left.
    rewrite search_dimension_spec by (auto; apply Hjs; left; reflexivity).
    rewrite IH; simpl; auto.
    + rewrite <- !app_assoc. reflexivity.
    + intros j' Hj'. apply Hjs. right. exact Hj'.
Qed.

Lemma search_point_spec (acc : list nat * list (nat * nat)) (i : nat) :
  search_point acc i
  = (fst acc ++ flat_map (flagged i) (seq 0 rank),
     snd acc ++ flat_map (looked i) (seq 0 rank)).
Proof.
  unfold FindContour.search_point.
  rewrite search_dimensions_spec; simpl; auto.
  intros j Hj. apply in_seq in Hj. lia.
Qed.

Lemma search_points_spec (pts : list nat)
    (acc : list nat * list (nat * nat)) :
  fold_left search_point pts acc
  = (fst acc ++ flat_map (fun i => flat_map (flagged i) (seq 0 rank)) pts,
     snd acc ++ flat_map (fun i => flat_map (looked i) (seq 0 rank)) pts).
Proof.
  revert acc. induction pts as [|i pts IH]; intros acc.
  - simpl. rewrite !app_nil_r. destruct acc; reflexivity.
  - simpl fold_left. rewrite IH, search_point_spec. simpl.
    rewrite <- !app_assoc. reflexivity.
Qed.

Lemma taskList_spec :
  taskList
  = flat_map (fun i => flat_map (flagged i) (seq 0 rank)) (seq 0 npoints).
Proof.
  unfold setupCurrentTaskList, setupCurrentTaskList_run.
  rewrite search_points_spec. reflexivity.
Qed.

Lemma edgeLog_spec :
  edgeLog
  = flat_map (fun i => flat_map (looked i) (seq 0 rank)) (seq 0 npoints).
Proof.
  unfold examinedEdges, setupCurrentTaskList_run.
  rewrite search_points_spec. reflexivity.
Qed.

(** A task number names one edge only. *)
Lemma task_number_inj (i j i' j' : nat) :
  j < rank -> j' < rank -> rank * i + j = rank * i' + j' -> i = i' /\ j = j'.
Proof.
  intros Hj Hj' H.
  assert (Hi : i = i').
  { destruct (Nat.lt_trichotomy i i') as [Hlt|[Heq|Hlt]]; [|exact Heq|].
    - assert (rank * S i <= rank * i') by (apply Nat.mul_le_mono_l; lia).
      lia.
    - assert (rank * S i' <= rank * i) by (apply Nat.mul_le_mono_l; lia).
      lia. }
  subst i'. split; [reflexivity | lia].
Qed.

Lemma in_taskList (t : nat) :
  In t taskList <->
  exists i j, i < npoints /\ j < rank /\ t = rank * i + j /\
              leaves_grid (indexVector i) j = false /\ signChange i j = true.
Proof.
  rewrite taskList_spec, in_flat_map. split.
  - intros (i & Hi & Hin). apply in_flat_map in Hin as (j & Hj & Hin).
    apply in_seq in Hi. apply in_seq in Hj.
    unfold flagged in Hin.
    destruct (leaves_grid (indexVector i) j) eqn:Hl; simpl in Hin; [tauto|].
    destruct (signChange i j) eqn:Hs; simpl in Hin; [|tauto].
    destruct Hin as [<-|[]]. exists i, j. repeat split; auto; lia.
  - intros (i & j & Hi & Hj & -> & Hl & Hs).
    exists i. split; [apply in_seq; lia|].
    apply in_flat_map. exists j. split; [apply in_seq; lia|].
    unfold flagged. rewrite Hl, Hs. left. reflexivity.
Qed.

Lemma in_edgeLog (i j : nat) :
  In (i, j) edgeLog -> leaves_grid (indexVector i) j = false.
Proof.
  rewrite edgeLog_spec, in_flat_map.
  intros (i' & _ & Hin). apply in_flat_map in Hin as (j' & _ & Hin).
  unfold looked in Hin.
  destruct (leaves_grid (indexVector i') j') eqn:Hl; [contradiction|].
  destruct Hin as [[= <- <-]|[]]. exact Hl.
Qed.

(** C3. The edge that leaves grid point [i] along dimension [j] becomes a
    task exactly when it stays in the grid (or wraps around a periodic
    dimension) and the product of the field minus the isovalue at its two
    ends, as the doubles give it, is below zero; an end point equal to the
    isovalue flags nothing, and an edge that leaves the grid along a
    dimension that is not periodic is never read. *)
Theorem contour_edge_is_task_iff_strict_sign_change (i j : nat) :
  i < npoints -> j < rank ->
  let far := getIndex (neighbour (indexVector i) j) in
  (In (rank * i + j) taskList <->
     leaves_grid (indexVector i) j = false /\
     dltb (dmul (dsub (get i) contour) (dsub (get far) contour)) dzero
     = true) /\
  (deqb (get i) contour = true \/ deqb (get far) contour = true ->
     ~ In (rank * i + j) taskList) /\
  (leaves_grid (indexVector i) j = true ->
     ~ In (i, j) edgeLog /\ ~ In (rank * i + j) taskList).
Proof.
  intros Hi Hj far.
  assert (Hiff : In (rank * i + j) taskList <->
     leaves_grid (indexVector i) j = false /\
     dltb (dmul (dsub (get i) contour) (dsub (get far) contour)) dzero
     = true).
  { rewrite in_taskList. split.
    - intros (i' & j' & Hi' & Hj' & Heq & Hl & Hs).
      apply task_number_inj in Heq as [-> ->]; auto.
    - intros [Hl Hs]. exists i, j. repeat split; auto. }
  split; [exact Hiff|]. split.
  - intros Heq Hin. apply Hiff in Hin as [_ Hlt].
    destruct Heq as [Heq|Heq]; apply dsub_equal in Heq.
    + destruct (product_with_zero _ (dsub (get far) contour) Heq) as [H _].
      congruence.
    + destruct (product_with_zero _ (dsub (get i) contour) Heq) as [_ H].
      congruence.
  - intros Hl. split.
    + intros Hin. apply in_edgeLog in Hin. congruence.
    + intros Hin. apply Hiff in Hin as [Hl' _]. congruence.
Qed.

End FindContourFacts.

(** On the periodic grid of three points with the field [0.2, 0.6, 0.3]
    and the isovalue [0.5], the two edges [0 -> 1] and [1 -> 2] are the
    tasks; the edge [2 -> 0] across the boundary is not. *)
Example contour_three_points : FindContour.tasks3 = [0; 1].
Proof. reflexivity. Qed.

Lemma contour_edge_is_task_iff_strict_sign_change_witness :
  In 1 FindContour.tasks3 <->
  dltb (dmul (dsub (decimalOf 6 10) (decimalOf 5 10))
          (dsub (decimalOf 3 10) (decimalOf 5 10))) dzero = true.
Proof.
  pose proof (contour_edge_is_task_iff_strict_sign_change 1 3 (fun _ => 3)
                (fun _ => true) (fun i => [i]) (fun v => v !!! 0)
                FindContour.field3 (decimalOf 5 10) 1 0) as H.
  destruct H as [H _]; [lia | lia |].
  split.
  - intros Hin. apply H in Hin. exact (proj2 Hin).
  - intros Hlt. apply H. split; [reflexivity | exact Hlt].
Defined.

(** The field [2^-600, -2^-600, -2^-600] and the isovalue zero: the field
    minus the isovalue changes sign along the edge [0 -> 1], and the edge is
    no task, since the product of the two doubles is too small for a double
    and is rounded to a zero. No edge of this grid is a task. *)
Lemma tiny_sign_change_is_not_a_task :
  ~ FindContour.flaggedIffSignChange 1 3 (fun _ => 3) (fun _ => true)
      (fun i => [i]) (fun v => v !!! 0) FindContour.tiny_field dzero.
Proof.
  intros H. destruct (H 0 0) as [_ Hin]; [lia | lia | reflexivity |].
  assert (Ht : FindContour.tiny_tasks = []) by (vm_compute; reflexivity).
  unfold FindContour.tiny_tasks in Ht. rewrite Ht in Hin. apply Hin.
  apply Qlt_alt. vm_compute. reflexivity.
Qed.

(** ** Contour finding: the search of one task *)

Section FindContourSearch.
Import FindContour.

Variable rank : nat.
Variable getGridPointCoordinates : nat -> list Q.
Variable getGridSpacing : nat -> Q.
Variable linesearch : list Q -> list Q -> Q.

Local Abbreviation direction := (direction rank getGridSpacing).
Local Abbreviation startPoint := (startPoint rank getGridPointCoordinates).
Local Abbreviation performTask :=
  (performTask rank getGridPointCoordinates getGridSpacing linesearch).





End FindContourSearch.


(** ** Secondary structure: the strands cutoff *)

Section SecondaryStructureFacts.
Import Tools SecondaryStructureRMSD.

Variable pbcDistance : Vector -> Vector -> Vector.
Variable getPosition : nat -> Vector.
Variable getAtomIndex : nat -> nat -> nat.
Variable modulo2 : Vector -> double.
Variable getLabel : string.
Variable align_atom_1 align_atom_2 : nat.
Variable s_cutoff2 : double.

Local Abbreviation buildCurrentTaskList :=
  (buildCurrentTaskList pbcDistance getPosition getAtomIndex modulo2
     getLabel align_atom_1 align_atom_2 s_cutoff2).
Local Abbreviation getCurrentTasks :=
  (getCurrentTasks pbcDistance getPosition getAtomIndex modulo2 getLabel
     align_atom_1 align_atom_2 s_cutoff2).
Local Abbreviation runAllTasks :=
  (runAllTasks pbcDistance getPosition getAtomIndex modulo2 getLabel
     align_atom_1 align_atom_2 s_cutoff2).

(** The test of line 189 for the task [i]. *)
Local Abbreviation near i :=
  (dltb
     (modulo2
        (pbcDistance (getPosition (getAtomIndex i align_atom_1))
                     (getPosition (getAtomIndex i align_atom_2))))
     s_cutoff2).

(** The flag of a task after [buildCurrentTaskList] with the cutoff on. *)
Lemma buildCurrentTaskList_flag (force : bool) (sel : list string)
    (tflags : list nat) (i flag : nat) :
  dltb dzero s_cutoff2 = true -> tflags !! i = Some flag ->
  fst (buildCurrentTaskList force sel tflags) = sel ++ [getLabel] /\
  snd (buildCurrentTaskList force sel tflags) !! i
  = Some (if near i then 1 else flag).
Proof.
  intros Hcut Hflag. unfold SecondaryStructureRMSD.buildCurrentTaskList.
  rewrite Hcut. cbn [fst snd]. split; [reflexivity|].
  rewrite list_lookup_imap, Hflag. reflexivity.
Qed.

Lemma in_getCurrentTasks (ntasks i : nat) :
  dltb dzero s_cutoff2 = true ->
  In i (getCurrentTasks ntasks) <-> i < ntasks /\ near i = true.
Proof.
  intros Hcut. unfold SecondaryStructureRMSD.getCurrentTasks.
  assert (Hsel : fst (buildCurrentTaskList false [] (replicate ntasks 0))
                 = [getLabel]).
  { unfold SecondaryStructureRMSD.buildCurrentTaskList.
    rewrite Hcut. reflexivity. }
  rewrite Hsel, List.filter_In, in_seq. split.
  - intros [Hi Hflag]. split; [lia|].
    assert (Hi' : i < ntasks) by lia.
    rewrite (list_lookup_total_correct _ i _
               (proj2 (buildCurrentTaskList_flag false [] _ i 0 Hcut
                         (lookup_replicate_2 ntasks 0 i Hi')))) in Hflag.
    destruct (near i); [reflexivity | discriminate].
  - intros [Hi Hlt]. split; [lia|].
    rewrite (list_lookup_total_correct _ i _
               (proj2 (buildCurrentTaskList_flag false [] _ i 0 Hcut
                         (lookup_replicate_2 ntasks 0 i Hi)))).
    rewrite Hlt. reflexivity.
Qed.

Lemma existsb_eqb_In (i : nat) (l : list nat) :
  existsb (Nat.eqb i) l = true <-> In i l.
Proof.
  rewrite existsb_exists. split.
  - intros (x & Hx & Heq). apply Nat.eqb_eq in Heq. subst. exact Hx.
  - intros Hin. exists i. split; [exact Hin | apply Nat.eqb_refl].
Qed.

(** C5. With STRANDS_CUTOFF read as [s_cutoff] and the squared cutoff
    [s_cutoff*s_cutoff] above zero, [buildCurrentTaskList] names the action
    among those that select tasks and sets the flag of a task exactly when
    [modulo2] of the [pbcDistance] between the positions of its two marker
    atoms, the atoms [align_atom_1] and [align_atom_2] of the task, is
    strictly below [s_cutoff*s_cutoff] as doubles; the other flags stay as
    they were. Hence, with the flags zero before, a task is on the active
    task list of the step exactly when it passes this test; for a task that
    fails it the RMSD is not computed and its value is zero. *)
Theorem strands_cutoff_selects_tasks (s_cutoff : double) (rmsd : nat -> Q)
    (ntasks i : nat) :
  construct_strands (Some s_cutoff) = (true, s_cutoff2) ->
  dltb dzero s_cutoff2 = true -> i < ntasks ->
  let distance :=
    pbcDistance (getPosition (getAtomIndex i align_atom_1))
                (getPosition (getAtomIndex i align_atom_2)) in
  let passes := dltb (modulo2 distance) (dmul s_cutoff s_cutoff) in
  (forall (force : bool) (sel : list string) (tflags : list nat)
          (flag : nat),
     tflags !! i = Some flag ->
     fst (buildCurrentTaskList force sel tflags) = sel ++ [getLabel] /\
     snd (buildCurrentTaskList force sel tflags) !! i
     = Some (if passes then 1 else flag)) /\
  (In i (getCurrentTasks ntasks) <-> passes = true) /\
  (passes = false ->
     ~ In i (getCurrentTasks ntasks) /\
     ~ In i (fst (runAllTasks rmsd ntasks)) /\
     snd (runAllTasks rmsd ntasks) !! i = Some 0%Q).
Proof.
  intros Hset Hcut Hi distance passes.
  assert (Hsq : s_cutoff2 = dmul s_cutoff s_cutoff)
    by (cbn in Hset; congruence).
  assert (Hpass : passes = near i) by (unfold passes; now rewrite Hsq).
  assert (Hiff : In i (getCurrentTasks ntasks) <-> passes = true).
  { rewrite in_getCurrentTasks by exact Hcut. rewrite Hpass. tauto. }
  split; [|split; [exact Hiff|]].
  - intros force sel tflags flag Hflag. rewrite Hpass.
    apply buildCurrentTaskList_flag; assumption.
  - intros Hfar.
    assert (Hout : ~ In i (getCurrentTasks ntasks))
      by (rewrite Hiff, Hfar; discriminate).
    split; [exact Hout|]. split; [exact Hout|].
    unfold SecondaryStructureRMSD.runAllTasks. simpl.
    rewrite list_lookup_fmap, lookup_seq_lt by exact Hi. simpl.
    destruct (existsb (Nat.eqb i) (getCurrentTasks ntasks)) eqn:Hex;
      [|reflexivity].
    apply existsb_eqb_In in Hex. contradiction.
Qed.

(** Running [buildCurrentTaskList] again on its own flags changes none of
    them. *)
Lemma buildCurrentTaskList_twice (force : bool) (sel sel' : list string)
    (tflags : list nat) :
  snd (buildCurrentTaskList force sel'
         (snd (buildCurrentTaskList force sel tflags)))
  = snd (buildCurrentTaskList force sel tflags).
Proof.
  unfold SecondaryStructureRMSD.buildCurrentTaskList.
  destruct (dltb dzero s_cutoff2); simpl; [|reflexivity].
  apply list_eq. intros i.
  rewrite !list_lookup_imap.
  destruct (tflags !! i) as [flag|]; simpl; [|reflexivity].
  destruct (dltb _ s_cutoff2); reflexivity.
Qed.

End SecondaryStructureFacts.

(** The three strand pairs on a line, at the distances 1, 2 and 3, with
    the cutoff 2: the first pair passes the test, the second, at the cutoff
    itself, does not. *)
Lemma strands_cutoff_selects_tasks_witness :
  (In 0 (SecondaryStructureRMSD.getCurrentTasks Tools.vminus
           SecondaryStructureRMSD.line_position
           SecondaryStructureRMSD.line_atom
           SecondaryStructureRMSD.line_modulo2 "hh" 0 1 (ofZ 4) 3)
   <-> dltb (ofZ 1) (dmul (ofZ 2) (ofZ 2)) = true) /\
  ~ In 1 (SecondaryStructureRMSD.getCurrentTasks Tools.vminus
            SecondaryStructureRMSD.line_position
            SecondaryStructureRMSD.line_atom
            SecondaryStructureRMSD.line_modulo2 "hh" 0 1 (ofZ 4) 3).
Proof.
  split.
  - apply (strands_cutoff_selects_tasks Tools.vminus
             SecondaryStructureRMSD.line_position
             SecondaryStructureRMSD.line_atom
             SecondaryStructureRMSD.line_modulo2 "hh" 0 1 (ofZ 4)
             (ofZ 2) (fun _ => 1%Q) 3 0); [reflexivity | reflexivity | lia].
  - apply (strands_cutoff_selects_tasks Tools.vminus
             SecondaryStructureRMSD.line_position
             SecondaryStructureRMSD.line_atom
             SecondaryStructureRMSD.line_modulo2 "hh" 0 1 (ofZ 4)
             (ofZ 2) (fun _ => 1%Q) 3 1);
      [reflexivity | reflexivity | lia | reflexivity].
Defined.

(** ** Building the task list twice *)

Section TaskListIdempotence.
Import FindContour.

Lemma add_tasks_union (calls : list nat) (current : gset nat) :
  fold_left (fun cur t => addTaskToCurrentList t cur) calls current
  = list_to_set calls ∪ current.
Proof.
  revert current. induction calls as [|t calls IH]; intros current; simpl.
  - set_solver.
  - rewrite IH. unfold addTaskToCurrentList. set_solver.
Qed.

(** C9. With the grid values unchanged, a second run of
    [FindContour::setupCurrentTaskList] makes the calls of the first run
    again and leaves the set of current tasks as the first run left it.
    With the atoms unchanged, a second run of
    [SecondaryStructureRMSD::buildCurrentTaskList] leaves every task flag as
    the first run left it. *)
Theorem task_list_construction_is_idempotent
    (rank npoints : nat) (nbin : nat -> nat) (isPeriodic : nat -> bool)
    (getIndices : nat -> list nat) (getIndex : list nat -> nat)
    (get : nat -> double) (contour : double)
    (pbcDistance : Tools.Vector -> Tools.Vector -> Tools.Vector)
    (getPosition : nat -> Tools.Vector) (getAtomIndex : nat -> nat -> nat)
    (modulo2 : Tools.Vector -> double)
    (getLabel : string) (align_atom_1 align_atom_2 : nat)
    (s_cutoff2 : double) :
  let setup :=
    setupCurrentTaskList_on rank npoints nbin isPeriodic getIndices getIndex
      get contour in
  let build :=
    SecondaryStructureRMSD.buildCurrentTaskList pbcDistance getPosition
      getAtomIndex modulo2 getLabel align_atom_1 align_atom_2 s_cutoff2 in
  (forall current : gset nat, setup (setup current) = setup current) /\
  (forall (force : bool) (sel sel' : list string) (tflags : list nat),
     snd (build force sel' (snd (build force sel tflags)))
     = snd (build force sel tflags)).
Proof.
  intros setup build. split.
  - intros current. unfold setup, setupCurrentTaskList_on.
    rewrite !add_tasks_union. set_solver.
  - intros force sel sel' tflags. apply buildCurrentTaskList_twice.
Qed.

End TaskListIdempotence.

(** ** The box derivative of a pairwise contribution *)

Section BoxDerivativeFacts.
Import Tools MultiValue.

Lemma getDerivative_addDerivative (w j : nat) (d : Q) (m : MultiValue)
    (s idx : nat) :
  getDerivative (addDerivative w j d m) s idx
  = if (s =? w) && (idx =? j)
    then (getDerivative m s idx + d)%Q else getDerivative m s idx.
Proof. reflexivity. Qed.

Lemma fold_left_filter {A B : Type} (p : B -> bool) (g : A -> B -> A)
    (l : list B) (a : A) :
  fold_left (fun acc x => if p x then g acc x else acc) l a
  = fold_left g (List.filter p l) a.
Proof.
  revert a. induction l as [|x l IH]; intros a; simpl; [reflexivity|].
  destruct (p x); simpl; apply IH.
Qed.

Lemma eqb_add_l (n a b : nat) : (n + a =? n + b) = (a =? b).
Proof.
  destruct (Nat.eqb_spec a b) as [->|Hne].
  - apply Nat.eqb_refl.
  - apply Nat.eqb_neq. lia.
Qed.

(** What [AdjacencyMatrixBase::addBoxDerivatives] does to one entry of the
    derivative store. *)
Lemma adjmat_addBoxDerivatives_get (natoms w : nat) (vir : Tensor)
    (m : MultiValue) (s idx : nat) :
  getDerivative (AdjacencyMatrixBase.addBoxDerivatives natoms false w vir m)
    s idx
  = if (s =? w) && (3 * natoms <=? idx) && (idx <=? 3 * natoms + 8)
    then (getDerivative m s idx
          + tget vir ((idx - 3 * natoms) / 3) ((idx - 3 * natoms) mod 3))%Q
    else getDerivative m s idx.
Proof.
  unfold AdjacencyMatrixBase.addBoxDerivatives.
  cbv zeta. generalize (3 * natoms). intros nb.
  rewrite !getDerivative_addDerivative.
  destruct (Nat.eqb_spec s w) as [->|Hs]; cbn [andb]; [|reflexivity].
  destruct (Nat.leb_spec nb idx) as [Hlo|Hlo]; cbn [andb].
  - destruct (Nat.leb_spec idx (nb + 8)) as [Hhi|Hhi].
    + assert (Hk : exists k, k <= 8 /\ idx = nb + k)
        by (exists (idx - nb); lia).
      destruct Hk as (k & Hk & ->).
      replace (nb + k - nb) with k by lia.
      rewrite !eqb_add_l.
      do 9 (destruct k as [|k]; [reflexivity|]).
      lia.
    + repeat match goal with
        | |- context [?a =? ?b] =>
            destruct (Nat.eqb_spec a b); [lia |]
        end; reflexivity.
  - repeat match goal with
      | |- context [?a =? ?b] =>
          destruct (Nat.eqb_spec a b); [lia |]
      end; reflexivity.
Qed.

(** The loop of [setBoxDerivativesNoPbc] takes one outer product away for
    each counted position of the atom list of the task. *)
Lemma virialNoPbc_pairVirial (ablocks : list (list nat)) (ival : nat)
    (fpositions : list Vector) (myvals : MultiValue) :
  MultiColvarBase.virialNoPbc ablocks ival fpositions myvals
  = AdjacencyMatrixBase.pairVirial
      (List.map
         (fun i => (nth i fpositions (mkVector 0 0 0),
                    MultiColvarBase.atomDerivative ablocks ival myvals i))
         (MultiColvarBase.countedPositions ablocks (getTaskIndex myvals))).
Proof.
  unfold MultiColvarBase.virialNoPbc, AdjacencyMatrixBase.pairVirial,
    MultiColvarBase.countedPositions.
  rewrite (fold_left_filter (MultiColvarBase.newi ablocks (getTaskIndex myvals))
             (fun virial i =>
                tminus virial
                  (outer (nth i fpositions (mkVector 0 0 0))
                         (MultiColvarBase.atomDerivative ablocks ival myvals
                            i)))).
  generalize (List.filter (MultiColvarBase.newi ablocks (getTaskIndex myvals))
                (seq 0 (length ablocks))) tzero.
  intros l. induction l as [|i l IH]; intros acc; simpl;
    [reflexivity | apply IH].
Qed.

(** Entry [(a,b)] of a tensor from which outer products are taken away,
    one after the other. *)
Lemma tget_minus_outer (acc : Tensor) (p d : Vector) (a b : nat) :
  tget (tminus acc (outer p d)) a b
  = (tget acc a b - vget p a * vget d b)%Q.
Proof. destruct a as [|[|a]], b as [|[|b]]; reflexivity. Qed.

Lemma tget_virialNoPbc (ablocks : list (list nat)) (ival : nat)
    (fpositions : list Vector) (m : MultiValue) (l : list nat)
    (acc : Tensor) (a b : nat) :
  b < 3 ->
  tget (fold_left
          (fun virial i =>
             tminus virial
               (outer (nth i fpositions (mkVector 0 0 0))
                  (MultiColvarBase.atomDerivative ablocks ival m i)))
          l acc) a b
  = fold_left
      (fun v i =>
         (v - vget (nth i fpositions (mkVector 0 0 0)) a
              * getDerivative m ival
                  (3 * nth (getTaskIndex m) (nth i ablocks []) 0%nat + b))%Q)
      l (tget acc a b).
Proof.
  intros Hb. revert acc. induction l as [|i l IH]; intros acc;
    [reflexivity|].
  cbn [fold_left]. rewrite IH, tget_minus_outer. f_equal. f_equal. f_equal.
  unfold MultiColvarBase.atomDerivative, MultiColvarBase.atomOf.
  destruct b as [|[|[|b]]]; [reflexivity..|lia].
Qed.

(** C4. When derivatives are calculated, [addBoxDerivatives] adds the
    tensor it is given, entry by entry, to the nine derivatives of the
    weight with the flat indices [3*Natoms .. 3*Natoms+8], entry [(i,j)] to
    the index [3*Natoms+3i+j]; no other derivative and no active list
    changes. The tensor that [setBoxDerivativesNoPbc] forms and hands over
    is minus the sum of the outer products of the position with the
    derivative of the component with respect to the atom, the derivatives
    stored at [3*atom .. 3*atom+2]: the products are taken away from zero
    one after the other, in the order of the loop, for the positions of the
    atom list of the task whose atom is at no earlier position. This tensor
    is the one handed to [addBoxDerivatives]. *)
Theorem box_derivative_fills_nine_slots (natoms w : nat) (vir : Tensor)
    (m : MultiValue) :
  let m' := AdjacencyMatrixBase.addBoxDerivatives natoms false w vir m in
  (forall i j, i < 3 -> j < 3 ->
     getDerivative m' w (3 * natoms + (3 * i + j))
     = (getDerivative m w (3 * natoms + (3 * i + j)) + tget vir i j)%Q) /\
  (forall s idx,
     ~ (s = w /\ 3 * natoms <= idx <= 3 * natoms + 8) ->
     getDerivative m' s idx = getDerivative m s idx) /\
  (forall s, active_list m' s = active_list m s) /\
  (forall (ablocks : list (list nat)) (streams : list nat) (ival : nat)
          (fpositions : list Vector),
     let atom := fun i => nth (getTaskIndex m) (nth i ablocks []) 0 in
     let counted :=
       List.filter
         (fun i => forallb (fun j => negb (atom j =? atom i)) (seq 0 i))
         (seq 0 (length ablocks)) in
     let virial :=
       MultiColvarBase.virialNoPbc ablocks ival fpositions m in
     (forall a b, a < 3 -> b < 3 ->
        tget virial a b
        = fold_left
            (fun v i =>
               (v - vget (nth i fpositions (mkVector 0 0 0)) a
                    * getDerivative m ival (3 * atom i + b))%Q)
            counted 0%Q) /\
     MultiColvarBase.setBoxDerivativesNoPbc ablocks natoms false streams
       ival fpositions m
     = MultiColvarBase.addBoxDerivatives natoms false streams ival virial
         m).
Proof.
  intros m'. split; [|split; [|split]].
  - intros i j Hi Hj. unfold m'.
    rewrite adjmat_addBoxDerivatives_get, Nat.eqb_refl.
    replace (3 * natoms <=? 3 * natoms + (3 * i + j)) with true
      by (symmetry; apply Nat.leb_le; lia).
    replace (3 * natoms + (3 * i + j) <=? 3 * natoms + 8) with true
      by (symmetry; apply Nat.leb_le; lia).
    cbn [andb].
    replace (3 * natoms + (3 * i + j) - 3 * natoms) with (3 * i + j) by lia.
    assert (Hd : (3 * i + j) / 3 = i).
    { symmetry. apply (Nat.div_unique _ _ _ j); [exact Hj | reflexivity]. }
    assert (Hm : (3 * i + j) mod 3 = j).
    { symmetry. apply (Nat.mod_unique _ _ i); [exact Hj | reflexivity]. }
    rewrite Hd, Hm. reflexivity.
  - intros s idx Hout. unfold m'.
    rewrite adjmat_addBoxDerivatives_get.
    destruct (Nat.eqb_spec s w) as [->|Hs]; cbn [andb]; [|reflexivity].
    destruct (Nat.leb_spec (3 * natoms) idx); cbn [andb]; [|reflexivity].
    destruct (Nat.leb_spec idx (3 * natoms + 8)); [|reflexivity].
    exfalso. apply Hout. split; [reflexivity | lia].
  - intros s. reflexivity.
  - intros ablocks streams ival fpositions atom counted virial.
    assert (Hentry : forall a b, b < 3 ->
              tget virial a b
              = fold_left
                  (fun v i =>
                     (v - vget (nth i fpositions (mkVector 0 0 0)) a
                          * getDerivative m ival (3 * atom i + b))%Q)
                  counted 0%Q).
    { intros a b Hb. unfold virial, MultiColvarBase.virialNoPbc.
      rewrite (fold_left_filter
                 (MultiColvarBase.newi ablocks (getTaskIndex m))
                 (fun virial i =>
                    tminus virial
                      (outer (nth i fpositions (mkVector 0 0 0))
                         (MultiColvarBase.atomDerivative ablocks ival m i)))).
      rewrite tget_virialNoPbc by exact Hb.
      replace (tget tzero a b) with 0%Q
        by (destruct a as [|[|a]], b as [|[|b]]; reflexivity).
      f_equal. unfold counted. apply List.filter_ext. intros i.
      unfold MultiColvarBase.newi, MultiColvarBase.atomOf.
      induction (seq 0 i) as [|j l IH]; [reflexivity|].
      cbn [existsb forallb]. rewrite negb_orb. f_equal. exact IH. }
    split; [|reflexivity].
    intros a b Ha Hb. apply Hentry. exact Hb.
Qed.

End BoxDerivativeFacts.

(** ** Multi-colvars: an atom that occurs twice in a task *)

Section MultiColvarFacts.
Import Tools MultiValue MultiColvarBase.

Variable ablocks : list (list nat).
Variable getNumberOfAtoms : nat.
Variable getNumberOfDerivatives : nat.
Variable streams : list nat.

Local Abbreviation atomOf := (atomOf ablocks).
Local Abbreviation atomsOf := (atomsOf ablocks).
Local Abbreviation newi := (newi ablocks).
Local Abbreviation countedPositions := (countedPositions ablocks).

(** Among the first [n] positions of the atom list of a task, the counted
    ones that hold the atom [a]: one if [a] occurs there, none if not. *)
Lemma counted_once_upto (task a n : nat) :
  length (List.filter (fun i => atomOf task i =? a)
            (List.filter (newi task) (seq 0 n)))
  = if existsb (fun j => atomOf task j =? a) (seq 0 n) then 1 else 0.
Proof.
  induction n as [|n IH]; [reflexivity|].
  rewrite seq_S, !List.filter_app, List.length_app, existsb_app, IH.
  simpl. rewrite orb_false_r. unfold MultiColvarBase.newi.
  destruct (Nat.eqb_spec (atomOf task n) a) as [Ha|Ha].
  - rewrite Ha.
    destruct (existsb (fun j => atomOf task j =? a) (seq 0 n)); simpl.
    + reflexivity.
    + rewrite Ha, Nat.eqb_refl. reflexivity.
  - rewrite orb_false_r.
    destruct (negb _); simpl;
      [destruct (Nat.eqb_spec (atomOf task n) a); [contradiction|]|];
      simpl; lia.
Qed.

Lemma counted_once (task a : nat) :
  In a (atomsOf task) ->
  length (List.filter (fun i => atomOf task i =? a) (countedPositions task))
  = 1.
Proof.
  intros Hin. unfold MultiColvarBase.countedPositions.
  rewrite counted_once_upto.
  replace (existsb _ _) with true; [reflexivity|].
  symmetry. apply existsb_exists.
  unfold MultiColvarBase.atomsOf in Hin. apply in_map_iff in Hin.
  destruct Hin as (i & Hi & Hin). exists i.
  split; [exact Hin | apply Nat.eqb_eq; exact Hi].
Qed.

(** *** The active lists after [updateActiveDerivatives] *)

Lemma active_updateIndex (s' x : nat) (m : MultiValue) (s : nat) :
  active_list (updateIndex s' x m) s
  = active_list m s ++ (if s =? s' then [x] else []).
Proof.
  simpl. destruct (s =? s'); [reflexivity | rewrite app_nil_r; reflexivity].
Qed.

Lemma active_triples (base : nat) (strs : list nat) (m : MultiValue)
    (s : nat) :
  active_list
    (fold_left
       (fun m' s' =>
          updateIndex s' (base + 2)
            (updateIndex s' (base + 1) (updateIndex s' base m')))
       strs m) s
  = active_list m s
    ++ flat_map (fun s' => if s =? s' then [base; base + 1; base + 2] else [])
         strs.
Proof.
  revert m. induction strs as [|s' strs IH]; intros m; simpl fold_left.
  - simpl. rewrite app_nil_r. reflexivity.
  - rewrite IH, !active_updateIndex. simpl flat_map.
    destruct (s =? s'); simpl; rewrite <- ?app_assoc; simpl;
      rewrite ?app_nil_r; reflexivity.
Qed.

Lemma active_atoms (task : nat) (pos : list nat) (m : MultiValue) (s : nat) :
  active_list
    (fold_left
       (fun m' i =>
          let base := 3 * atomOf task i in
          fold_left
            (fun m'' s' =>
               updateIndex s' (base + 2)
                 (updateIndex s' (base + 1) (updateIndex s' base m'')))
            streams m')
       pos m) s
  = active_list m s
    ++ flat_map
         (fun i =>
            flat_map
              (fun s' => if s =? s'
                         then [3 * atomOf task i; 3 * atomOf task i + 1;
                               3 * atomOf task i + 2]
                         else [])
              streams)
         pos.
Proof.
  revert m. induction pos as [|i pos IH]; intros m; simpl fold_left.
  - simpl. rewrite app_nil_r. reflexivity.
  - rewrite IH. cbv zeta. rewrite active_triples. simpl flat_map.
    rewrite <- app_assoc. reflexivity.
Qed.

Lemma active_range (s' nvir : nat) (l : list nat) (m : MultiValue) (s : nat) :
  active_list (fold_left (fun m' i => updateIndex s' (nvir + i) m') l m) s
  = active_list m s
    ++ (if s =? s' then List.map (fun i => nvir + i) l else []).
Proof.
  revert m. induction l as [|i l IH]; intros m; simpl fold_left.
  - destruct (s =? s'); simpl; rewrite app_nil_r; reflexivity.
  - rewrite IH, active_updateIndex.
    destruct (s =? s'); simpl; rewrite <- ?app_assoc; simpl;
      rewrite ?app_nil_r; reflexivity.
Qed.

Lemma active_virial (nvir : nat) (l strs : list nat) (m : MultiValue)
    (s : nat) :
  active_list
    (fold_left
       (fun m' s' =>
          fold_left (fun m'' i => updateIndex s' (nvir + i) m'') l m')
       strs m) s
  = active_list m s
    ++ flat_map
         (fun s' => if s =? s' then List.map (fun i => nvir + i) l else [])
         strs.
Proof.
  revert m. induction strs as [|s' strs IH]; intros m; simpl fold_left.
  - simpl. rewrite app_nil_r. reflexivity.
  - rewrite IH, active_range. simpl flat_map.
    rewrite <- app_assoc. reflexivity.
Qed.

(** *** Counting *)

Lemma count_occ_flat_map_once (X : list nat) (strs : list nat) (s y : nat) :
  List.NoDup strs -> In s strs ->
  count_occ Nat.eq_dec
    (flat_map (fun s' => if s =? s' then X else []) strs) y
  = count_occ Nat.eq_dec X y.
Proof.
  intros Hnd. induction Hnd as [|s' strs Hnot Hnd IH]; intros Hin.
  - destruct Hin.
  - simpl flat_map. rewrite count_occ_app.
    destruct (Nat.eqb_spec s s') as [<-|Hne].
    + assert (Hrest :
        flat_map (fun s' => if s =? s' then X else []) strs = []).
      { clear IH Hnd Hin. induction strs as [|t strs IHs]; [reflexivity|].
        simpl. destruct (Nat.eqb_spec s t) as [->|_].
        - exfalso. apply Hnot. left. reflexivity.
        - apply IHs. intros H. apply Hnot. right. exact H. }
      rewrite Hrest. simpl. lia.
    + destruct Hin as [Heq|Hin]; [congruence|].
      rewrite IH by exact Hin. reflexivity.
Qed.

Lemma count_occ_flat_map_filter {A : Type} (F : A -> list nat)
    (p : A -> bool) (l : list A) (y : nat) :
  (forall i, count_occ Nat.eq_dec (F i) y = if p i then 1 else 0) ->
  count_occ Nat.eq_dec (flat_map F l) y = length (List.filter p l).
Proof.
  intros HF. induction l as [|i l IH]; [reflexivity|].
  simpl. rewrite count_occ_app, HF, IH.
  destruct (p i); reflexivity.
Qed.

Lemma count_occ_triple (b a k : nat) :
  k < 3 ->
  count_occ Nat.eq_dec [3 * b; 3 * b + 1; 3 * b + 2] (3 * a + k)
  = if b =? a then 1 else 0.
Proof.
  intros Hk. cbn [count_occ].
  destruct (Nat.eqb_spec b a) as [->|Hne];
    repeat match goal with
      | |- context [Nat.eq_dec ?x ?y] => destruct (Nat.eq_dec x y)
      end; lia.
Qed.

(** C10. When derivatives are calculated, the three derivative indices of
    an atom of a task are put on the active list of each component once,
    whatever the number of positions of the atom list of the task that hold
    the atom; and the virial that [setBoxDerivativesNoPbc] hands to
    [addBoxDerivatives] is minus the sum of one outer product for each
    counted position, of which exactly one holds the atom. *)
Theorem duplicated_atom_is_counted_once
    (compute : MultiValue -> MultiValue) (task a k s : nat)
    (m : MultiValue) :
  In a (atomsOf task) ->
  (forall b, In b (atomsOf task) -> b < getNumberOfAtoms) ->
  getNumberOfDerivatives <> getNumberOfAtoms ->
  List.NoDup streams -> In s streams -> k < 3 ->
  count_occ Nat.eq_dec
    (active_list
       (performTask ablocks getNumberOfAtoms getNumberOfDerivatives false
          streams compute task m) s) (3 * a + k)
  = count_occ Nat.eq_dec (active_list (compute m) s) (3 * a + k) + 1 /\
  length (List.filter (fun i => atomOf task i =? a) (countedPositions task))
  = 1 /\
  forall (ival : nat) (fpositions : list Vector) (myvals : MultiValue),
    getTaskIndex myvals = task ->
    let vir :=
      AdjacencyMatrixBase.pairVirial
        (List.map
           (fun i => (nth i fpositions (mkVector 0 0 0),
                      atomDerivative ablocks ival myvals i))
           (countedPositions task)) in
    virialNoPbc ablocks ival fpositions myvals = vir /\
    setBoxDerivativesNoPbc ablocks getNumberOfAtoms false streams ival
      fpositions myvals
    = addBoxDerivatives getNumberOfAtoms false streams ival vir myvals.
Proof.
  intros Hin Hbound Hder Hnd Hs Hk.
  split; [|split].
  - unfold MultiColvarBase.performTask, updateActiveDerivatives.
    apply Nat.eqb_neq in Hder. rewrite Hder. cbn [orb]. cbv zeta.
    rewrite active_virial.
    rewrite (fold_left_filter (newi task)
               (fun m' i =>
                  let base := 3 * atomOf task i in
                  fold_left
                    (fun m'' s' =>
                       updateIndex s' (base + 2)
                         (updateIndex s' (base + 1)
                            (updateIndex s' base m'')))
                    streams m')).
    rewrite active_atoms, !count_occ_app.
    rewrite (count_occ_flat_map_filter _
               (fun i => atomOf task i =? a)).
    + fold (countedPositions task). rewrite counted_once by exact Hin.
      rewrite count_occ_flat_map_once by assumption.
      assert (Hz : count_occ Nat.eq_dec
                     (List.map (fun i => 3 * getNumberOfAtoms + i) (seq 0 9))
                     (3 * a + k) = 0).
      { apply count_occ_not_In. intros Hv.
        apply in_map_iff in Hv as (r & Hr & _).
        specialize (Hbound a Hin). lia. }
      rewrite Hz. lia.
    + intros i. rewrite count_occ_flat_map_once by assumption.
      apply count_occ_triple. exact Hk.
  - apply counted_once. exact Hin.
  - intros ival fpositions myvals Htask vir.
    assert (Hvir : virialNoPbc ablocks ival fpositions myvals = vir).
    { unfold vir. rewrite virialNoPbc_pairVirial, Htask. reflexivity. }
    split; [exact Hvir|].
    unfold setBoxDerivativesNoPbc. cbn [negb]. rewrite Hvir. reflexivity.
Qed.

End MultiColvarFacts.

Lemma duplicated_atom_is_counted_once_witness :
  count_occ Nat.eq_dec
    (MultiValue.active_list
       (MultiColvarBase.performTask MultiColvarBase.torsion_blocks 3 18 false
          [0] (fun m => m) 0 (MultiValue.cleared 0)) 0) (3 * 1 + 2)
  = 1.
Proof.
  apply (duplicated_atom_is_counted_once MultiColvarBase.torsion_blocks 3 18
           [0] (fun m => m) 0 1 2 0 (MultiValue.cleared 0)).
  - right. left. reflexivity.
  - intros b Hb. vm_compute in Hb.
    destruct Hb as [<-|[<-|[<-|[<-|[]]]]]; lia.
  - lia.
  - constructor; [intros [] | constructor].
  - left. reflexivity.
  - lia.
Defined.

(** ** Requesting arguments *)

Section ArgumentsFacts.
Import ActionWithArguments.

Variable plumed : Plumed.

Local Abbreviation getLabel := (getLabel plumed).
Local Abbreviation getPntrToAction := (getPntrToAction plumed).
Local Abbreviation getRank := (getRank plumed).
Local Abbreviation isConstant := (isConstant plumed).
Local Abbreviation ntasks := (ntasks plumed).
Local Abbreviation outputs := (outputs plumed).
Local Abbreviation isActionSetup := (isActionSetup plumed).
Local Abbreviation getActionThatCalculates := (getActionThatCalculates plumed).
Local Abbreviation checkForDependency := (checkForDependency plumed).
Local Abbreviation checkStoring := (checkStoring plumed).
Local Abbreviation requestArgument := (requestArgument plumed).
Local Abbreviation requestArguments := (requestArguments plumed).
Local Abbreviation storeRanked := (storeRanked plumed).
Local Abbreviation decideStream := (decideStream plumed).
Local Abbreviation streamActions := (streamActions plumed).
Local Abbreviation storedForThis := (storedForThis plumed).
Local Abbreviation mustStore := (mustStore plumed).

(** *** Data stores only grow *)

Lemma storesGrow_refl (sd : Stores) : storesGrow sd sd.
Proof. intros v lab H. exact H. Qed.

Lemma storesGrow_trans (sd1 sd2 sd3 : Stores) :
  storesGrow sd1 sd2 -> storesGrow sd2 sd3 -> storesGrow sd1 sd3.
Proof. intros H12 H23 v lab H. apply H23, H12, H. Qed.

Lemma existsb_eqb_string (x : string) (l : list string) :
  existsb (String.eqb x) l = true <-> In x l.
Proof.
  rewrite existsb_exists. split.
  - intros (y & Hy & Heq). apply String.eqb_eq in Heq. subst. exact Hy.
  - intros Hin. exists x. split; [exact Hin | apply String.eqb_refl].
Qed.

Lemma store_data_for_insert (sd : Stores) (v w : nat) (l : list string) :
  store_data_for (<[v:=l]> sd) w = if decide (v = w) then l
                                   else store_data_for sd w.
Proof.
  unfold store_data_for. destruct (decide (v = w)) as [->|Hne].
  - rewrite lookup_insert_eq. reflexivity.
  - rewrite lookup_insert_ne by exact Hne. reflexivity.
Qed.

Lemma buildDataStore_grows (lab : string) (v : nat) (sd : Stores) :
  storesGrow sd (buildDataStore lab v sd).
Proof.
  intros w l Hl. unfold buildDataStore.
  destruct (existsb _ _); [exact Hl|].
  rewrite store_data_for_insert. destruct (decide (v = w)) as [->|_].
  - apply in_or_app. left. exact Hl.
  - exact Hl.
Qed.

Lemma buildDataStore_stores (lab : string) (v : nat) (sd : Stores) :
  In lab (store_data_for (buildDataStore lab v sd) v).
Proof.
  unfold buildDataStore.
  destruct (existsb _ _) eqn:Hex.
  - apply existsb_eqb_string. exact Hex.
  - rewrite store_data_for_insert.
    destruct (decide (v = v)); [|congruence].
    apply in_or_app. right. left. reflexivity.
Qed.

Lemma storeRanked_grows (args : list nat) (sd : Stores) :
  storesGrow sd (storeRanked args sd).
Proof.
  unfold ActionWithArguments.storeRanked.
  revert sd. induction args as [|v args IH]; intros sd; simpl.
  - apply storesGrow_refl.
  - eapply storesGrow_trans; [|apply IH].
    destruct (0 <? getRank v);
      [apply buildDataStore_grows | apply storesGrow_refl].
Qed.

Lemma storeRanked_stores (args : list nat) (sd : Stores) (v : nat) :
  In v args -> 0 < getRank v -> storedForThis (storeRanked args sd) v.
Proof.
  unfold ActionWithArguments.storeRanked, ActionWithArguments.storedForThis.
  revert sd. induction args as [|w args IH]; intros sd Hin Hrank;
    [destruct Hin|].
  simpl. destruct Hin as [->|Hin].
  - apply Nat.ltb_lt in Hrank. rewrite Hrank.
    apply (storeRanked_grows args). apply buildDataStore_stores.
  - apply IH; assumption.
Qed.

(** *** The first loop *)

Lemma checkStoring_flags (allow : bool) (args : list nat) (ac : bool)
    (sd sd' : Stores) :
  fst (checkStoring allow args ac sd) = fst (checkStoring allow args ac sd').
Proof.
  revert ac sd sd'. induction args as [|v args IH]; intros ac sd sd'; simpl;
    [reflexivity|].
  destruct (negb allow); [reflexivity|].
  destruct (ActionWithArguments.alwaysstore plumed v).
  - destruct (isConstant v || _); [apply IH | reflexivity].
  - apply IH.
Qed.

Lemma checkStoring_grows (allow : bool) (args : list nat) (ac : bool)
    (sd : Stores) :
  storesGrow sd (snd (checkStoring allow args ac sd)).
Proof.
  revert ac sd. induction args as [|v args IH]; intros ac sd; simpl;
    [apply storesGrow_refl|].
  destruct (negb allow); [apply storesGrow_refl|].
  destruct (ActionWithArguments.alwaysstore plumed v).
  - destruct (isConstant v || _); [|apply storesGrow_refl].
    eapply storesGrow_trans; [apply buildDataStore_grows | apply IH].
  - eapply storesGrow_trans; [|apply IH].
    destruct (isConstant v);
      [apply buildDataStore_grows | apply storesGrow_refl].
Qed.

(** When the first loop runs to its end, every constant argument it met
    has its data store. *)
Lemma checkStoring_constants (allow : bool) (args : list nat) (ac : bool)
    (sd : Stores) (v : nat) :
  fst (fst (checkStoring allow args ac sd)) = false ->
  In v args -> isConstant v = true ->
  storedForThis (snd (checkStoring allow args ac sd)) v.
Proof.
  unfold ActionWithArguments.storedForThis.
  revert ac sd. induction args as [|w args IH]; intros ac sd Hrun Hin Hc;
    [destruct Hin|].
  simpl in *. destruct (negb allow); [discriminate|].
  destruct Hin as [->|Hin].
  - rewrite Hc in *. simpl in *.
    destruct (ActionWithArguments.alwaysstore plumed v);
      apply checkStoring_grows, buildDataStore_stores.
  - destruct (ActionWithArguments.alwaysstore plumed w).
    + destruct (isConstant w || _); [|discriminate].
      apply IH; assumption.
    + apply IH; assumption.
Qed.

(** *** The loop over the arguments *)

Lemma foldM_app {A B : Type} (f : A -> B -> Outcome A) (l1 l2 : list B)
    (a : A) :
  foldM f (l1 ++ l2) a = bindO (foldM f l1 a) (foldM f l2).
Proof.
  revert a. induction l1 as [|x l1 IH]; intros a; simpl; [reflexivity|].
  destruct (f a x); simpl; [apply IH | reflexivity | reflexivity].
Qed.

Lemma bindO_Done {A B : Type} (c : Outcome A) (f : A -> Outcome B) (b : B) :
  bindO c f = Done b -> exists a, c = Done a /\ f a = Done b.
Proof.
  destruct c as [a| |]; simpl; intros H; [|discriminate|discriminate].
  exists a. split; [reflexivity | exact H].
Qed.

Lemma massert_Done (c : bool) (msg : string) (u : unit) :
  massert c msg = Done u -> c = true.
Proof. destruct c; [reflexivity | discriminate]. Qed.

Lemma noteAverages_Done (v : nat) (r r1 : Request) :
  noteAverages plumed v r = Done r1 ->
  storesGrow (rq_stores r) (rq_stores r1) /\ f_actions r1 = f_actions r.
Proof.
  unfold noteAverages. intros H.
  destruct (cast _ _).
  - apply bindO_Done in H as (u & _ & H). injection H as <-. simpl.
    split; [apply buildDataStore_grows | reflexivity].
  - destruct (cast _ _).
    + injection H as <-. split; [apply storesGrow_refl | reflexivity].
    + destruct (getPntrToAction v) as [aa|].
      * destruct (isActionWithArguments plumed aa); injection H as <-;
          (split; [apply storesGrow_refl | reflexivity]).
      * injection H as <-. split; [apply storesGrow_refl | reflexivity].
Qed.

Lemma noteStream_Done (v : nat) (r r' : Request) :
  noteStream plumed v r = Done r' ->
  0 < getRank v ->
  rq_stores r' = rq_stores r /\
  f_actions r' = noteStreamAction plumed (f_actions r) v.
Proof.
  unfold noteStream, noteStreamAction. intros H Hrank.
  apply Nat.ltb_lt in Hrank. rewrite Hrank.
  destruct (getPntrToAction v) as [owner|]; [|discriminate].
  cbv zeta in *. cbn [andb].
  destruct (negb (isActionSetup _) && negb (isConstant v) && negb _);
    cbn [andb].
  - destruct (existsb _ _); injection H as <-; split; reflexivity.
  - injection H as <-. split; reflexivity.
Qed.

Lemma rq_build_grows (v : nat) (r : Request) :
  storesGrow (rq_stores r) (rq_stores (rq_build plumed v r)).
Proof. apply buildDataStore_grows. Qed.

(** What one turn of the loop does to the data stores and to the vector
    [f_actions]. *)
Lemma requestArgument_Done (args : list nat) (storing : bool)
    (argstart i v : nat) (r r' : Request) :
  requestArgument args storing argstart r (i, v) = Done r' ->
  storesGrow (rq_stores r) (rq_stores r') /\
  f_actions r'
  = (if i <? argstart then f_actions r
     else if 0 <? getRank v then noteStreamAction plumed (f_actions r) v
          else f_actions r) /\
  (storing = true -> argstart <= i -> storedForThis (rq_stores r') v).
Proof.
  unfold ActionWithArguments.requestArgument. cbn [fst snd]. intros H.
  apply bindO_Done in H as (r1 & Hr1 & H).
  apply noteAverages_Done in Hr1 as [Hg1 Hf1].
  destruct (selectWithLabel _ _) as [action|]; [|discriminate].
  destruct (Nat.ltb_spec i argstart) as [Hlt|Hge].
  - injection H as <-. split; [|split].
    + destruct (isAverageBase plumed action); exact Hg1.
    + destruct (isAverageBase plumed action); exact Hf1.
    + intros _ Hle. lia.
  - set (r2 := if appearsBeforeThis plumed action (actionSet plumed)
               then addDependency action r1 else r1) in *.
    assert (Hs2 : rq_stores r2 = rq_stores r1)
      by (unfold r2; destruct (appearsBeforeThis _ _ _); reflexivity).
    assert (Hf2 : f_actions r2 = f_actions r1)
      by (unfold r2; destruct (appearsBeforeThis _ _ _); reflexivity).
    set (r3 := if storing then rq_build plumed v r2 else r2) in *.
    assert (Hg3 : storesGrow (rq_stores r) (rq_stores r3)).
    { unfold r3. destruct storing.
      - eapply storesGrow_trans; [exact Hg1|]. rewrite <- Hs2.
        apply rq_build_grows.
      - rewrite Hs2. exact Hg1. }
    assert (Hf3 : f_actions r3 = f_actions r)
      by (unfold r3; destruct storing; simpl; congruence).
    assert (Hst3 : storing = true -> storedForThis (rq_stores r3) v).
    { intros ->. unfold r3. apply buildDataStore_stores. }
    destruct (0 <? getRank v) eqn:Hrank.
    + set (r4 := if usedByAnArgument plumed args (rq_stores r3) v
                 then rq_build plumed v r3 else r3) in *.
      assert (Hg4 : storesGrow (rq_stores r3) (rq_stores r4)).
      { unfold r4. destruct (usedByAnArgument _ _ _ _);
          [apply rq_build_grows | apply storesGrow_refl]. }
      assert (Hf4 : f_actions r4 = f_actions r3)
        by (unfold r4; destruct (usedByAnArgument _ _ _ _); reflexivity).
      apply noteStream_Done in H as [Hs Hf]; [|apply Nat.ltb_lt; exact Hrank].
      rewrite Hs, Hf, Hf4, Hf3. split; [|split].
      * eapply storesGrow_trans; [exact Hg3 | exact Hg4].
      * reflexivity.
      * intros Hst _. apply Hg4, Hst3, Hst.
    + injection H as <-. split; [|split].
      * eapply storesGrow_trans; [exact Hg3 | apply rq_build_grows].
      * simpl. exact Hf3.
      * intros _ _. apply buildDataStore_stores.
Qed.

Lemma requestArguments_loop (args : list nat) (storing : bool)
    (argstart : nat) (l : list nat) (k : nat) (r r' : Request) :
  foldM (requestArgument args storing argstart)
    (combine (seq k (length l)) l) r = Done r' ->
  storesGrow (rq_stores r) (rq_stores r') /\
  f_actions r'
  = fold_left (noteStreamAction plumed) (drop (argstart - k) l) (f_actions r)
  /\
  (storing = true ->
   forall v, In v (drop (argstart - k) l) -> storedForThis (rq_stores r') v).
Proof.
  revert k r. induction l as [|v l IH]; intros k r H.
  - injection H as <-. split; [apply storesGrow_refl|].
    split; [rewrite drop_nil; reflexivity|].
    intros _ w Hw. rewrite drop_nil in Hw. destruct Hw.
  - simpl in H. apply bindO_Done in H as (r1 & Hr1 & H).
    apply requestArgument_Done in Hr1 as (Hg1 & Hf1 & Hst1).
    apply IH in H as (Hg & Hf & Hst).
    split; [eapply storesGrow_trans; eassumption|].
    destruct (Nat.ltb_spec k argstart) as [Hlt|Hge].
    + replace (argstart - k) with (S (argstart - S k)) by lia.
      simpl drop. rewrite Hf, Hf1. split; [reflexivity|]. exact Hst.
    + replace (argstart - k) with 0 by lia.
      replace (argstart - S k) with 0 in * by lia.
      rewrite drop_0 in *. simpl fold_left.
      rewrite Hf, Hf1. split.
      * f_equal. unfold noteStreamAction.
        destruct (0 <? getRank v); [reflexivity|].
        destruct (getPntrToAction v); reflexivity.
      * intros Hs w [<-|Hw]; [|apply Hst; assumption].
        apply Hg. apply Hst1; [exact Hs | lia].
Qed.

Lemma storeRanked_decideStream_grows (args : list nat) (storing : bool)
    (f : list string) (sd : Stores) (d : bool) (sd2 : Stores) :
  decideStream args storing f sd = Done (d, sd2) -> storesGrow sd sd2.
Proof.
  unfold ActionWithArguments.decideStream.
  destruct storing; [intros [= <- <-]; apply storesGrow_refl|].
  destruct f as [|f0 [|f1 rest]].
  - intros [= <- <-]. apply storesGrow_refl.
  - intros H. apply bindO_Done in H as (t & _ & [= <- <-]).
    apply storesGrow_refl.
  - intros H. apply bindO_Done in H as (t & _ & H).
    cbv zeta in H. injection H as _ Hs. subst sd2.
    match goal with
    | |- storesGrow _ (if ?c then _ else _) => destruct c
    end; [apply storesGrow_refl | apply storeRanked_grows].
Qed.

(** *** What a call that returns has done *)

Lemma requestArguments_Done (arg : list nat) (allow : bool) (argstart : nat)
    (st st' : State) :
  requestArguments arg allow argstart st = Done st' ->
  arg <> [] ->
  let cs := checkStoring allow (drop argstart arg) true (stores st) in
  let storing := fst (fst cs) || snd (fst cs) in
  let firstcall := length (arguments (this st)) =? 0 in
  exists r,
    foldM (requestArgument arg storing argstart)
      (combine (seq 0 (length arg)) arg)
      (mkRequest (snd cs) [] (theAverageInArguments (this st))
         (theReweightBase (this st)) []) = Done r /\
    ((reachesStreamTest plumed firstcall = false /\
      done_over_stream (this st') = false /\
      stores st' = (if firstcall then storeRanked arg (rq_stores r)
                    else rq_stores r))
     \/
     (reachesStreamTest plumed firstcall = true /\
      exists d sd2,
        decideStream arg storing (f_actions r) (rq_stores r) = Done (d, sd2) /\
        done_over_stream (this st') = d /\
        stores st' = (if d then sd2
                      else storeRanked (drop argstart arg) sd2))).
Proof.
  intros H Harg cs storing firstcall.
  unfold ActionWithArguments.requestArguments in H.
  apply bindO_Done in H as (u & _ & H).
  destruct (length arg =? 0) eqn:Hlen.
  { apply Nat.eqb_eq in Hlen. destruct arg; [congruence | discriminate]. }
  fold cs in H. destruct cs as [[stopped allconstant] sd1] eqn:Hcs.
  cbn [fst snd] in *. fold firstcall in H.
  apply bindO_Done in H as (r & Hr & H).
  exists r. split; [exact Hr|].
  destruct (reachesStreamTest plumed firstcall) eqn:Hgate; cbn [negb] in H.
  - right. split; [reflexivity|].
    apply bindO_Done in H as ([d sd2] & Hds & H). cbn [fst snd] in H.
    exists d, sd2. split; [exact Hds|].
    destruct d.
    + apply bindO_Done in H as (da & _ & H). injection H as <-.
      split; reflexivity.
    + injection H as <-. split; reflexivity.
  - left. split; [reflexivity|]. injection H as <-. split; reflexivity.
Qed.

(** The vector [f_actions] at the end of the loop over the arguments. *)
Lemma requestArguments_f_actions (arg : list nat) (storing : bool)
    (argstart : nat) (r0 r : Request) :
  f_actions r0 = [] ->
  foldM (requestArgument arg storing argstart)
    (combine (seq 0 (length arg)) arg) r0 = Done r ->
  f_actions r = streamActions arg argstart.
Proof.
  intros H0 H. apply requestArguments_loop in H as (_ & Hf & _).
  rewrite Hf, H0, Nat.sub_0_r. reflexivity.
Qed.

Lemma mustStore_flags (arg : list nat) (allow : bool) (argstart : nat)
    (sd : Stores) :
  let cs := checkStoring allow (drop argstart arg) true sd in
  fst (fst cs) || snd (fst cs) = mustStore arg allow argstart.
Proof.
  unfold ActionWithArguments.mustStore. cbv zeta.
  rewrite (checkStoring_flags allow (drop argstart arg) true sd ∅).
  reflexivity.
Qed.

(** *** The test on the numbers of tasks *)

Lemma firstTasks_Done (f0 : string) (rest : list string) (t : nat) :
  firstTasks plumed f0 = Done t ->
  t = tasksOfFirst plumed (f0 :: rest) /\ hasTasks plumed t f0 = true.
Proof.
  unfold firstTasks, tasksOfFirst, hasTasks.
  destruct (outputs f0) as [|v0 vs]; [discriminate|].
  intros H. apply bindO_Done in H as (u & Hu & H).
  apply massert_Done in Hu. injection H as <-.
  split; [reflexivity|]. simpl. rewrite Nat.eqb_refl. exact Hu.
Qed.

Lemma firstTasks_uneven (f0 : string) (rest : list string) :
  hasTasks plumed (tasksOfFirst plumed (f0 :: rest)) f0 = false ->
  forall t, firstTasks plumed f0 <> Done t.
Proof.
  intros Hun t Ht. apply (firstTasks_Done f0 rest) in Ht as [-> Ht].
  congruence.
Qed.

Lemma canStream_true (t : nat) (f0 : string) (l : list string) (d : bool) :
  canStream plumed t f0 l d = true ->
  d = true /\
  forallb (hasTasks plumed t) l = true /\
  forallb (fun fi => negb (checkForDependency f0 fi)) l = true.
Proof.
  revert d. induction l as [|fi l IH]; intros d H; simpl in *.
  - split; [exact H|]. split; reflexivity.
  - fold (hasTasks plumed t fi) in *.
    destruct (hasTasks plumed t fi) eqn:Hfi.
    + destruct d; simpl in H; [|discriminate].
      destruct (checkForDependency f0 fi); simpl in H; [discriminate|].
      apply IH in H as (_ & H1 & H2).
      split; [reflexivity|]. split; assumption.
    + simpl in H. discriminate.
Qed.

(** C1. For an action with values that requests streamed arguments from
    more than one upstream action: chaining is on after the request only if
    every output of every one of these actions has the number of tasks of
    the first output of the first action, and the first action depends on
    none of the others; if an output of one of the later actions has
    another number of tasks, chaining is off and every argument of rank
    above zero is in stored mode; if the outputs of the first action differ
    among themselves, the request does not return (an assertion fails). *)
Theorem chaining_needs_equal_task_counts (arg : list nat) (allow : bool)
    (argstart : nat) (st : State) (f0 : string) (rest : list string) :
  streamActions arg argstart = f0 :: rest -> rest <> [] ->
  let tasks0 := tasksOfFirst plumed (f0 :: rest) in
  (forall st',
     requestArguments arg allow argstart st = Done st' ->
     done_over_stream (this st') = true ->
     forallb (hasTasks plumed tasks0) (f0 :: rest) = true /\
     firstIndependent plumed (f0 :: rest) = true) /\
  (forall st',
     requestArguments arg allow argstart st = Done st' ->
     thisIsActionWithValue plumed = true ->
     mustStore arg allow argstart = false ->
     forallb (hasTasks plumed tasks0) rest = false ->
     done_over_stream (this st') = false /\
     forall v, In v arg -> 0 < getRank v -> storedForThis (stores st') v) /\
  (thisIsActionWithValue plumed = true ->
   mustStore arg allow argstart = false ->
   hasTasks plumed tasks0 f0 = false ->
   forall st', requestArguments arg allow argstart st <> Done st').
Proof.
  intros HF Hrest tasks0.
  assert (Harg : arg <> []).
  { intros ->. unfold ActionWithArguments.streamActions in HF.
    rewrite drop_nil in HF. discriminate. }
  assert (Hinv : forall st',
    requestArguments arg allow argstart st = Done st' ->
    exists r,
      ((reachesStreamTest plumed (length (arguments (this st)) =? 0) = false
        /\ done_over_stream (this st') = false)
       \/
       (exists d sd2,
          decideStream arg (mustStore arg allow argstart) (f0 :: rest)
            (rq_stores r) = Done (d, sd2) /\
          done_over_stream (this st') = d /\
          stores st' = (if d then sd2
                        else storeRanked (drop argstart arg) sd2)))).
  { intros st' H. apply requestArguments_Done in H; [|exact Harg].
    cbv zeta in H. destruct H as (r & Hr & H). exists r.
    apply requestArguments_f_actions in Hr; [|reflexivity].
    rewrite mustStore_flags, Hr, HF in H.
    destruct H as [(Hg & Hd & _)|(_ & H)]; [left; tauto | right; exact H]. }
  assert (Hds : forall r d sd2,
    decideStream arg (mustStore arg allow argstart) (f0 :: rest)
      (rq_stores r) = Done (d, sd2) ->
    (d = true ->
     forallb (hasTasks plumed tasks0) (f0 :: rest) = true /\
     firstIndependent plumed (f0 :: rest) = true) /\
    (mustStore arg allow argstart = false ->
     hasTasks plumed tasks0 f0 = true /\
     (forallb (hasTasks plumed tasks0) rest = false ->
      d = false /\ sd2 = storeRanked arg (rq_stores r)))).
  { intros r d sd2 H. unfold ActionWithArguments.decideStream in H.
    destruct (mustStore arg allow argstart).
    { injection H as <- <-. split; [discriminate|]. discriminate. }
    destruct rest as [|f1 rest']; [congruence|].
    apply bindO_Done in H as (t & Ht & H).
    apply (firstTasks_Done f0 (f1 :: rest')) in Ht as [Ht Hf0].
    fold tasks0 in Ht. subst t. cbv zeta in H.
    destruct (canStream plumed tasks0 f0 (f1 :: rest') true) eqn:Hcan;
      injection H as <- <-.
    - apply canStream_true in Hcan as (_ & Htasks & Hind).
      split.
      + intros _. split; [|exact Hind].
        change (hasTasks plumed tasks0 f0
                && forallb (hasTasks plumed tasks0) (f1 :: rest') = true).
        rewrite Hf0, Htasks. reflexivity.
      + intros _. split; [exact Hf0|]. intros Hun. congruence.
    - split; [discriminate|]. intros _. split; [exact Hf0|].
      intros _. split; reflexivity. }
  split; [|split].
  - intros st' H Hdone. apply Hinv in H as (r & [(_ & Hd)|(d & sd2 & H & Hd & _)]).
    + congruence.
    + apply Hds in H as [H _]. apply H. congruence.
  - intros st' H Hav Hms Hun.
    apply Hinv in H as (r & [(Hg & _)|(d & sd2 & H & Hd & Hsd)]).
    + unfold reachesStreamTest in Hg. rewrite Hav in Hg. discriminate.
    + apply Hds in H as [_ H]. destruct (H Hms) as [_ H'].
      destruct (H' Hun) as [-> ->]. split; [exact Hd|].
      intros v Hv Hrank. rewrite Hsd.
      apply storeRanked_grows. apply storeRanked_stores; assumption.
  - intros Hav Hms Hun st' H.
    apply Hinv in H as (r & [(Hg & _)|(d & sd2 & H & _)]).
    + unfold reachesStreamTest in Hg. rewrite Hav in Hg. discriminate.
    + apply Hds in H as [_ H]. destruct (H Hms) as [Hf0 _]. congruence.
Qed.

(** *** Constant arguments *)

Lemma collectArgument_skips (sd : Stores) (c c' : Collected) (v : nat) :
  collectArgument plumed sd c v = Done c' ->
  (chained c' = chained c \/
   exists a, chained c' = chained c ++ [a] /\
             calculatedBy plumed v = Some a /\
             isConstant v = false /\ isActionSetup a = false) /\
  owners c' = owners c ++ argumentOwners plumed [v].
Proof.
  unfold collectArgument, calculatedBy, argumentOwners. simpl.
  destruct (getPntrToAction v) as [owner|]; [|discriminate].
  cbv zeta. intros [= <-]. simpl. split; [|reflexivity].
  destruct (isActionSetup (getActionThatCalculates owner)) eqn:Hs;
    [left; reflexivity|].
  destruct (isConstant v) eqn:Hc; [left; reflexivity|]. simpl.
  destruct (existsb _ (chained c)); [left; reflexivity|].
  destruct ((length (chained c) =? 0) || negb _); [|left; reflexivity].
  right. exists (getActionThatCalculates owner). repeat split; assumption.
Qed.

Lemma collect_chained (sd : Stores) (l : list nat) (c0 c : Collected) :
  foldM (collectArgument plumed sd) l c0 = Done c ->
  forall a, In a (chained c) ->
    In a (chained c0) \/
    (isActionSetup a = false /\
     exists v, In v l /\ isConstant v = false /\
               calculatedBy plumed v = Some a).
Proof.
  revert c0. induction l as [|v l IH]; intros c0 H a Ha.
  - injection H as <-. left. exact Ha.
  - simpl in H. apply bindO_Done in H as (c1 & Hc1 & H).
    apply collectArgument_skips in Hc1 as [Hc1 _].
    destruct (IH _ H a Ha) as [Hin|(Hs & w & Hw & Hcw & Hcalc)].
    + destruct Hc1 as [Heq|(b & Heq & Hcalc & Hc & Hs)]; rewrite Heq in Hin;
        [left; exact Hin|].
      apply in_app_or in Hin as [Hin|[<-|[]]]; [left; exact Hin|].
      right. split; [exact Hs|]. exists v. split; [left; reflexivity|].
      split; assumption.
    + right. split; [exact Hs|]. exists w. split; [right; exact Hw|].
      split; assumption.
Qed.

(** C6. [setupActionInChain] leaves out of the actions it collects to fuse
    every argument that is constant and every argument whose producer is an
    [ActionSetup]: an action it collects is no [ActionSetup] and is at the
    head of the stream of an argument that is not constant, so the producer
    of a constant argument joins no chain on its account. A constant
    argument is given its data store when the arguments are requested; and
    in the record of a task a stored argument gets, through
    [getArgumentPositionInStream], the active derivative index of the
    element that is read. *)
Theorem constant_arguments_are_stored_not_chained (arg : list nat)
    (allow : bool) (argstart : nat) (st : State) :
  (forall (c c' : Collected) (v : nat),
     collectArgument plumed (stores st) c v = Done c' ->
     isConstant v = true \/
     cast isActionSetup (calculatedBy plumed v) = true ->
     chained c' = chained c) /\
  (forall f, chainActions plumed argstart st = Done f ->
     forall a, In a f ->
       isActionSetup a = false /\
       exists v, In v (drop argstart (arguments (this st))) /\
                 isConstant v = false /\ calculatedBy plumed v = Some a) /\
  (forall st',
     requestArguments arg allow argstart st = Done st' ->
     forall v, In v (drop argstart arg) -> isConstant v = true ->
               storedForThis (stores st') v) /\
  (forall (jder v : nat) (myvals : MultiValue.MultiValue),
     arguments (this st) !! jder = Some v ->
     storedForThis (stores st) v ->
     MultiValue.active_list myvals (stashPosition plumed v) = [] ->
     exists m,
       getArgumentPositionInStream plumed st jder myvals
       = Done (stashPosition plumed v, m) /\
       MultiValue.active_list m (stashPosition plumed v)
       = [if (0 <? getRank v) && negb (isTimeSeries plumed v)
          then MultiValue.getTaskIndex myvals else 0]).
Proof.
  split; [|split; [|split]].
  - intros c c' v H Hskip.
    apply collectArgument_skips in H as [[H|(a & _ & Ha & Hc & Hs)] _];
      [exact H|].
    destruct Hskip as [Hskip|Hskip]; [congruence|].
    rewrite Ha in Hskip. simpl in Hskip. congruence.
  - intros f H a Ha. unfold chainActions in H.
    apply bindO_Done in H as (c & Hc & H). injection H as <-.
    destruct (collect_chained _ _ _ _ Hc a Ha) as [[]|H]. exact H.
  - intros st' H v Hv Hc.
    assert (Harg : arg <> []).
    { intros ->. rewrite drop_nil in Hv. destruct Hv. }
    apply requestArguments_Done in H; [|exact Harg]. cbv zeta in H.
    destruct H as (r & Hr & H).
    apply requestArguments_loop in Hr as (Hg & _ & Hst).
    cbn [rq_stores] in Hg. rewrite Nat.sub_0_r in Hst.
    assert (Hr' : storedForThis (rq_stores r) v).
    { destruct (fst (fst (checkStoring allow (drop argstart arg) true
                            (stores st)))) eqn:Hstop.
      - apply Hst; [reflexivity | exact Hv].
      - apply Hg. apply checkStoring_constants; assumption. }
    destruct H as [(_ & _ & ->)|(_ & d & sd2 & Hds & _ & ->)].
    + destruct (length (arguments (this st)) =? 0);
        [apply storeRanked_grows|]; exact Hr'.
    + apply storeRanked_decideStream_grows in Hds.
      destruct d; [|apply storeRanked_grows]; apply Hds; exact Hr'.
  - intros jder v myvals Hv Hstored Hnone.
    unfold getArgumentPositionInStream. rewrite Hv.
    replace (existsb _ (store_data_for (stores st) v)) with true.
    + cbv zeta. eexists. split; [reflexivity|].
      simpl MultiValue.active_list at 1. rewrite Hnone. simpl.
      rewrite Nat.eqb_refl, Hnone. reflexivity.
    + symmetry. apply existsb_exists. exists getLabel.
      split; [exact Hstored | apply String.eqb_refl].
Qed.

(** *** Joining the chain of an argument *)

Variable Chain : Type.
Variable addActionToChain :
  string -> list string -> string -> Chain -> bool * Chain.

Local Abbreviation canChainFromThisAction := (canChainFromThisAction plumed).
Local Abbreviation tryChains := (tryChains plumed Chain addActionToChain).
Local Abbreviation histogramTryChains :=
  (histogramTryChains plumed Chain addActionToChain).
Local Abbreviation setupActionInChain :=
  (setupActionInChain plumed Chain addActionToChain).
Local Abbreviation histogramChain :=
  (histogramChain plumed Chain addActionToChain).

Lemma collect_owners (sd : Stores) (l : list nat) (c0 : Collected) :
  (forall v, In v l -> getPntrToAction v <> None) ->
  exists c, foldM (collectArgument plumed sd) l c0 = Done c /\
            owners c = owners c0 ++ argumentOwners plumed l.
Proof.
  revert c0. induction l as [|v l IH]; intros c0 Hl.
  - exists c0. split; [reflexivity|]. simpl. rewrite app_nil_r. reflexivity.
  - simpl foldM.
    destruct (collectArgument plumed sd c0 v) as [c1| |] eqn:Hc1;
      cbn [bindO].
    + destruct (IH c1) as (c & Hc & Ho).
      { intros w Hw. apply Hl. right. exact Hw. }
      exists c. split; [exact Hc|].
      apply collectArgument_skips in Hc1 as [_ Ho1].
      rewrite Ho, Ho1, <- app_assoc. unfold argumentOwners. simpl.
      rewrite app_nil_r. reflexivity.
    + exfalso. unfold collectArgument in Hc1.
      destruct (getPntrToAction v); discriminate.
    + exfalso. unfold collectArgument in Hc1.
      destruct (getPntrToAction v) eqn:Hv; [discriminate|].
      apply (Hl v); [left; reflexivity | exact Hv].
Qed.

Lemma histogram_owners (l : list nat) (c0 : Collected) :
  (forall v, In v l -> getPntrToAction v <> None) ->
  exists c, foldM (histogramLabel plumed) l c0 = Done c /\
            owners c = owners c0 ++ argumentOwners plumed l.
Proof.
  revert c0. induction l as [|v l IH]; intros c0 Hl.
  - exists c0. split; [reflexivity|]. simpl. rewrite app_nil_r. reflexivity.
  - simpl foldM. unfold histogramLabel at 1, argumentOwners. simpl.
    destruct (getPntrToAction v) as [owner|] eqn:Hv.
    + simpl. edestruct IH as (c & Hc & Ho);
        [intros w Hw; apply Hl; right; exact Hw|].
      exists c. split; [exact Hc|].
      rewrite Ho. simpl. rewrite <- app_assoc. reflexivity.
    + exfalso. apply (Hl v); [left; reflexivity | exact Hv].
Qed.

Lemma in_argumentOwners (l : list nat) (v : nat) (owner : string) :
  In (v, owner) (argumentOwners plumed l) <->
  In v l /\ getPntrToAction v = Some owner.
Proof.
  unfold argumentOwners. rewrite in_flat_map. split.
  - intros (w & Hw & Hin). destruct (getPntrToAction w) eqn:Ho; [|destruct Hin].
    destruct Hin as [[= <- <-]|[]]. split; assumption.
  - intros [Hv Ho]. exists v. split; [exact Hv|]. rewrite Ho.
    left. reflexivity.
Qed.

(** When every chain refuses the action, the loop ends with [added] unset,
    and with [all_setup] unset as soon as an argument can be chained
    from. *)
Lemma tryChains_refused (labels : list string) (args : list (nat * string))
    (i : nat) (all_setup : bool) (chain : Chain) (asked : list nat) :
  (forall v owner ch,
     In (v, owner) args -> canChainFromThisAction owner = true ->
     fst (addActionToChain owner labels getLabel ch) = false) ->
  fst (fst (tryChains labels args i all_setup chain asked))
  = (false,
     all_setup
     && forallb (fun vo => negb (canChainFromThisAction (snd vo))) args).
Proof.
  revert i all_setup chain asked.
  induction args as [|[v owner] args IH]; intros i all_setup chain asked Href.
  - simpl. rewrite andb_true_r. reflexivity.
  - simpl.
    assert (Hrest : forall v' owner' ch,
              In (v', owner') args -> canChainFromThisAction owner' = true ->
              fst (addActionToChain owner' labels getLabel ch) = false).
    { intros v' o' ch Hin. apply (Href v'). right. exact Hin. }
    destruct (canChainFromThisAction owner) eqn:Hcan; simpl.
    + destruct (0 <? getRank v).
      * rewrite (Href v owner chain (or_introl eq_refl) Hcan).
        rewrite IH by exact Hrest. rewrite andb_false_r. reflexivity.
      * rewrite IH by exact Hrest. rewrite andb_false_r. reflexivity.
    + rewrite IH by exact Hrest. reflexivity.
Qed.

Lemma histogramTryChains_refused (labels : list string)
    (args : list (nat * string)) (i : nat) (chain : Chain)
    (asked : list nat) :
  (forall v owner ch,
     In (v, owner) args -> 0 < getRank v ->
     fst (addActionToChain owner labels getLabel ch) = false) ->
  fst (fst (histogramTryChains labels args i chain asked)) = false.
Proof.
  revert i chain asked.
  induction args as [|[v owner] args IH]; intros i chain asked Href;
    [reflexivity|].
  simpl.
  assert (Hrest : forall v' owner' ch,
            In (v', owner') args -> 0 < getRank v' ->
            fst (addActionToChain owner' labels getLabel ch) = false).
  { intros v' o' ch Hin. apply Href. right. exact Hin. }
  destruct (Nat.ltb_spec 0 (getRank v)) as [Hrank|_].
  - rewrite (Href v owner chain (or_introl eq_refl) Hrank).
    apply IH. exact Hrest.
  - apply IH. exact Hrest.
Qed.

(** When every chain refuses, the loop calls [addActionToChain] once for
    each argument that can be chained from and has a rank above zero, in
    the order of the arguments. *)
Lemma tryChains_calls (labels : list string) (args : list (nat * string))
    (i : nat) (all_setup : bool) (calls : list string) (asked : list nat) :
  snd (fst (ActionWithArguments.tryChains plumed (list string)
              refuseAndRecord labels args i all_setup calls asked))
  = calls
    ++ List.map snd
         (List.filter
            (fun vo => canChainFromThisAction (snd vo)
                       && (0 <? getRank (fst vo))) args).
Proof.
  revert i all_setup calls asked.
  induction args as [|[v owner] args IH]; intros i all_setup calls asked.
  - cbn. now rewrite app_nil_r.
  - cbn [ActionWithArguments.tryChains List.filter fst snd].
    destruct (canChainFromThisAction owner && (0 <? getRank v)).
    + cbn [refuseAndRecord fst snd List.map]. rewrite IH.
      now rewrite <- app_assoc.
    + apply IH.
Qed.

(** The checks of lines 107 to 111 pass when the shapes agree. *)
Lemma sameShape_passes (arg_ends : list nat) (getShape0 : nat -> option nat)
    (rank0 ntasks : nat) (l : list nat) (k : nat) :
  (forall i v, l !! i = Some v ->
     arg_ends !! (k + i) = Some (k + i) /\ getShape0 v = Some ntasks
     /\ (rank0 = 0 -> getRank v = 0)) ->
  foldM (sameShape plumed arg_ends getShape0 rank0 ntasks)
    (combine (seq k (length l)) l) tt = Done tt.
Proof.
  revert k. induction l as [|v l IH]; intros k H; [reflexivity|].
  cbn [length seq combine foldM]. unfold sameShape at 1. cbn [fst snd].
  destruct (H 0 v eq_refl) as (He & Hs & Hr). rewrite Nat.add_0_r in He.
  rewrite He, Nat.eqb_refl, Hs, Nat.eqb_refl. cbn [negb].
  replace ((rank0 =? 0) && negb (getRank v =? 0)) with false.
  - cbn [bindO]. apply IH. intros i w Hw.
    replace (S k + i) with (k + S i) by lia. apply (H (S i)). exact Hw.
  - destruct (Nat.eqb_spec rank0 0) as [H0|]; [|reflexivity].
    rewrite (Hr H0). reflexivity.
Qed.

(** C7. Construction of an action that streams over its arguments fails at
    once, with the message "could not add action <label> to chain of any
    of its arguments", when an argument of the action can be chained from
    (it is not produced at setup) and no chain of such an argument takes
    the action. The failure is the outcome of the construction call
    itself, so no step runs after it; and the loop of [setupActionInChain]
    asks once, in the order of the arguments, each argument that can be
    chained from and has a rank above zero, and none of them again. The
    constructor of HistogramBase fails in the same way when
    [distinct_arguments] is not empty, the shapes of the arguments agree
    and no chain of an argument of rank above zero takes the action; when
    [distinct_arguments] is empty it asks no chain and does not raise
    this error. *)
Theorem failure_to_chain_is_fatal_at_setup (argstart : nat) (st : State)
    (chain : Chain) :
  let args := drop argstart (arguments (this st)) in
  let message :=
    String.append "could not add action "
      (String.append getLabel " to chain of any of its arguments") in
  (done_over_stream (this st) = true ->
   thisIsActionWithValue plumed = true ->
   (forall v, In v args -> getPntrToAction v <> None) ->
   (exists v owner,
      In v args /\ getPntrToAction v = Some owner /\
      canChainFromThisAction owner = true) ->
   (forall v owner labels ch,
      In v args -> getPntrToAction v = Some owner ->
      canChainFromThisAction owner = true ->
      fst (addActionToChain owner labels getLabel ch) = false) ->
   setupActionInChain argstart st chain = Failed message) /\
  (forall labels owners all_setup,
     snd (fst (ActionWithArguments.tryChains plumed (list string)
                 refuseAndRecord labels owners argstart all_setup [] []))
     = List.map snd
         (List.filter
            (fun vo => canChainFromThisAction (snd vo)
                       && (0 <? getRank (fst vo))) owners)) /\
  (forall (arg_ends : list nat) (nvals : nat)
          (getShape0 : nat -> option nat) (v0 : nat) (rest : list nat)
          (ntasks : nat),
     distinct_arguments (this st) <> [] ->
     arguments (this st) = v0 :: rest ->
     (if 0 <? getRank v0 then getShape0 v0 else Some 1) = Some ntasks ->
     (forall i v, rest !! i = Some v ->
        arg_ends !! (1 + i) = Some (1 + i) /\ getShape0 v = Some ntasks
        /\ (getRank v0 = 0 -> getRank v = 0)) ->
     (forall v, In v (arguments (this st)) -> getPntrToAction v <> None) ->
     (forall v owner labels ch,
        In v (arguments (this st)) -> getPntrToAction v = Some owner ->
        0 < getRank v ->
        fst (addActionToChain owner labels getLabel ch) = false) ->
     ActionWithArguments.constructTasks plumed Chain addActionToChain
       arg_ends nvals getShape0 st chain = Failed message) /\
  (forall (arg_ends : list nat) (nvals : nat)
          (getShape0 : nat -> option nat),
     distinct_arguments (this st) = [] ->
     ActionWithArguments.constructTasks plumed Chain addActionToChain
       arg_ends nvals getShape0 st chain <> Failed message /\
     forall t,
       ActionWithArguments.constructTasks plumed Chain addActionToChain
         arg_ends nvals getShape0 st chain = Done t ->
       chains Chain t = chain /\ askedArguments Chain t = []).
Proof.
  intros args message. split; [|split; [|split]].
  - intros Hdone Hav Hnonnull (v & owner & Hv & Ho & Hcan) Href.
    unfold ActionWithArguments.setupActionInChain.
    rewrite Hdone, Hav. simpl massert. cbn [bindO].
    destruct (collect_owners (stores st) args (mkCollected [] [] []) Hnonnull)
      as (c & Hc & Hown).
    fold args. rewrite Hc. cbn [bindO]. simpl in Hown.
    assert (Htry := tryChains_refused (alabels c) (owners c) argstart true
                      (fuse Chain addActionToChain (chained c) chain) []).
    assert (Hset : forallb
                     (fun vo : nat * string =>
                        negb (canChainFromThisAction (snd vo)))
                     (owners c) = false).
    { apply not_true_is_false. intros Hall.
      rewrite forallb_forall in Hall.
      specialize (Hall (v, owner)). cbn [snd] in Hall.
      rewrite Hcan in Hall. simpl in Hall.
      assert (false = true); [|discriminate].
      apply Hall. rewrite Hown. apply in_argumentOwners. split; assumption. }
    rewrite Hset in Htry.
    destruct (tryChains _ _ _ _ _ _) as [[[added all_setup] chain2] asked].
    cbn [fst andb] in Htry.
    assert (Hpair : (added, all_setup) = (false, false)).
    { apply Htry. intros w o ch Hin Hc'. rewrite Hown in Hin.
      apply in_argumentOwners in Hin as [Hw Ho'].
      eapply Href; eassumption. }
    injection Hpair as -> ->. reflexivity.
  - intros labels owners all_setup. apply tryChains_calls.
  - intros arg_ends nvals getShape0 v0 rest ntasks Hd Hargs Hn Hshape
      Hnonnull Href.
    unfold ActionWithArguments.constructTasks.
    destruct (distinct_arguments (this st)) as [|d ds] eqn:Hds;
      [congruence|].
    change (0 <? length (d :: ds)) with true. cbv iota. rewrite Hargs.
    change (0 <? length (v0 :: rest)) with true. cbn [massert bindO length].
    assert (Hnt : (if 0 <? getRank v0
                   then match getShape0 v0 with
                        | Some n => Done n
                        | None => Undefined
                        end
                   else Done 1) = Done ntasks).
    { destruct (0 <? getRank v0); [rewrite Hn; reflexivity|].
      injection Hn as <-. reflexivity. }
    rewrite Hnt. cbn [bindO].
    rewrite (sameShape_passes arg_ends getShape0 (getRank v0) ntasks rest 1)
      by exact Hshape.
    cbn [bindO].
    unfold ActionWithArguments.histogramChain.
    destruct (histogram_owners (arguments (this st)) (mkCollected [] [] [])
                Hnonnull) as (c & Hc & Hown).
    rewrite Hc. cbn [bindO]. simpl in Hown.
    assert (Htry := histogramTryChains_refused (alabels c) (owners c) 0
                      chain []).
    destruct (histogramTryChains _ _ _ _ _) as [[added chain1] asked].
    cbn [fst] in Htry.
    assert (Hadd : added = false).
    { apply Htry. intros w o ch Hin Hrank. rewrite Hown in Hin.
      apply in_argumentOwners in Hin as [Hw Ho'].
      eapply Href; eassumption. }
    subst added. reflexivity.
  - intros arg_ends nvals getShape0 Hd.
    unfold ActionWithArguments.constructTasks. rewrite Hd.
    change (0 <? length []) with false. cbv iota.
    destruct (arguments (this st)) as [|v0 rest]; [split; discriminate|].
    destruct (0 <? getRank v0).
    + destruct (foldM _ (v0 :: rest) (stores st)) as [sd|msg|] eqn:Hst;
        cbn [bindO].
      * split; [discriminate|]. intros t [= <-]. split; reflexivity.
      * split; [|discriminate]. intros [= ->].
        assert (Hmsg : forall l sd0,
                  foldM (storeRankedArgument plumed) l sd0
                  <> Failed message).
        { induction l as [|w l IH]; intros sd0; [discriminate|].
          cbn [foldM]. unfold storeRankedArgument at 1.
          destruct (0 <? getRank w); cbn [massert bindO]; [apply IH|].
          unfold message. intros [= H]. }
        exact (Hmsg _ _ Hst).
      * split; discriminate.
    + split; [discriminate|]. intros t [= <-]. split; reflexivity.
Qed.

End ArgumentsFacts.

(** *** The statements on the small input *)

(** With the outputs of [a] at 3 and 4 tasks, a request for [a.x] and [b]
    stops on the assertion of line 2781: the call does not end with
    chaining off and the arguments stored. *)
Lemma uneven_first_action_is_an_assertion_failure :
  ~ ActionWithArguments.storesOnAnyMismatch
      (ActionWithArguments.sample ActionWithArguments.uneven_first)
      [0; 2] true 0 ActionWithArguments.fresh.
Proof.
  intros H.
  destruct H as (st' & Hreq & _);
    [apply le_n | reflexivity | reflexivity | reflexivity |].
  vm_compute in Hreq. discriminate.
Qed.

Lemma chaining_needs_equal_task_counts_witness :
  match ActionWithArguments.requestArguments
          (ActionWithArguments.sample ActionWithArguments.uneven_second)
          [0; 2] true 0 ActionWithArguments.fresh with
  | Done st' =>
      ActionWithArguments.done_over_stream (ActionWithArguments.this st')
      = false /\
      ActionWithArguments.storedForThis
        (ActionWithArguments.sample ActionWithArguments.uneven_second)
        (ActionWithArguments.stores st') 2
  | _ => False
  end.
Proof.
  destruct (ActionWithArguments.requestArguments _ _ _ _ _) as [st'| |]
    eqn:Hreq.
  - destruct (chaining_needs_equal_task_counts
                (ActionWithArguments.sample ActionWithArguments.uneven_second)
                [0; 2] true 0 ActionWithArguments.fresh "a" ["b"])
      as (_ & Hstored & _); [reflexivity | discriminate |].
    destruct (Hstored st' Hreq) as [Hoff Hall];
      [reflexivity | reflexivity | reflexivity |].
    split; [exact Hoff|].
    apply Hall; [right; left; reflexivity | apply le_n].
  - vm_compute in Hreq. discriminate.
  - vm_compute in Hreq. discriminate.
Defined.

Lemma constant_arguments_are_stored_not_chained_witness :
  match ActionWithArguments.requestArguments
          (ActionWithArguments.sample (fun _ => 3))
          [0; 3] true 0 ActionWithArguments.fresh with
  | Done st' =>
      ActionWithArguments.storedForThis
        (ActionWithArguments.sample (fun _ => 3))
        (ActionWithArguments.stores st') 3
  | _ => False
  end.
Proof.
  destruct (ActionWithArguments.requestArguments _ _ _ _ _) as [st'| |]
    eqn:Hreq.
  - destruct (constant_arguments_are_stored_not_chained
                (ActionWithArguments.sample (fun _ => 3))
                [0; 3] true 0 ActionWithArguments.fresh)
      as (_ & _ & Hstored & _).
    apply (Hstored st' Hreq); [right; left; reflexivity | reflexivity].
  - vm_compute in Hreq. discriminate.
  - vm_compute in Hreq. discriminate.
Defined.

Lemma failure_to_chain_is_fatal_at_setup_witness :
  match ActionWithArguments.requestArguments
          (ActionWithArguments.sample (fun _ => 3))
          [0; 2] true 0 ActionWithArguments.fresh with
  | Done st =>
      ActionWithArguments.setupActionInChain
        (ActionWithArguments.sample (fun _ => 3)) unit
        ActionWithArguments.refuse 0 st tt
      = Failed "could not add action f to chain of any of its arguments"
  | _ => False
  end.
Proof.
  destruct (ActionWithArguments.requestArguments _ _ _ _ _) as [st| |]
    eqn:Hreq.
  - assert (Hargs : ActionWithArguments.arguments
                      (ActionWithArguments.this st) = [0; 2]
                    /\ ActionWithArguments.done_over_stream
                         (ActionWithArguments.this st) = true).
    { vm_compute in Hreq. injection Hreq as <-. split; reflexivity. }
    destruct Hargs as [Hargs Hdone].
    destruct (failure_to_chain_is_fatal_at_setup
                (ActionWithArguments.sample (fun _ => 3)) unit
                ActionWithArguments.refuse 0 st tt) as (Hfail & _).
    rewrite Hargs in Hfail. apply Hfail.
    + exact Hdone.
    + reflexivity.
    + intros v [<-|[<-|[]]]; discriminate.
    + exists 0, "a". split; [left; reflexivity|]. split; reflexivity.
    + reflexivity.
  - vm_compute in Hreq. discriminate.
  - vm_compute in Hreq. discriminate.
Defined.

(** With the vector [a.x] streamed and the constant vector [c] stored, the
    chained function of these two arguments puts, in the record of task 1,
    the index [arg_deriv_starts[1] + 1 = 7] of the constant argument on the
    active list of its output. *)
Lemma constant_argument_index_is_registered :
  match ActionWithArguments.requestArguments
          (ActionWithArguments.sample (fun _ => 3))
          [0; 3] true 0 ActionWithArguments.fresh with
  | Done st =>
      ~ FunctionOfVector.constantIndicesStayOut
          (ActionWithArguments.sample (fun _ => 3)) 0 [20] true false
          (fun _ _ => 1%Q) st
  | _ => False
  end.
Proof.
  destruct (ActionWithArguments.requestArguments _ _ _ _ _) as [st| |]
    eqn:Hreq; vm_compute in Hreq; [|discriminate|discriminate].
  injection Hreq as <-. intros Hout.
  eapply (Hout 1 1 3 20 7).
  - reflexivity.
  - reflexivity.
  - left. reflexivity.
  - vm_compute. reflexivity.
  - vm_compute. lia.
  - vm_compute. left. reflexivity.
Qed.

(** ** Forces on the arguments *)

Section ForcesFacts.
Import ActionWithArguments.

Variable plumed : Plumed.
Variable setForcesOnActionChain :
  list Q -> nat -> option string -> Outcome (list AddForce * nat).

Local Abbreviation getNumberOfValues := (getNumberOfValues plumed).
Local Abbreviation numberOfScalars := (numberOfScalars plumed).
Local Abbreviation scalarsOf := (scalarsOf plumed).
Local Abbreviation findScalarArgument := (findScalarArgument plumed).
Local Abbreviation setForceOnScalarArgument :=
  (setForceOnScalarArgument plumed).
Local Abbreviation setForcesOnArguments :=
  (setForcesOnArguments plumed setForcesOnActionChain).

Lemma numberOfScalars_cons (v : nat) (l : list nat) :
  numberOfScalars (v :: l) = getNumberOfValues v + numberOfScalars l.
Proof. reflexivity. Qed.

Lemma scalarsOf_cons (v : nat) (l : list nat) :
  scalarsOf (v :: l)
  = List.map (pair v) (seq 0 (getNumberOfValues v)) ++ scalarsOf l.
Proof. reflexivity. Qed.

Lemma length_scalarsOf (l : list nat) :
  length (scalarsOf l) = numberOfScalars l.
Proof.
  induction l as [|v l IH]; [reflexivity|].
  rewrite scalarsOf_cons, numberOfScalars_cons, List.length_app,
    List.length_map, List.length_seq, IH.
  reflexivity.
Qed.

(** The loop of [setForceOnScalarArgument] stops at the argument that
    holds the scalar [n]. *)
Lemma findScalarArgument_spec (n : nat) (args : list nat) (i nn : nat) :
  nn <= n -> n < nn + numberOfScalars args ->
  exists j v,
    args !! j = Some v /\
    findScalarArgument n args i nn nn
    = (i + j, nn + numberOfScalars (take j args)) /\
    nn + numberOfScalars (take j args) <= n
      < nn + numberOfScalars (take j args) + getNumberOfValues v.
Proof.
  revert i nn. induction args as [|v rest IH]; intros i nn Hle Hlt.
  - cbn in Hlt. lia.
  - rewrite numberOfScalars_cons in Hlt. cbn [ActionWithArguments.findScalarArgument].
    destruct (Nat.ltb_spec n (nn + getNumberOfValues v)) as [Hin|Hout].
    + exists 0, v. cbn. rewrite !Nat.add_0_r.
      split; [reflexivity|]. split; [reflexivity | lia].
    + destruct (IH (S i) (nn + getNumberOfValues v)) as (j & w & Hj & Hf & Hr);
        [lia | lia |].
      exists (S j), w. split; [exact Hj|].
      cbn [take]. rewrite numberOfScalars_cons, Hf.
      split; [f_equal; lia | lia].
Qed.

Lemma findScalarArgument_beyond (n : nat) (args : list nat) (i nn : nat) :
  nn + numberOfScalars args <= n ->
  findScalarArgument n args i nn nn = (0, nn + numberOfScalars args).
Proof.
  revert i nn. induction args as [|v rest IH]; intros i nn Hle.
  - cbn. rewrite Nat.add_0_r. reflexivity.
  - rewrite numberOfScalars_cons in *. cbn [ActionWithArguments.findScalarArgument].
    destruct (Nat.ltb_spec n (nn + getNumberOfValues v)) as [Hin|Hout]; [lia|].
    rewrite IH by lia. f_equal. lia.
Qed.

Lemma scalarsOf_lookup (args : list nat) (j v k : nat) :
  args !! j = Some v -> k < getNumberOfValues v ->
  scalarsOf args !! (numberOfScalars (take j args) + k) = Some (v, k).
Proof.
  revert j. induction args as [|w rest IH]; intros j Hj Hk; [discriminate|].
  rewrite scalarsOf_cons. destruct j as [|j].
  - injection Hj as ->. cbn [take]. cbn [ActionWithArguments.numberOfScalars List.map fold_right].
    rewrite lookup_app_l by (rewrite List.length_map, List.length_seq; lia).
    rewrite list_lookup_fmap, lookup_seq_lt by exact Hk. reflexivity.
  - cbn [take]. rewrite numberOfScalars_cons.
    rewrite lookup_app_r
      by (rewrite List.length_map, List.length_seq; lia).
    rewrite List.length_map, List.length_seq.
    replace (getNumberOfValues w + numberOfScalars (take j rest) + k
             - getNumberOfValues w)
      with (numberOfScalars (take j rest) + k) by lia.
    apply IH; assumption.
Qed.

Lemma setForceOnScalarArgument_inside (n : nat) (ff : Q) (st : State) :
  n < numberOfScalars (arguments (this st)) ->
  exists j v k,
    arguments (this st) !! j = Some v /\ k < getNumberOfValues v /\
    n = numberOfScalars (take j (arguments (this st))) + k /\
    setForceOnScalarArgument n ff st = Done (mkAddForce v k ff).
Proof.
  intros Hn.
  destruct (findScalarArgument_spec n (arguments (this st)) 0 0)
    as (j & v & Hj & Hf & Hr); [lia | exact Hn |].
  cbn [Nat.add] in Hf, Hr.
  exists j, v, (n - numberOfScalars (take j (arguments (this st)))).
  split; [exact Hj|]. split; [lia|]. split; [lia|].
  unfold ActionWithArguments.setForceOnScalarArgument.
  rewrite Hf. cbn [fst snd]. rewrite Hj. reflexivity.
Qed.

(** X1. The flat index [n] of [setForceOnScalarArgument] names one scalar
    of the arguments: below the number of scalars, the force is added to
    the element [k] of the argument at position [j], where [n] is the
    number of scalars of the arguments before [j] plus [k], and [k] is an
    index of that argument. *)
Theorem scalar_force_reaches_its_element (n : nat) (ff : Q) (st : State) :
  n < numberOfScalars (arguments (this st)) ->
  exists j v k,
    arguments (this st) !! j = Some v /\ k < getNumberOfValues v /\
    n = forceIndex plumed 0 j k st /\
    setForceOnScalarArgument n ff st = Done (mkAddForce v k ff).
Proof.
  intros Hn. unfold forceIndex. rewrite drop_0.
  apply setForceOnScalarArgument_inside. exact Hn.
Qed.

(** X2. [setForceOnScalarArgument] does not reject an index beyond the
    last scalar: the loop ends with [j] at zero, and the force is added to
    the first argument, at the index [n] minus the number of scalars of
    all the arguments. With no argument at all the call reads
    [arguments[0]], which does not exist. *)
Theorem scalar_force_beyond_the_last_scalar (n : nat) (ff : Q) (st : State) :
  numberOfScalars (arguments (this st)) <= n ->
  setForceOnScalarArgument n ff st
  = match arguments (this st) with
    | [] => Undefined
    | v0 :: _ =>
        Done (mkAddForce v0 (n - numberOfScalars (arguments (this st))) ff)
    end.
Proof.
  intros Hn. unfold ActionWithArguments.setForceOnScalarArgument.
  rewrite findScalarArgument_beyond by (cbn [Nat.add]; exact Hn).
  cbn [fst snd Nat.add]. destruct (arguments (this st)); reflexivity.
Qed.

(** The calls for one argument. *)
Lemma addForces_run (forces : list Q) (v m k0 : nat)
    (calls : list AddForce) (start : nat) :
  start + m <= length forces ->
  exists calls',
    foldM (addForceFrom forces v) (seq k0 m) (calls, start)
    = Done (calls ++ calls', start + m) /\
    List.map force calls' = take m (drop start forces) /\
    List.map (fun c => (onValue c, atIndex c)) calls'
    = List.map (pair v) (seq k0 m).
Proof.
  revert k0 calls start. induction m as [|m IH]; intros k0 calls start Hlen.
  - exists []. cbn. rewrite app_nil_r, Nat.add_0_r. repeat split.
  - destruct (lookup_lt_is_Some_2 forces start) as [f Hf]; [lia|].
    cbn [seq foldM]. unfold ActionWithArguments.addForceFrom at 1.
    cbn [fst snd]. rewrite Hf. cbn [bindO].
    destruct (IH (S k0) (calls ++ [mkAddForce v k0 f]) (S start))
      as (calls' & Hrun & Hforce & Hidx); [lia|].
    exists (mkAddForce v k0 f :: calls').
    rewrite Hrun, <- app_assoc. cbn [app].
    split; [f_equal; f_equal; lia|].
    cbn [List.map force onValue atIndex].
    rewrite Hforce, Hidx, (drop_S _ _ _ Hf). split; reflexivity.
Qed.

Lemma addForces_short (forces : list Q) (v m k0 : nat)
    (calls : list AddForce) (start : nat) :
  0 < m -> length forces < start + m ->
  foldM (addForceFrom forces v) (seq k0 m) (calls, start) = Undefined.
Proof.
  revert k0 calls start.
  induction m as [|m IH]; intros k0 calls start Hm Hlen; [lia|].
  cbn [seq foldM]. unfold ActionWithArguments.addForceFrom at 1.
  cbn [fst snd]. destruct (forces !! start) as [f|] eqn:Hf; [|reflexivity].
  cbn [bindO]. apply lookup_lt_Some in Hf. apply IH; lia.
Qed.

Lemma plainForces_run (forces : list Q) (args : list nat)
    (calls : list AddForce) (start : nat) :
  start + numberOfScalars args <= length forces ->
  exists calls',
    foldM (fun acc v =>
             foldM (addForceFrom forces v) (seq 0 (getNumberOfValues v)) acc)
      args (calls, start)
    = Done (calls ++ calls', start + numberOfScalars args) /\
    List.map force calls' = take (numberOfScalars args) (drop start forces) /\
    List.map (fun c => (onValue c, atIndex c)) calls' = scalarsOf args.
Proof.
  revert calls start. induction args as [|v rest IH]; intros calls start Hlen.
  - exists []. cbn. rewrite app_nil_r, Nat.add_0_r. repeat split.
  - rewrite numberOfScalars_cons in *. cbn [foldM].
    destruct (addForces_run forces v (getNumberOfValues v) 0 calls start)
      as (c1 & Hrun1 & Hf1 & Hi1); [lia|].
    rewrite Hrun1. cbn [bindO].
    destruct (IH (calls ++ c1) (start + getNumberOfValues v))
      as (c2 & Hrun2 & Hf2 & Hi2); [lia|].
    exists (c1 ++ c2). rewrite Hrun2, <- app_assoc.
    split; [f_equal; f_equal; lia|].
    rewrite !List.map_app, Hf1, Hi1, Hf2, Hi2, scalarsOf_cons.
    split; [|reflexivity].
    rewrite <- drop_drop. apply take_take_drop.
Qed.

Lemma plainForces_short (forces : list Q) (args : list nat)
    (calls : list AddForce) (start : nat) :
  0 < numberOfScalars args ->
  length forces < start + numberOfScalars args ->
  foldM (fun acc v =>
           foldM (addForceFrom forces v) (seq 0 (getNumberOfValues v)) acc)
    args (calls, start)
  = Undefined.
Proof.
  revert calls start.
  induction args as [|v rest IH]; intros calls start Hpos Hlen.
  - cbn in Hpos. lia.
  - rewrite numberOfScalars_cons in Hlen, Hpos. cbn [foldM].
    destruct (Nat.le_gt_cases (start + getNumberOfValues v) (length forces))
      as [Hfit|Hshort].
    + destruct (addForces_run forces v (getNumberOfValues v) 0 calls start)
        as (c1 & Hrun1 & _); [exact Hfit|].
      rewrite Hrun1. cbn [bindO]. apply IH; lia.
    + destruct (getNumberOfValues v) as [|m] eqn:Hv.
      * cbn [seq foldM bindO]. apply IH; lia.
      * rewrite addForces_short by lia. reflexivity.
Qed.

(** X3. When the calculation is not done over the stream,
    [setForcesOnArguments] hands the entries of [forces] from [start] on to
    the scalars of the arguments from [argstart] on, one entry for each
    scalar, in the order of the arguments and of their elements, and
    leaves [start] behind the last entry it used. When there is a scalar
    to serve and [forces] is too short for the scalars, the call does not
    return (a debug build stops on its assertion). *)
Theorem forces_are_handed_out_in_order (argstart : nat) (forces : list Q)
    (start : nat) (st : State) :
  done_over_stream (this st) = false ->
  let args := drop argstart (arguments (this st)) in
  (start + numberOfScalars args <= length forces ->
   exists calls,
     setForcesOnArguments argstart forces start st
     = Done (calls, start + numberOfScalars args) /\
     List.map force calls = take (numberOfScalars args) (drop start forces) /\
     List.map (fun c => (onValue c, atIndex c)) calls = scalarsOf args) /\
  (0 < numberOfScalars args ->
   length forces < start + numberOfScalars args ->
   setForcesOnArguments argstart forces start st = Undefined).
Proof.
  intros Hplain args. unfold ActionWithArguments.setForcesOnArguments.
  rewrite Hplain. fold args. split.
  - intros Hlen.
    destruct (plainForces_run forces args [] start Hlen)
      as (calls & Hrun & Hf & Hi).
    exists calls. split; [exact Hrun|]. split; assumption.
  - intros Hpos Hlen. apply plainForces_short; assumption.
Qed.

(** X4. The two functions number the scalars of the arguments in the same
    way: when the calculation is not done over the stream, the call number
    [n] of [setForcesOnArguments] from argument zero and entry zero is the
    call that [setForceOnScalarArgument] makes for the index [n] with the
    force [forces[n]]. *)
Theorem forces_follow_the_flat_numbering (forces : list Q) (st : State)
    (calls : list AddForce) (start' n : nat) (c : AddForce) :
  done_over_stream (this st) = false ->
  setForcesOnArguments 0 forces 0 st = Done (calls, start') ->
  calls !! n = Some c ->
  forces !! n = Some (force c) /\
  setForceOnScalarArgument n (force c) st = Done c.
Proof.
  intros Hplain Hrun Hc.
  unfold ActionWithArguments.setForcesOnArguments in Hrun.
  rewrite Hplain, drop_0 in Hrun.
  destruct (Nat.le_gt_cases (numberOfScalars (arguments (this st)))
              (length forces)) as [Hfit|Hshort];
    [|rewrite plainForces_short in Hrun by lia; discriminate].
  destruct (plainForces_run forces (arguments (this st)) [] 0 Hfit)
    as (calls' & Hrun' & Hf & Hi).
  rewrite Hrun' in Hrun. injection Hrun as <- _. cbn [app] in Hc.
  rewrite drop_0 in Hf.
  assert (Hn : n < numberOfScalars (arguments (this st))).
  { rewrite <- length_scalarsOf, <- Hi, List.length_map.
    apply lookup_lt_Some with c. exact Hc. }
  assert (Hforce : forces !! n = Some (force c)).
  { assert (H : List.map force calls' !! n = Some (force c))
      by (rewrite list_lookup_fmap, Hc; reflexivity).
    rewrite Hf, lookup_take_lt in H by exact Hn. exact H. }
  split; [exact Hforce|].
  destruct (setForceOnScalarArgument_inside n (force c) st Hn)
    as (j & v & k & Hj & Hk & Hnum & Hset).
  rewrite Hset. f_equal.
  assert (H : List.map (fun c => (onValue c, atIndex c)) calls' !! n
              = Some (onValue c, atIndex c))
    by (rewrite list_lookup_fmap, Hc; reflexivity).
  rewrite Hi, Hnum, (scalarsOf_lookup _ _ _ _ Hj Hk) in H.
  injection H as Hv Hi'. destruct c as [cv ck cf]. cbn in *. congruence.
Qed.

End ForcesFacts.

(** ** The stash of the stored arguments *)

Section StashFacts.
Import ActionWithArguments.

Variable plumed : Plumed.

Local Abbreviation getLabel := (getLabel plumed).
Local Abbreviation stashed := (stashed plumed).
Local Abbreviation stashArgument := (stashArgument plumed).

Lemma stashEntries_insert (sd : Stash) (v w : nat) (l : list (string * nat)) :
  stashEntries (<[v:=l]> sd) w
  = if decide (v = w) then l else stashEntries sd w.
Proof.
  unfold stashEntries. destruct (decide (v = w)) as [->|Hne].
  - rewrite lookup_insert_eq. reflexivity.
  - rewrite lookup_insert_ne by exact Hne. reflexivity.
Qed.

Lemma stashAt_None (label : string) (q : nat) (l : list (string * nat)) :
  positionFor label l = None -> stashAt label q l = None.
Proof.
  induction l as [|e l IH]; [reflexivity|]. cbn.
  destruct (String.eqb (fst e) label); [discriminate|].
  intros H. rewrite IH by exact H. reflexivity.
Qed.

Lemma stashAt_Some (label : string) (q p : nat) (l : list (string * nat)) :
  positionFor label l = Some p ->
  exists l', stashAt label q l = Some l' /\
             positionFor label l' = Some q /\
             List.map fst l' = List.map fst l.
Proof.
  induction l as [|e l IH]; [discriminate|]. cbn.
  destruct (String.eqb (fst e) label) eqn:He.
  - intros _. exists ((fst e, q) :: l). cbn. rewrite He. repeat split.
  - intros H. destruct (IH H) as (l' & Hl' & Hp & Hf).
    exists (e :: l'). rewrite Hl'. cbn. rewrite He, Hp, Hf. repeat split.
Qed.

(** The inner loop writes to an entry of this action only. *)
Lemma stashAt_others (label : string) (q : nat) (l l' : list (string * nat))
    (k : nat) (e : string * nat) :
  stashAt label q l = Some l' -> l !! k = Some e -> fst e <> label ->
  l' !! k = Some e.
Proof.
  revert l' k. induction l as [|e0 l IH]; intros l' k; [discriminate|]. cbn.
  destruct (String.eqb_spec (fst e0) label) as [He|He].
  - intros [= <-]. destruct k as [|k]; cbn; [|auto].
    intros [= ->] Hne. contradiction.
  - destruct (stashAt label q l) as [l''|] eqn:Hl; [|discriminate].
    intros [= <-]. destruct k as [|k]; cbn; [auto|].
    intros Hk Hne. apply (IH l'' k eq_refl Hk Hne).
Qed.

(** The labels of the entries decide whether a value is stashed. *)
Lemma positionFor_labels (label : string) (l l' : list (string * nat)) :
  List.map fst l' = List.map fst l ->
  positionFor label l' = None <-> positionFor label l = None.
Proof.
  revert l'. induction l as [|e l IH]; intros [|e' l'] Hf;
    try discriminate; [tauto|].
  cbn in Hf. injection Hf as He Hf. cbn. rewrite He.
  destruct (String.eqb (fst e) label); [split; discriminate|].
  apply IH. exact Hf.
Qed.

(** One turn of the loop over the arguments. *)
Lemma stashArgument_spec (sd : Stash) (q v : nat) :
  match stashed sd v with
  | None => stashArgument (sd, q) v = (sd, q)
  | Some _ =>
      exists sd',
        stashArgument (sd, q) v = (sd', S q) /\
        stashed sd' v = Some q /\
        (forall w, w <> v -> stashEntries sd' w = stashEntries sd w) /\
        (forall w, List.map fst (stashEntries sd' w)
                   = List.map fst (stashEntries sd w)) /\
        (forall w k e, stashEntries sd w !! k = Some e ->
                       fst e <> getLabel ->
                       stashEntries sd' w !! k = Some e)
  end.
Proof.
  unfold ActionWithArguments.stashed, ActionWithArguments.stashArgument.
  cbn [fst snd].
  destruct (positionFor getLabel (stashEntries sd v)) as [p|] eqn:Hp.
  - destruct (stashAt_Some getLabel q p _ Hp) as (l' & Hl' & Hq & Hf).
    rewrite Hl'. exists (<[v:=l']> sd). split; [reflexivity|].
    split; [|split; [|split]].
    + rewrite stashEntries_insert, decide_True by reflexivity. exact Hq.
    + intros w Hw. rewrite stashEntries_insert, decide_False by congruence.
      reflexivity.
    + intros w. rewrite stashEntries_insert.
      destruct (decide (v = w)) as [<-|_]; [exact Hf | reflexivity].
    + intros w k e Hk Hne. rewrite stashEntries_insert.
      destruct (decide (v = w)) as [<-|_]; [|exact Hk].
      apply (stashAt_others getLabel q _ l' k e Hl' Hk Hne).
  - rewrite stashAt_None by exact Hp. reflexivity.
Qed.

(** What the loop over the arguments keeps. *)
Lemma stashArguments_spec (args : list nat) (sd : Stash) (q : nat) :
  let r := fold_left stashArgument args (sd, q) in
  snd r
  = q + length (List.filter (fun v => bool_decide (stashed sd v <> None)) args)
  /\
  (forall w, List.map fst (stashEntries (fst r) w)
             = List.map fst (stashEntries sd w)) /\
  (forall w, ~ In w args -> stashEntries (fst r) w = stashEntries sd w) /\
  (forall v, In v args -> stashed sd v <> None ->
             exists p, stashed (fst r) v = Some p /\ q <= p < snd r) /\
  (forall v w p, In v args -> In w args ->
                 stashed (fst r) v = Some p -> stashed (fst r) w = Some p ->
                 v = w) /\
  (forall w k e, stashEntries sd w !! k = Some e -> fst e <> getLabel ->
                 stashEntries (fst r) w !! k = Some e).
Proof.
  revert sd q. induction args as [|a args IH] using rev_ind; intros sd q r.
  - cbn. rewrite Nat.add_0_r. repeat split; tauto.
  - unfold r. rewrite fold_left_app. cbn [fold_left].
    destruct (IH sd q) as (Hq & Hlab & Hout & Hpos & Hinj & Hkeep).
    destruct (fold_left stashArgument args (sd, q)) as [sd1 q1] eqn:Hrun.
    cbn [fst snd] in *.
    assert (Hsame : stashed sd1 a = None <-> stashed sd a = None).
    { apply positionFor_labels, Hlab. }
    rewrite List.filter_app, List.length_app. cbn [List.filter].
    pose proof (stashArgument_spec sd1 q1 a) as Hstep.
    destruct (stashed sd1 a) as [p1|] eqn:Ha.
    + destruct Hstep as (sd2 & -> & Hqa & Hoth & Hlab2 & Hkeep2).
      cbn [fst snd].
      rewrite bool_decide_true
        by (intros H; apply Hsame in H; discriminate).
      cbn [length]. split; [lia|]. split; [|split; [|split; [|split]]];
        [| | | |intros w k e Hk Hne; apply Hkeep2; auto].
      * intros w. rewrite Hlab2. apply Hlab.
      * intros w Hw. rewrite Hoth, Hout; [reflexivity| |];
          intros H; apply Hw, in_or_app; [left; exact H|].
        right. left. symmetry. exact H.
      * intros v Hv Hst. destruct (Nat.eq_dec v a) as [->|Hne].
        -- exists q1. split; [exact Hqa | lia].
        -- apply in_app_or in Hv as [Hv|[Heq|[]]]; [|congruence].
           destruct (Hpos v Hv Hst) as (p & Hp & Hr).
           exists p. unfold ActionWithArguments.stashed in *.
           rewrite Hoth by exact Hne. split; [exact Hp | lia].
      * assert (Hold : forall v p, v <> a -> In v (args ++ [a]) ->
                  stashed sd2 v = Some p -> In v args /\
                  stashed sd1 v = Some p /\ p < q1).
        { intros v p Hne Hv Hp.
          apply in_app_or in Hv as [Hv|[Heq|[]]]; [|congruence].
          unfold ActionWithArguments.stashed in Hp.
          rewrite Hoth in Hp by exact Hne. split; [exact Hv|].
          split; [exact Hp|].
          destruct (Hpos v Hv) as (p' & Hp' & Hr).
          - intros H. apply positionFor_labels with (l' := stashEntries sd1 v)
              in H; [|apply Hlab].
            unfold ActionWithArguments.stashed in H. congruence.
          - unfold ActionWithArguments.stashed in Hp'. 
            rewrite Hp in Hp'. injection Hp' as <-. lia. }
        intros v w p Hv Hw Hpv Hpw.
        destruct (Nat.eq_dec v a) as [->|Hva], (Nat.eq_dec w a) as [->|Hwa].
        -- reflexivity.
        -- rewrite Hqa in Hpv. injection Hpv as <-.
           destruct (Hold w q1 Hwa Hw Hpw) as (_ & _ & Hlt). lia.
        -- rewrite Hqa in Hpw. injection Hpw as <-.
           destruct (Hold v q1 Hva Hv Hpv) as (_ & _ & Hlt). lia.
        -- destruct (Hold v p Hva Hv Hpv) as (Hv' & Hpv' & _).
           destruct (Hold w p Hwa Hw Hpw) as (Hw' & Hpw' & _).
           apply (Hinj v w p); assumption.
    + rewrite Hstep. cbn [fst snd].
      rewrite bool_decide_false
        by (intros H; apply H, Hsame; reflexivity).
      cbn [length]. split; [lia|]. split; [exact Hlab|].
      split; [|split; [|split]]; [| | |exact Hkeep].
      * intros w Hw. apply Hout. intros H. apply Hw, in_or_app. left. exact H.
      * intros v Hv Hst. apply in_app_or in Hv as [Hv|[<-|[]]].
        -- destruct (Hpos v Hv Hst) as (p & Hp & Hr). exists p. split; assumption.
        -- exfalso. apply Hst, Hsame. reflexivity.
      * intros v w p Hv Hw Hpv Hpw.
        assert (Hin : forall u, In u (args ++ [a]) ->
                  stashed sd1 u = Some p -> In u args).
        { intros u Hu Hpu. apply in_app_or in Hu as [Hu|[<-|[]]];
            [exact Hu | congruence]. }
        apply (Hinj v w p); auto.
Qed.

(** X5. [getNumberOfStashedInputArguments] gives the stored arguments
    places in the stash one after the other from [nquants] on: the count
    grows by the number of positions of the argument list whose value is
    stored for this action, every such value ends with a place of this
    range, two different values never share a place, the entries of
    values that are no arguments are left as they were, and so is every
    entry of another action, with its label and its place, at the position
    it had among the entries of its value. *)
Theorem stash_places_are_fresh_and_distinct (nquants : nat)
    (args : list nat) (sd sd' : Stash) (q' : nat) :
  getNumberOfStashedInputArguments plumed nquants args sd = Done (sd', q') ->
  q' = nquants
       + length (List.filter (fun v => bool_decide (stashed sd v <> None))
                   args) /\
  (forall v, In v args -> stashed sd v <> None ->
             exists p, stashed sd' v = Some p /\ nquants <= p < q') /\
  (forall v w p, In v args -> In w args ->
                 stashed sd' v = Some p -> stashed sd' w = Some p -> v = w) /\
  (forall w, ~ In w args -> stashEntries sd' w = stashEntries sd w) /\
  (forall w, List.map fst (stashEntries sd' w)
             = List.map fst (stashEntries sd w)) /\
  (forall w k label place,
     stashEntries sd w !! k = Some (label, place) -> label <> getLabel ->
     stashEntries sd' w !! k = Some (label, place)).
Proof.
  unfold getNumberOfStashedInputArguments. intros H.
  apply bindO_Done in H as (u & _ & H). injection H as H.
  destruct (stashArguments_spec args sd nquants)
    as (Hq & Hlab & Hout & Hpos & Hinj & Hkeep).
  rewrite H in Hq, Hlab, Hout, Hpos, Hinj, Hkeep. cbn [fst snd] in *.
  repeat split; try assumption.
  intros w k label place Hk Hne. apply (Hkeep w k (label, place) Hk Hne).
Qed.

End StashFacts.

(** ** What a request leaves in the object *)

Section RequestFacts.
Import ActionWithArguments.

Variable plumed : Plumed.

Local Abbreviation getLabel := (getLabel plumed).
Local Abbreviation getRank := (getRank plumed).
Local Abbreviation getPntrToAction := (getPntrToAction plumed).
Local Abbreviation isAverageBase := (isAverageBase plumed).
Local Abbreviation requestArgument := (requestArgument plumed).
Local Abbreviation requestArguments := (requestArguments plumed).
Local Abbreviation storedForThis := (storedForThis plumed).
Local Abbreviation forceTarget := (forceTarget plumed).
Local Abbreviation distinctArgument := (distinctArgument plumed).
Local Abbreviation setDistinctArguments := (setDistinctArguments plumed).

(** The fields of the object after a request that returns. *)
Lemma requestArguments_object (arg : list nat) (allow : bool)
    (argstart : nat) (st st' : State) :
  requestArguments arg allow argstart st = Done st' ->
  arg <> [] ->
  let cs := checkStoring plumed allow (drop argstart arg) true (stores st) in
  let storing := fst (fst cs) || snd (fst cs) in
  exists r,
    foldM (requestArgument arg storing argstart)
      (combine (seq 0 (length arg)) arg)
      (mkRequest (snd cs) [] (theAverageInArguments (this st))
         (theReweightBase (this st)) []) = Done r /\
    arguments (this st') = arg /\
    theAverageInArguments (this st') = rq_average r /\
    theReweightBase (this st') = rq_reweight r /\
    (done_over_stream (this st') = true ->
     exists da,
       setDistinctArguments arg argstart (stores st') = Done da /\
       distinct_arguments (this st') = fst da /\
       arg_deriv_starts (this st') = snd da).
Proof.
  intros H Harg cs storing.
  unfold ActionWithArguments.requestArguments in H.
  apply bindO_Done in H as (u & _ & H).
  destruct (length arg =? 0) eqn:Hlen.
  { apply Nat.eqb_eq in Hlen. destruct arg; [congruence | discriminate]. }
  fold cs in H. destruct cs as [[stopped allconstant] sd1] eqn:Hcs.
  cbn [fst snd] in *.
  apply bindO_Done in H as (r & Hr & H).
  exists r. split; [exact Hr|].
  destruct (negb (reachesStreamTest plumed _)).
  - injection H as <-. cbn. repeat split; discriminate.
  - apply bindO_Done in H as ([d sd2] & Hds & H). cbn [fst snd] in H.
    destruct d.
    + apply bindO_Done in H as (da & Hda & H). injection H as <-. cbn.
      repeat split. intros _. exists da. repeat split. exact Hda.
    + injection H as <-. cbn. repeat split; discriminate.
Qed.

(** *** The average in the arguments *)

Lemma noteAverages_average (v : nat) (r r1 : Request) :
  noteAverages plumed v r = Done r1 ->
  (rq_average r <> None -> rq_average r1 <> None) /\
  (cast isAverageBase (getPntrToAction v) = true -> rq_average r1 <> None).
Proof.
  unfold noteAverages.
  destruct (getPntrToAction v) as [owner|] eqn:Ho; cbn [cast].
  - destruct (isAverageBase owner) eqn:Hav.
    + intros H. apply bindO_Done in H as (u & _ & H). injection H as <-.
      cbn. split; discriminate.
    + destruct (ActionWithArguments.isReweightBase plumed owner).
      * intros [= <-]. cbn. split; [tauto | discriminate].
      * destruct (ActionWithArguments.isActionWithArguments plumed owner).
        -- intros [= <-]. cbn.
           destruct (ActionWithArguments.averageInArgumentsOf plumed owner);
             split; try tauto; discriminate.
        -- intros [= <-]. split; [tauto | discriminate].
  - intros [= <-]. split; [tauto | discriminate].
Qed.

Lemma noteStream_average (v : nat) (r r' : Request) :
  noteStream plumed v r = Done r' -> rq_average r' = rq_average r.
Proof.
  unfold noteStream. destruct (getPntrToAction v); [|discriminate].
  cbv zeta. destruct (_ && _); [destruct (existsb _ _)|];
    intros [= <-]; reflexivity.
Qed.

Lemma requestArgument_average (args : list nat) (storing : bool)
    (argstart : nat) (r r' : Request) (iv : nat * nat) :
  requestArgument args storing argstart r iv = Done r' ->
  (rq_average r <> None -> rq_average r' <> None) /\
  (cast isAverageBase (getPntrToAction (snd iv)) = true ->
   rq_average r' <> None).
Proof.
  unfold ActionWithArguments.requestArgument. cbv zeta. intros H.
  apply bindO_Done in H as (r1 & Hr1 & H).
  apply noteAverages_average in Hr1.
  assert (Heq : rq_average r' = rq_average r1).
  { destruct (selectWithLabel plumed _) as [action|]; [|discriminate].
    destruct (fst iv <? argstart).
    - injection H as <-. destruct (isAverageBase action); reflexivity.
    - destruct (0 <? getRank (snd iv)).
      + apply noteStream_average in H. rewrite H.
        repeat match goal with
          | |- context [if ?c then _ else _] => destruct c
          end; reflexivity.
      + injection H as <-.
        repeat match goal with
          | |- context [if ?c then _ else _] => destruct c
          end; reflexivity. }
  rewrite Heq. exact Hr1.
Qed.

Lemma requestArguments_average (args : list nat) (storing : bool)
    (argstart : nat) (l : list (nat * nat)) (r r' : Request) :
  foldM (requestArgument args storing argstart) l r = Done r' ->
  (rq_average r <> None -> rq_average r' <> None) /\
  (forall v, In v (List.map snd l) ->
     cast isAverageBase (getPntrToAction v) = true ->
     rq_average r' <> None).
Proof.
  revert r. induction l as [|iv l IH]; intros r H.
  - injection H as <-. split; [tauto | intros v []].
  - cbn [foldM] in H. apply bindO_Done in H as (r1 & Hr1 & H).
    apply requestArgument_average in Hr1 as [Hkeep Hset].
    destruct (IH r1 H) as [Hkeep' Hset'].
    split; [tauto|].
    intros v [<-|Hin] Hav; [tauto|]. apply (Hset' v); assumption.
Qed.

Lemma map_snd_numbered {A : Type} (l : list A) (k : nat) :
  List.map snd (combine (seq k (length l)) l) = l.
Proof.
  revert k. induction l as [|x l IH]; intros k; [reflexivity|].
  cbn. rewrite IH. reflexivity.
Qed.

(** X6. An action that takes the output of an [AverageBase] as an argument
    does its work in [update] and not in [calculate]: after a request that
    returns, [theAverageInArguments] is set, so [skipCalculate] holds and
    [skipUpdate] holds exactly when the action it points to is not active.
    For no object are [skipCalculate] and [skipUpdate] both false: the work
    is never done in both. *)
Theorem average_in_arguments_moves_work_to_update (arg : list nat)
    (allow : bool) (argstart : nat) (st st' : State)
    (isActive : string -> bool) (v : nat) :
  requestArguments arg allow argstart st = Done st' ->
  In v arg -> cast isAverageBase (getPntrToAction v) = true ->
  skipCalculate (this st') = true /\
  (exists av, theAverageInArguments (this st') = Some av /\
              skipUpdate isActive (this st') = negb (isActive av)) /\
  (forall o : Object, skipCalculate o || skipUpdate isActive o = true).
Proof.
  intros H Hv Hav.
  assert (Harg : arg <> []) by (intros ->; destruct Hv).
  apply requestArguments_object in H as (r & Hr & _ & Have & _);
    [|exact Harg].
  apply requestArguments_average in Hr as [_ Hset].
  rewrite map_snd_numbered in Hset. specialize (Hset v Hv Hav).
  rewrite <- Have in Hset.
  unfold skipCalculate, skipUpdate.
  destruct (theAverageInArguments (this st')) as [av|]; [|congruence].
  split; [reflexivity|]. split; [exists av; split; reflexivity|].
  intros o. destruct (theAverageInArguments o), (theReweightBase o);
    reflexivity.
Qed.

(** *** The distinct arguments *)

Lemma pointerEq_eq (p q : option string) : pointerEq p q = true <-> p = q.
Proof.
  destruct p as [a|], q as [b|]; cbn; try (split; congruence).
  rewrite String.eqb_eq. split; congruence.
Qed.

Lemma argno_spec (p : option string) (l : list (option string * nat)) :
  match argno p l with
  | Some n => n < length l
  | None => ~ In p (List.map fst l)
  end.
Proof.
  induction l as [|e l IH]; cbn; [tauto|].
  destruct (pointerEq p (fst e)) eqn:He; [lia|].
  destruct (argno p l); [lia|].
  intros [Heq|Hin]; [|tauto].
  symmetry in Heq. apply pointerEq_eq in Heq. congruence.
Qed.

Lemma distinctArgument_keeps (sd : Stores)
    (acc acc' : list (option string * nat) * list nat * nat) (v : nat) :
  distinctKept acc ->
  distinctArgument sd acc v = Done acc' ->
  distinctKept acc' /\
  length (snd (fst acc')) = S (length (snd (fst acc))).
Proof.
  destruct acc as [[distinct starts] nder]. intros [Hnd Hlen].
  unfold ActionWithArguments.distinctArgument. cbn [fst snd] in *.
  pose proof (argno_spec (forceTarget v) distinct) as Hno.
  destruct (argno (forceTarget v) distinct) as [n|].
  - destruct (starts !! n); [|discriminate].
    intros [= <-]. unfold distinctKept. cbn [fst snd].
    rewrite List.length_app. cbn. split; [split; [exact Hnd | lia] | lia].
  - assert (Hnew : forall kind,
              List.NoDup (List.map fst (distinct ++ [(forceTarget v, kind)]))).
    { intros kind. rewrite List.map_app. cbn.
      apply List.NoDup_app; [exact Hnd | constructor; [intros []|constructor] |].
      intros p Hp [Heq|[]]. subst p. exact (Hno Hp). }
    destruct (_ && _).
    + intros H. apply bindO_Done in H as (n & _ & H). injection H as <-.
      unfold distinctKept. cbn [fst snd]. rewrite !List.length_app. cbn.
      split; [split; [apply Hnew | lia] | lia].
    + destruct (cast _ _); intros [= <-]; unfold distinctKept; cbn [fst snd];
        rewrite !List.length_app; cbn;
        (split; [split; [apply Hnew | lia] | lia]).
Qed.

Lemma distinctArguments_keep (sd : Stores) (l : list nat)
    (acc acc' : list (option string * nat) * list nat * nat) :
  distinctKept acc ->
  foldM (distinctArgument sd) l acc = Done acc' ->
  distinctKept acc' /\
  length (snd (fst acc')) = length (snd (fst acc)) + length l.
Proof.
  revert acc. induction l as [|v l IH]; intros acc Hk H.
  - injection H as <-. split; [exact Hk | cbn; lia].
  - cbn [foldM] in H. apply bindO_Done in H as (acc1 & H1 & H).
    destruct (distinctArgument_keeps sd acc acc1 v Hk H1) as [Hk1 Hl1].
    destruct (IH acc1 Hk1 H) as [Hk' Hl'].
    split; [exact Hk'|]. rewrite Hl', Hl1. cbn. lia.
Qed.

(** X7. When a request ends with the calculation done over the stream, no
    action is twice in [distinct_arguments], and [arg_deriv_starts] holds
    one entry for each argument from [argstart] on (two entries when the
    action has one argument only), so that [arg_deriv_starts[j]] exists for
    every argument [argstart + j]. *)
Theorem distinct_arguments_hold_each_action_once (arg : list nat)
    (allow : bool) (argstart : nat) (st st' : State) :
  requestArguments arg allow argstart st = Done st' ->
  arg <> [] ->
  done_over_stream (this st') = true ->
  List.NoDup (List.map fst (distinct_arguments (this st'))) /\
  argstart < length arg /\
  length (arg_deriv_starts (this st'))
  = (if length arg =? 1 then 2 else length arg - argstart) /\
  length (distinct_arguments (this st'))
  <= length (arg_deriv_starts (this st')).
Proof.
  intros H Harg Hdone.
  apply requestArguments_object in H as (r & _ & _ & _ & _ & H);
    [|exact Harg].
  destruct (H Hdone) as (da & Hda & -> & ->). clear H.
  unfold ActionWithArguments.setDistinctArguments in Hda.
  destruct (arg !! argstart) as [v|] eqn:Hv; [|discriminate].
  apply lookup_lt_Some in Hv as Hlt. cbv zeta in Hda.
  apply bindO_Done in Hda as (nder & _ & Hda).
  destruct (length arg =? 1).
  - injection Hda as <-. cbn.
    repeat split; [|lia | lia].
    constructor; [intros [] | constructor].
  - apply bindO_Done in Hda as (acc & Hacc & Hda). injection Hda as <-.
    apply distinctArguments_keep in Hacc as [[Hnd Hle] Hlen].
    + cbn [fst snd] in *. rewrite length_drop in Hlen. cbn in Hlen.
      repeat split; [exact Hnd | exact Hlt | lia | exact Hle].
    + split; cbn; [constructor; [intros [] | constructor] | lia].
Qed.

(** *** Stored or streamed *)

Lemma requestArgument_scalar (args : list nat) (storing : bool)
    (argstart i v : nat) (r r' : Request) :
  requestArgument args storing argstart r (i, v) = Done r' ->
  argstart <= i -> getRank v = 0 -> storedForThis (rq_stores r') v.
Proof.
  unfold ActionWithArguments.requestArgument. cbv zeta. cbn [fst snd].
  intros H Hi Hrank.
  apply bindO_Done in H as (r1 & _ & H).
  destruct (selectWithLabel plumed _); [|discriminate].
  replace (i <? argstart) with false in H
    by (symmetry; apply Nat.ltb_ge; exact Hi).
  rewrite Hrank in H. cbn in H. injection H as <-.
  apply buildDataStore_stores.
Qed.

Lemma requestArguments_scalars (args : list nat) (storing : bool)
    (argstart : nat) (l : list nat) (k : nat) (r r' : Request) :
  foldM (requestArgument args storing argstart)
    (combine (seq k (length l)) l) r = Done r' ->
  forall v, In v (drop (argstart - k) l) -> getRank v = 0 ->
            storedForThis (rq_stores r') v.
Proof.
  revert k r. induction l as [|w l IH]; intros k r H v Hv Hrank.
  - rewrite drop_nil in Hv. destruct Hv.
  - cbn [length seq combine foldM] in H.
    apply bindO_Done in H as (r1 & Hr1 & H).
    destruct (Nat.le_gt_cases argstart k) as [Hle|Hgt].
    + replace (argstart - k) with 0 in Hv by lia. rewrite drop_0 in Hv.
      destruct Hv as [<-|Hv].
      * apply requestArguments_loop in H as (Hgrow & _).
        apply Hgrow.
        apply (requestArgument_scalar _ _ _ _ _ _ _ Hr1 Hle Hrank).
      * apply (IH (S k) r1 H v); [|exact Hrank].
        replace (argstart - S k) with 0 by lia. rewrite drop_0. exact Hv.
    + replace (argstart - k) with (S (argstart - S k)) in Hv by lia.
      cbn [drop] in Hv. apply (IH (S k) r1 H v); assumption.
Qed.

(** X8. After a request of an action with values that returns, every
    argument from [argstart] on is in stored mode for the action unless
    the calculation is done over the stream; and a scalar argument from
    [argstart] on is in stored mode in either case, whatever the action
    is. *)
Theorem arguments_are_stored_or_streamed (arg : list nat) (allow : bool)
    (argstart : nat) (st st' : State) (v : nat) :
  requestArguments arg allow argstart st = Done st' ->
  In v (drop argstart arg) ->
  (getRank v = 0 -> storedForThis (stores st') v) /\
  (thisIsActionWithValue plumed = true ->
   done_over_stream (this st') = false -> storedForThis (stores st') v).
Proof.
  intros H Hv.
  assert (Harg : arg <> []).
  { intros ->. rewrite drop_nil in Hv. destruct Hv. }
  apply requestArguments_Done in H; [|exact Harg]. cbv zeta in H.
  destruct H as (r & Hr & H).
  assert (Hfinal : storesGrow (rq_stores r) (stores st')).
  { destruct H as [(_ & _ & ->)|(_ & d & sd2 & Hds & _ & ->)].
    - destruct (length (arguments (this st)) =? 0);
        [apply storeRanked_grows | apply storesGrow_refl].
    - apply storeRanked_decideStream_grows in Hds.
      destruct d; [exact Hds|].
      eapply storesGrow_trans; [exact Hds | apply storeRanked_grows]. }
  split.
  - intros Hrank. apply Hfinal.
    apply (requestArguments_scalars _ _ _ _ 0 _ _ Hr v); [|exact Hrank].
    rewrite Nat.sub_0_r. exact Hv.
  - intros Hav Hoff.
    destruct (Nat.eq_dec (getRank v) 0) as [Hrank|Hrank].
    + apply Hfinal.
      apply (requestArguments_scalars _ _ _ _ 0 _ _ Hr v); [|exact Hrank].
      rewrite Nat.sub_0_r. exact Hv.
    + destruct H as [(Hgate & _)|(_ & d & sd2 & _ & Hd & ->)].
      * unfold reachesStreamTest in Hgate. rewrite Hav in Hgate.
        discriminate.
      * rewrite Hoff in Hd. subst d.
        apply storeRanked_stores; [exact Hv | lia].
Qed.

End RequestFacts.

(** *** The statements on the small input *)

Lemma scalar_force_reaches_its_element_witness :
  let s := ActionWithArguments.sample (fun _ => 3) in
  let st := ActionWithArguments.two_vectors in
  exists j v k,
    ActionWithArguments.arguments (ActionWithArguments.this st) !! j = Some v
    /\ k < ActionWithArguments.getNumberOfValues s v /\
    4 = ActionWithArguments.forceIndex s 0 j k st /\
    ActionWithArguments.setForceOnScalarArgument s 4 1%Q st
    = Done (ActionWithArguments.mkAddForce v k 1%Q).
Proof.
  apply (scalar_force_reaches_its_element
           (ActionWithArguments.sample (fun _ => 3)) 4 1%Q
           ActionWithArguments.two_vectors).
  cbn. lia.
Defined.

Lemma scalar_force_beyond_the_last_scalar_witness :
  ActionWithArguments.setForceOnScalarArgument
    (ActionWithArguments.sample (fun _ => 3)) 7 1%Q
    ActionWithArguments.two_vectors
  = Done (ActionWithArguments.mkAddForce 0 1 1%Q).
Proof.
  apply (scalar_force_beyond_the_last_scalar
           (ActionWithArguments.sample (fun _ => 3)) 7 1%Q
           ActionWithArguments.two_vectors).
  cbn. lia.
Defined.

Lemma forces_are_handed_out_in_order_witness :
  exists calls,
    ActionWithArguments.setForcesOnArguments
      (ActionWithArguments.sample (fun _ => 3)) ActionWithArguments.no_chain
      0 [1; 2; 3; 4; 5; 6; 7]%Q 0 ActionWithArguments.two_vectors
    = Done (calls, 6) /\
    List.map ActionWithArguments.force calls = [1; 2; 3; 4; 5; 6]%Q /\
    List.map (fun c => (ActionWithArguments.onValue c,
                        ActionWithArguments.atIndex c)) calls
    = [(0, 0); (0, 1); (0, 2); (2, 0); (2, 1); (2, 2)].
Proof.
  apply (forces_are_handed_out_in_order
           (ActionWithArguments.sample (fun _ => 3))
           ActionWithArguments.no_chain 0 [1; 2; 3; 4; 5; 6; 7]%Q 0
           ActionWithArguments.two_vectors eq_refl).
  cbn. lia.
Defined.

Lemma forces_follow_the_flat_numbering_witness :
  [1; 2; 3; 4; 5; 6; 7]%Q !! 4 = Some 5%Q /\
  ActionWithArguments.setForceOnScalarArgument
    (ActionWithArguments.sample (fun _ => 3)) 4 5%Q
    ActionWithArguments.two_vectors
  = Done (ActionWithArguments.mkAddForce 2 1 5%Q).
Proof.
  eapply (forces_follow_the_flat_numbering
            (ActionWithArguments.sample (fun _ => 3))
            ActionWithArguments.no_chain [1; 2; 3; 4; 5; 6; 7]%Q
            ActionWithArguments.two_vectors _ _ 4
            (ActionWithArguments.mkAddForce 2 1 5%Q)).
  - reflexivity.
  - reflexivity.
  - reflexivity.
Defined.

Lemma stash_places_are_fresh_and_distinct_witness :
  exists sd' q',
    ActionWithArguments.getNumberOfStashedInputArguments
      (ActionWithArguments.sample (fun _ => 3)) 4 [0; 2; 0]
      ActionWithArguments.stash0 = Done (sd', q') /\
    q' = 7 /\
    forall v w p, In v [0; 2; 0] -> In w [0; 2; 0] ->
      ActionWithArguments.stashed (ActionWithArguments.sample (fun _ => 3))
        sd' v = Some p ->
      ActionWithArguments.stashed (ActionWithArguments.sample (fun _ => 3))
        sd' w = Some p ->
      v = w.
Proof.
  eexists _, _. split; [reflexivity|].
  destruct (stash_places_are_fresh_and_distinct
              (ActionWithArguments.sample (fun _ => 3)) 4 [0; 2; 0]
              ActionWithArguments.stash0 _ _ eq_refl)
    as (Hq & _ & Hinj & _).
  split; [exact Hq | exact Hinj].
Defined.

Lemma average_in_arguments_moves_work_to_update_witness :
  match ActionWithArguments.requestArguments ActionWithArguments.averaged
          [0] false 0 ActionWithArguments.fresh with
  | Done st' =>
      ActionWithArguments.skipCalculate (ActionWithArguments.this st') = true
  | _ => False
  end.
Proof.
  destruct (ActionWithArguments.requestArguments _ _ _ _ _) as [st'| |]
    eqn:Hreq.
  - apply (average_in_arguments_moves_work_to_update
             ActionWithArguments.averaged [0] false 0
             ActionWithArguments.fresh st' (fun _ => true) 0 Hreq).
    + left. reflexivity.
    + reflexivity.
  - vm_compute in Hreq. discriminate.
  - vm_compute in Hreq. discriminate.
Defined.

Lemma distinct_arguments_hold_each_action_once_witness :
  match ActionWithArguments.requestArguments
          (ActionWithArguments.sample (fun _ => 3))
          [0; 2] true 0 ActionWithArguments.fresh with
  | Done st' =>
      List.NoDup
        (List.map fst
           (ActionWithArguments.distinct_arguments
              (ActionWithArguments.this st'))) /\
      length (ActionWithArguments.arg_deriv_starts
                (ActionWithArguments.this st')) = 2
  | _ => False
  end.
Proof.
  destruct (ActionWithArguments.requestArguments _ _ _ _ _) as [st'| |]
    eqn:Hreq.
  - destruct (distinct_arguments_hold_each_action_once
                (ActionWithArguments.sample (fun _ => 3))
                [0; 2] true 0 ActionWithArguments.fresh st' Hreq)
      as (Hnd & _ & Hlen & _).
    + discriminate.
    + vm_compute in Hreq. injection Hreq as <-. reflexivity.
    + split; [exact Hnd | exact Hlen].
  - vm_compute in Hreq. discriminate.
  - vm_compute in Hreq. discriminate.
Defined.

Lemma arguments_are_stored_or_streamed_witness :
  match ActionWithArguments.requestArguments
          (ActionWithArguments.sample ActionWithArguments.uneven_second)
          [0; 2] true 0 ActionWithArguments.fresh with
  | Done st' =>
      ActionWithArguments.storedForThis
        (ActionWithArguments.sample ActionWithArguments.uneven_second)
        (ActionWithArguments.stores st') 0
  | _ => False
  end.
Proof.
  destruct (ActionWithArguments.requestArguments _ _ _ _ _) as [st'| |]
    eqn:Hreq.
  - destruct (arguments_are_stored_or_streamed
                (ActionWithArguments.sample ActionWithArguments.uneven_second)
                [0; 2] true 0 ActionWithArguments.fresh st' 0 Hreq)
      as (_ & Hstored).
    + left. reflexivity.
    + apply Hstored; [reflexivity|].
      vm_compute in Hreq. injection Hreq as <-. reflexivity.
  - vm_compute in Hreq. discriminate.
  - vm_compute in Hreq. discriminate.
Defined.

(** ** The atoms of a multi-colvar *)

Section ConstructionFacts.
Import MultiColvarBase MultiColvarConstruction.

Variable convert : nat -> string.

Local Abbreviation readNumbered := (readNumbered convert).
Local Abbreviation readAtoms := (readAtoms convert).

Lemma blocks_length (m n : nat) : length (blocks m n) = m.
Proof. unfold blocks. rewrite List.length_map, List.length_seq. reflexivity. Qed.

Lemma blocks_lookup (m n j : nat) :
  j < m ->
  blocks m n !! j = Some (List.map (fun k => m * k + j) (seq 0 n)).
Proof.
  intros Hj. unfold blocks.
  rewrite list_lookup_fmap, lookup_seq_lt by exact Hj. reflexivity.
Qed.

Lemma blocks_zero (m : nat) : blocks m 0 = replicate m [].
Proof.
  apply list_eq. intros j. destruct (Nat.lt_ge_cases j m) as [Hj|Hj].
  - rewrite blocks_lookup, lookup_replicate_2 by exact Hj. reflexivity.
  - rewrite !lookup_ge_None_2;
      [reflexivity | rewrite length_replicate | rewrite blocks_length];
      exact Hj.
Qed.

Lemma blocks_push (m n : nat) :
  imap (fun j b => b ++ [m * n + j]) (blocks m n) = blocks m (S n).
Proof.
  apply list_eq. intros j. rewrite list_lookup_imap.
  destruct (Nat.lt_ge_cases j m) as [Hj|Hj].
  - rewrite !blocks_lookup by exact Hj. cbn [fmap option_fmap option_map].
    rewrite seq_S, List.map_app. reflexivity.
  - rewrite !lookup_ge_None_2 by (rewrite blocks_length; exact Hj).
    reflexivity.
Qed.

Lemma atomOf_blocks (m n task j : nat) :
  j < m -> task < n -> atomOf (blocks m n) task j = m * task + j.
Proof.
  intros Hj Ht. unfold atomOf.
  rewrite (nth_lookup_Some _ _ _ _ (blocks_lookup m n j Hj)).
  apply nth_lookup_Some.
  rewrite list_lookup_fmap, lookup_seq_lt by exact Ht. reflexivity.
Qed.

Lemma readNumbered_blocks (inp : Input) (fuel i : nat)
    (ablocks : list (list nat)) (all_atoms : list nat)
    (r : list (list nat) * list nat) :
  numberedSoFar i ablocks all_atoms ->
  readNumbered inp fuel i ablocks all_atoms = Done r ->
  exists m n, fst r = blocks m n /\ length (snd r) = m * n.
Proof.
  revert i ablocks all_atoms.
  induction fuel as [|fuel IH]; intros i ablocks all_atoms Hinv H;
    [discriminate|].
  cbn [MultiColvarConstruction.readNumbered] in H.
  apply bindO_Done in H as (read & _ & H).
  assert (Hstop : (ablocks, all_atoms) = r ->
                  exists m n, fst r = blocks m n /\ length (snd r) = m * n).
  { intros <-. cbn [fst snd].
    destruct Hinv as [(_ & -> & ->)|(_ & m & -> & Hlen)].
    - exists 0, 0. split; reflexivity.
    - exists m, (i - 1). split; [reflexivity | exact Hlen]. }
  destruct read as [[|t0 t]|]; [injection H as H; auto | | injection H as H; auto].
  set (tt := t0 :: t) in *.
  destruct (negb _) eqn:Hcheck; [discriminate|].
  apply negb_false_iff, Nat.eqb_eq in Hcheck.
  apply IH in H; [exact H|]. right. split; [destruct Hinv as [(-> & _)|(Hi & _)]; lia|].
  destruct Hinv as [(-> & -> & ->)|(Hi & m & -> & Hlen)].
  - cbn [Nat.eqb] in *. exists (length tt).
    replace (resize (length tt) [] []) with (blocks (length tt) 0)
      by (rewrite blocks_zero; reflexivity).
    rewrite blocks_length. cbn [Nat.sub].
    split; [apply (blocks_push (length tt) 0)|].
    cbn [app]. lia.
  - replace (i =? 1) with false in *
      by (symmetry; apply Nat.eqb_neq; lia).
    rewrite blocks_length in *. exists m.
    replace (S i - 1) with (S (i - 1)) by lia.
    split; [apply blocks_push|].
    rewrite List.length_app, Hlen, Hcheck. lia.
Qed.

Lemma newi_blocks (m n task j : nat) :
  j < m -> task < n -> newi (blocks m n) task j = true.
Proof.
  intros Hj Ht. unfold newi. apply negb_true_iff.
  apply not_true_is_false. intros H.
  apply existsb_exists in H as (j' & Hj' & Heq).
  apply in_seq in Hj'. apply Nat.eqb_eq in Heq.
  rewrite !atomOf_blocks in Heq by lia. lia.
Qed.

(** X9. The constructor numbers the atoms it requests task by task: with
    [m] positions in the atom list of a task and [n] tasks, [ablocks] has
    [m] blocks, [all_atoms] has [m*n] atoms, and the position [j] of the
    task [k] holds the index [m*k + j], which is an index of [all_atoms].
    So no task of a constructed action holds an index twice: the test
    [newi] of [performTask] and [setBoxDerivativesNoPbc] succeeds at every
    position. *)
Theorem atoms_are_numbered_task_by_task (inp : Input)
    (ablocks : list (list nat)) (all_atoms : list nat) :
  readAtoms inp = Done (ablocks, all_atoms) ->
  exists m n,
    ablocks = blocks m n /\ length all_atoms = m * n /\
    forall task j, task < n -> j < m ->
      atomOf ablocks task j = m * task + j /\
      atomOf ablocks task j < length all_atoms /\
      newi ablocks task j = true.
Proof.
  intros H.
  assert (Hb : exists m n, ablocks = blocks m n /\ length all_atoms = m * n).
  { unfold MultiColvarConstruction.readAtoms in H. cbv zeta in H.
    apply bindO_Done in H as (all0 & _ & H).
    apply bindO_Done in H as (all1 & _ & H).
    destruct (0 <? length all1).
    - injection H as <- <-. exists (length all1), 1.
      split; [|lia]. unfold blocks. apply List.map_ext.
      intros j. cbn. f_equal. lia.
    - destruct (oneAtom (getName inp)).
      + injection H as <- <-. exists 1, (length (ATOMS inp)).
        split; [|lia]. unfold blocks. cbn [seq List.map]. f_equal.
        rewrite <- (List.map_id (seq 0 _)) at 1. apply List.map_ext.
        intros k. lia.
      + apply readNumbered_blocks in H; [exact H|].
        left. repeat split. }
  destruct Hb as (m & n & -> & Hlen). exists m, n.
  split; [reflexivity|]. split; [exact Hlen|].
  intros task j Ht Hj. rewrite atomOf_blocks by assumption.
  split; [reflexivity|]. split; [|apply newi_blocks; assumption].
  rewrite Hlen. nia.
Qed.

(** *** The numbered keywords *)

Lemma nth_concat_uniform (m : nat) (ls : list (list nat)) (task j d : nat) :
  Forall (fun t => length t = m) ls -> task < length ls -> j < m ->
  nth (m * task + j) (concat ls) d = nth j (nth task ls []) d.
Proof.
  intros Hall. revert task.
  induction Hall as [|t ls Ht Hall IH]; intros task Htask Hj;
    [cbn in Htask; lia|].
  cbn [concat]. destruct task as [|task].
  - rewrite Nat.mul_0_r. cbn [Nat.add nth].
    apply List.app_nth1. lia.
  - cbn [nth]. cbn [length] in Htask.
    rewrite List.app_nth2 by nia.
    replace (m * S task + j - length t) with (m * task + j) by nia.
    apply IH; [lia | exact Hj].
Qed.

Lemma readNumbered_atoms (inp : Input) (fuel i : nat)
    (ablocks : list (list nat)) (all_atoms : list nat)
    (r : list (list nat) * list nat) :
  String.eqb (getName inp) "TORSION" = false ->
  NumberedKept inp i ablocks all_atoms ->
  readNumbered inp fuel i ablocks all_atoms = Done r ->
  exists n,
    NumberedKept inp (S n) (fst r) (snd r) /\
    fst r = blocks (length (numbered (ATOMSn inp) 1)) n /\
    numbered (ATOMSn inp) (S n) = [].
Proof.
  intros Hname. revert i ablocks all_atoms.
  induction fuel as [|fuel IH]; intros i ablocks all_atoms Hk H;
    [discriminate|].
  cbn [MultiColvarConstruction.readNumbered] in H. rewrite Hname in H.
  cbn [bindO] in H.
  destruct Hk as [Hfrom Hin Hblocks Hatoms Hlengths].
  set (m := length (numbered (ATOMSn inp) 1)) in *.
  destruct (numbered (ATOMSn inp) i) as [|t0 t] eqn:Ht.
  - injection H as <-. cbn [fst snd]. exists (i - 1).
    replace (S (i - 1)) with i by lia.
    split; [constructor; assumption|]. split; [|exact Ht].
    rewrite Hblocks. destruct (Nat.eqb_spec i 1) as [->|_]; [|reflexivity].
    unfold m. rewrite Ht. reflexivity.
  - assert (Hlook : ATOMSn inp !! (i - 1) = Some (t0 :: t)).
    { unfold numbered in Ht.
      destruct (ATOMSn inp !! (i - 1)) as [x|] eqn:Hx.
      - rewrite (nth_lookup_Some _ _ _ _ Hx) in Ht. congruence.
      - apply lookup_ge_None_1 in Hx. rewrite List.nth_overflow in Ht by lia.
        discriminate. }
    apply lookup_lt_Some in Hlook as Hlt.
    destruct (negb _) eqn:Hcheck; [discriminate|].
    apply negb_false_iff, Nat.eqb_eq in Hcheck.
    assert (Hm : length (t0 :: t) = m).
    { rewrite Hcheck, Hblocks.
      destruct (Nat.eqb_spec i 1) as [->|_].
      - rewrite length_resize. unfold m. rewrite Ht. reflexivity.
      - apply blocks_length. }
    apply IH in H; [exact H|].
    constructor.
    + lia.
    + lia.
    + replace (S i =? 1) with false by (symmetry; apply Nat.eqb_neq; lia).
      replace (S i - 1) with (S (i - 1)) by lia.
      rewrite Hblocks. destruct (Nat.eqb_spec i 1) as [->|_].
      * rewrite length_resize. cbn [Nat.sub].
        replace (resize (length (t0 :: t)) [] []) with (blocks m 0)
          by (rewrite blocks_zero, resize_nil, Hm; reflexivity).
        rewrite Hm. apply blocks_push.
      * rewrite blocks_length. apply blocks_push.
    + replace (S i - 1) with (S (i - 1)) by lia.
      rewrite (take_S_r _ _ _ Hlook), concat_app, Hatoms. cbn.
      rewrite app_nil_r. reflexivity.
    + replace (S i - 1) with (S (i - 1)) by lia.
      rewrite (take_S_r _ _ _ Hlook). apply Forall_app.
      split; [exact Hlengths | constructor; [exact Hm | constructor]].
Qed.

(** X10. With the numbered keywords ATOMS1, ATOMS2, ... of an action that
    is no torsion, the atom at the position [j] of the task [k] is the
    atom [j] of the keyword ATOMS[k+1]: reading [all_atoms] through
    [ablocks] gives back the input. The tasks are the keywords up to the
    first number without atoms, and each of them lists as many atoms as
    ATOMS1. *)
Theorem numbered_atoms_are_read_back (inp : Input)
    (ablocks : list (list nat)) (all_atoms : list nat) :
  String.eqb (getName inp) "TORSION" = false ->
  oneAtom (getName inp) = false -> ATOMS inp = [] ->
  readAtoms inp = Done (ablocks, all_atoms) ->
  let m := length (numbered (ATOMSn inp) 1) in
  exists n,
    ablocks = blocks m n /\
    numbered (ATOMSn inp) (S n) = [] /\
    forall task, task < n ->
      length (numbered (ATOMSn inp) (S task)) = m /\
      forall j, j < m ->
        nth (atomOf ablocks task j) all_atoms 0
        = nth j (numbered (ATOMSn inp) (S task)) 0.
Proof.
  intros Hname Hone Hatoms H m.
  unfold MultiColvarConstruction.readAtoms in H. cbv zeta in H.
  rewrite Hname, Hone, Hatoms in H. cbn [bindO length Nat.ltb Nat.leb] in H.
  apply readNumbered_atoms in H as (n & Hk & Hb & Hstop);
    [|exact Hname | constructor; cbn; try lia; try reflexivity; constructor].
  cbn [fst snd] in *. destruct Hk as [_ Hin _ Hall Hlen].
  replace (S n - 1) with n in * by lia.
  exists n. split; [exact Hb|]. split; [exact Hstop|].
  intros task Htask.
  assert (Hnth : nth task (take n (ATOMSn inp)) []
                 = numbered (ATOMSn inp) (S task)).
  { unfold numbered. replace (S task - 1) with task by lia.
    rewrite !nth_lookup, lookup_take_lt by exact Htask. reflexivity. }
  assert (Hlt : task < length (take n (ATOMSn inp))).
  { rewrite length_take. lia. }
  split.
  - rewrite <- Hnth.
    rewrite List.Forall_forall in Hlen. apply Hlen.
    apply List.nth_In. exact Hlt.
  - intros j Hj. rewrite Hb, atomOf_blocks by assumption.
    rewrite Hall, <- Hnth. apply nth_concat_uniform; assumption.
Qed.

(** The loop stops with an error at the first keyword that lists another
    number of atoms than ATOMS1. *)
Lemma readNumbered_wrong (inp : Input) (fuel i p : nat)
    (ablocks : list (list nat)) (all_atoms : list nat) :
  String.eqb (getName inp) "TORSION" = false ->
  let m := length (numbered (ATOMSn inp) 1) in
  0 < m -> 1 <= i <= S p -> 1 <= p -> S p - i < fuel ->
  ablocks = (if i =? 1 then [] else blocks m (i - 1)) ->
  (forall q, q < p -> length (nth q (ATOMSn inp) []) = m) ->
  nth p (ATOMSn inp) [] <> [] ->
  length (nth p (ATOMSn inp) []) <> m ->
  readNumbered inp fuel i ablocks all_atoms
  = Failed (String.append "ATOMS"
              (String.append (convert (S p))
                 " keyword has the wrong number of atoms")).
Proof.
  intros Hname m Hpos. revert i ablocks all_atoms.
  induction fuel as [|fuel IH];
    intros i ablocks all_atoms Hi Hp Hfuel Hblocks Hgood Hne Hbad; [lia|].
  cbn [MultiColvarConstruction.readNumbered]. rewrite Hname. cbn [bindO].
  unfold numbered.
  destruct (Nat.eq_dec (i - 1) p) as [Heq|Hlt].
  - rewrite Heq. destruct (nth p (ATOMSn inp) []) as [|t0 t] eqn:Ht;
      [congruence|].
    replace (i =? 1) with false in * by (symmetry; apply Nat.eqb_neq; lia).
    rewrite Hblocks, blocks_length.
    replace (length (t0 :: t) =? m) with false
      by (symmetry; apply Nat.eqb_neq; exact Hbad).
    cbn [negb]. replace i with (S p) by lia. reflexivity.
  - assert (Hlen : length (nth (i - 1) (ATOMSn inp) []) = m)
      by (apply Hgood; lia).
    destruct (nth (i - 1) (ATOMSn inp) []) as [|t0 t] eqn:Ht;
      [cbn in Hlen; lia|].
    assert (Hcheck : length (t0 :: t)
                     = length (if i =? 1 then resize (length (t0 :: t)) [] ablocks
                               else ablocks)).
    { rewrite Hblocks. destruct (Nat.eqb_spec i 1) as [->|_].
      - rewrite length_resize. reflexivity.
      - rewrite blocks_length. exact Hlen. }
    rewrite <- Hcheck, Nat.eqb_refl. cbn [negb].
    apply IH; try assumption; try lia.
    replace (S i =? 1) with false by (symmetry; apply Nat.eqb_neq; lia).
    replace (S i - 1) with (S (i - 1)) by lia.
    rewrite Hblocks. destruct (Nat.eqb_spec i 1) as [->|_].
    + cbn [Nat.sub].
      replace (resize (length (t0 :: t)) [] []) with (blocks m 0)
        by (rewrite blocks_zero, resize_nil, Hlen; reflexivity).
      rewrite Hlen. apply blocks_push.
    + rewrite Hlen. apply blocks_push.
Qed.

(** X11. When ATOMS1 lists atoms, the keyword ATOMS[p+1] of an action that
    is no torsion lists another number of atoms than ATOMS1, and every
    keyword before it lists as many as ATOMS1, the constructor fails with
    the error that names the number [p+1]. *)
Theorem wrong_number_of_atoms_is_an_error (inp : Input) (p : nat) :
  String.eqb (getName inp) "TORSION" = false ->
  oneAtom (getName inp) = false -> ATOMS inp = [] ->
  let m := length (numbered (ATOMSn inp) 1) in
  0 < m -> 1 <= p ->
  (forall q, q < p -> length (numbered (ATOMSn inp) (S q)) = m) ->
  numbered (ATOMSn inp) (S p) <> [] ->
  length (numbered (ATOMSn inp) (S p)) <> m ->
  readAtoms inp
  = Failed (String.append "ATOMS"
              (String.append (convert (S p))
                 " keyword has the wrong number of atoms")).
Proof.
  intros Hname Hone Hatoms m Hpos Hp Hgood Hne Hbad.
  unfold numbered in Hgood, Hne, Hbad. cbn [Nat.sub] in Hne, Hbad.
  rewrite Nat.sub_0_r in Hne, Hbad.
  assert (Hin : p < length (ATOMSn inp)).
  { destruct (Nat.lt_ge_cases p (length (ATOMSn inp))) as [H|H]; [exact H|].
    rewrite List.nth_overflow in Hne by exact H. congruence. }
  unfold MultiColvarConstruction.readAtoms. cbv zeta.
  rewrite Hname, Hone, Hatoms. cbn [bindO length Nat.ltb Nat.leb].
  apply readNumbered_wrong; try assumption; try lia; try reflexivity.
  intros q Hq. specialize (Hgood q Hq). cbn [Nat.sub] in Hgood.
  rewrite Nat.sub_0_r in Hgood. exact Hgood.
Qed.

(** *** Torsions *)

(** X12. For a torsion the keyword ATOMS with the four atoms a, b, c and d
    stands for the vector from a to b, the axis from b to c and the vector
    from c to d: the constructor requests the six atoms a, b, b, c, c, d,
    one block for each, which is what it requests for VECTORA=b,a AXIS=b,c
    VECTORB=c,d. *)
Theorem four_atoms_of_a_torsion_are_two_vectors_and_an_axis
    (a b c d : nat) (atom vb ax : list nat)
    (nA nVa nVb nAx : list (list nat)) :
  readAtoms (mkInput "TORSION" atom [a; b; c; d] [] vb ax nA nVa nVb nAx)
  = Done (blocks 6 1, [a; b; b; c; c; d]) /\
  readAtoms (mkInput "TORSION" atom [] [b; a] [c; d] [b; c] nA nVa nVb nAx)
  = Done (blocks 6 1, [a; b; b; c; c; d]).
Proof. split; reflexivity. Qed.

(** *** Four atoms for each value *)

Lemma fourAtoms_run (b0 b1 b2 : list nat) (rest : list (list nat))
    (c k : nat) :
  k + c <= length b0 -> length b0 <= length b1 -> length b0 <= length b2 ->
  foldM (fourAtoms (b0 :: b1 :: b2 :: rest)) (seq k c)
    (take k b0, take k b1, take k b1, take k b2)
  = Done (take (k + c) b0, take (k + c) b1, take (k + c) b1,
          take (k + c) b2).
Proof.
  revert k. induction c as [|c IH]; intros k H0 H1 H2.
  - rewrite Nat.add_0_r. reflexivity.
  - cbn [seq foldM]. unfold fourAtoms at 1. cbn [lookup list_lookup].
    destruct (lookup_lt_is_Some_2 b0 k) as [a0 Ha0]; [lia|].
    destruct (lookup_lt_is_Some_2 b1 k) as [a1 Ha1]; [lia|].
    destruct (lookup_lt_is_Some_2 b2 k) as [a2 Ha2]; [lia|].
    cbn [mbind option_bind]. rewrite Ha0, Ha1, Ha2. cbn [bindO].
    rewrite <- (take_S_r _ _ _ Ha0), <- (take_S_r _ _ _ Ha1),
      <- (take_S_r _ _ _ Ha2).
    rewrite IH by lia. replace (S k + c) with (k + S c) by lia.
    reflexivity.
Qed.

Lemma copyAtoms_run (t0 t1 t2 t3 : list nat) (c k : nat) :
  k + c <= length t0 -> length t1 = length t0 -> length t2 = length t0 ->
  length t3 = length t0 ->
  foldM (copyAtoms [t0; t1; t2; t3]) (seq k c)
    [take k t0; take k t1; take k t2; take k t3]
  = Done [take (k + c) t0; take (k + c) t1; take (k + c) t2;
          take (k + c) t3].
Proof.
  revert k. induction c as [|c IH]; intros k H0 H1 H2 H3.
  - rewrite Nat.add_0_r. reflexivity.
  - cbn [seq foldM]. unfold copyAtoms at 1.
    destruct (lookup_lt_is_Some_2 t0 k) as [a0 Ha0]; [lia|].
    destruct (lookup_lt_is_Some_2 t1 k) as [a1 Ha1]; [lia|].
    destruct (lookup_lt_is_Some_2 t2 k) as [a2 Ha2]; [lia|].
    destruct (lookup_lt_is_Some_2 t3 k) as [a3 Ha3]; [lia|].
    cbn [seq foldM lookup list_lookup mbind option_bind].
    rewrite Ha0. cbn [bindO insert list_insert lookup list_lookup].
    rewrite Ha1. cbn [bindO insert list_insert lookup list_lookup].
    rewrite Ha2. cbn [bindO insert list_insert lookup list_lookup].
    rewrite Ha3. cbn [bindO insert list_insert lookup list_lookup].
    rewrite <- (take_S_r _ _ _ Ha0), <- (take_S_r _ _ _ Ha1),
      <- (take_S_r _ _ _ Ha2), <- (take_S_r _ _ _ Ha3).
    rewrite IH by lia. replace (S k + c) with (k + S c) by lia.
    reflexivity.
Qed.

Lemma useFourAtomsForEachCV_run (b0 b1 b2 : list nat)
    (rest : list (list nat)) :
  length b0 <= length b1 -> length b0 <= length b2 ->
  useFourAtomsForEachCV (b0 :: b1 :: b2 :: rest)
  = Done [b0; take (length b0) b1; take (length b0) b1;
          take (length b0) b2].
Proof.
  intros H1 H2. unfold useFourAtomsForEachCV.
  pose proof (fourAtoms_run b0 b1 b2 rest (length b0) 0) as Hfour.
  rewrite !take_0 in Hfour. cbn [Nat.add] in Hfour.
  rewrite Hfour by lia. clear Hfour.
  cbn [bindO]. rewrite firstn_all.
  pose proof (copyAtoms_run b0 (take (length b0) b1) (take (length b0) b1)
                (take (length b0) b2) (length b0) 0) as Hcopy.
  rewrite !take_0 in Hcopy. cbn [Nat.add] in Hcopy.
  rewrite Hcopy by (rewrite ?length_take; lia). clear Hcopy.
  rewrite firstn_all, !take_take, Nat.min_id. reflexivity.
Qed.

(** X13. [useFourAtomsForEachCV] turns three blocks into four by taking
    the second atom of each task twice: the atom list of a task becomes
    first, second, second, third. The third position then repeats the
    index of the second, so the test [newi] fails there, and the loops of
    [performTask] and [setBoxDerivativesNoPbc] pass over it. *)
Theorem four_atoms_repeat_the_second_atom (b0 b1 b2 : list nat)
    (rest : list (list nat)) :
  length b0 <= length b1 -> length b0 <= length b2 ->
  exists ablocks,
    useFourAtomsForEachCV (b0 :: b1 :: b2 :: rest) = Done ablocks /\
    forall task, task < length b0 ->
      atomsOf ablocks task
      = [nth task b0 0; nth task b1 0; nth task b1 0; nth task b2 0] /\
      newi ablocks task 2 = false /\
      countedPositions ablocks task
      = List.filter (newi ablocks task) [0; 1; 3].
Proof.
  intros H1 H2. eexists. split; [apply useFourAtomsForEachCV_run; assumption|].
  intros task Htask.
  assert (Hnth : forall b, length b0 <= length b ->
                   nth task (take (length b0) b) 0 = nth task b 0).
  { intros b Hb. rewrite !nth_lookup, lookup_take_lt by exact Htask.
    reflexivity. }
  assert (Hnew : newi [b0; take (length b0) b1; take (length b0) b1;
                       take (length b0) b2] task 2 = false).
  { unfold newi, atomOf. cbn [seq existsb nth].
    rewrite Nat.eqb_refl, orb_true_r. reflexivity. }
  split; [|split; [exact Hnew|]].
  - unfold atomsOf, atomOf. cbn [length seq List.map nth].
    rewrite !Hnth by assumption. reflexivity.
  - unfold countedPositions. cbn [length seq List.filter].
    rewrite Hnew. reflexivity.
Qed.

End ConstructionFacts.

Lemma atoms_are_numbered_task_by_task_witness :
  exists m n,
    [[0; 3]; [1; 4]; [2; 5]] = MultiColvarConstruction.blocks m n /\
    length [1; 2; 3; 4; 5; 6] = m * n /\
    forall task j, task < n -> j < m ->
      MultiColvarBase.atomOf [[0; 3]; [1; 4]; [2; 5]] task j = m * task + j /\
      MultiColvarBase.atomOf [[0; 3]; [1; 4]; [2; 5]] task j
      < length [1; 2; 3; 4; 5; 6] /\
      MultiColvarBase.newi [[0; 3]; [1; 4]; [2; 5]] task j = true.
Proof.
  apply (atoms_are_numbered_task_by_task MultiColvarConstruction.decimal
           MultiColvarConstruction.two_angles).
  reflexivity.
Defined.

Lemma numbered_atoms_are_read_back_witness :
  exists n,
    [[0; 3]; [1; 4]; [2; 5]] = MultiColvarConstruction.blocks 3 n /\
    MultiColvarConstruction.numbered
      (MultiColvarConstruction.ATOMSn MultiColvarConstruction.two_angles)
      (S n) = [] /\
    forall task, task < n ->
      length (MultiColvarConstruction.numbered
                (MultiColvarConstruction.ATOMSn
                   MultiColvarConstruction.two_angles) (S task)) = 3 /\
      forall j, j < 3 ->
        nth (MultiColvarBase.atomOf [[0; 3]; [1; 4]; [2; 5]] task j)
          [1; 2; 3; 4; 5; 6] 0
        = nth j (MultiColvarConstruction.numbered
                   (MultiColvarConstruction.ATOMSn
                      MultiColvarConstruction.two_angles) (S task)) 0.
Proof.
  apply (numbered_atoms_are_read_back MultiColvarConstruction.decimal
           MultiColvarConstruction.two_angles);
    reflexivity.
Defined.

Lemma wrong_number_of_atoms_is_an_error_witness :
  MultiColvarConstruction.readAtoms MultiColvarConstruction.decimal
    MultiColvarConstruction.short_angle
  = Failed "ATOMS2 keyword has the wrong number of atoms".
Proof.
  apply (wrong_number_of_atoms_is_an_error MultiColvarConstruction.decimal
           MultiColvarConstruction.short_angle 1).
  - reflexivity.
  - reflexivity.
  - reflexivity.
  - cbn. lia.
  - lia.
  - intros q Hq. assert (q = 0) as -> by lia. reflexivity.
  - discriminate.
  - cbn. lia.
Defined.

Lemma four_atoms_repeat_the_second_atom_witness :
  exists ablocks,
    MultiColvarConstruction.useFourAtomsForEachCV [[0; 3]; [1; 4]; [2; 5]]
    = Done ablocks /\
    forall task, task < 2 ->
      MultiColvarBase.atomsOf ablocks task
      = [nth task [0; 3] 0; nth task [1; 4] 0; nth task [1; 4] 0;
         nth task [2; 5] 0] /\
      MultiColvarBase.newi ablocks task 2 = false /\
      MultiColvarBase.countedPositions ablocks task
      = List.filter (MultiColvarBase.newi ablocks task) [0; 1; 3].
Proof.
  apply (four_atoms_repeat_the_second_atom [0; 3] [1; 4] [2; 5] []);
    cbn; lia.
Defined.

(** ** Contour finding: the order of the tasks *)

Section FindContourOrder.
Import FindContour.

Variable rank : nat.
Variable npoints : nat.
Variable nbin : nat -> nat.
Variable isPeriodic : nat -> bool.
Variable getIndices : nat -> list nat.
Variable getIndex : list nat -> nat.
Variable get : nat -> double.
Variable contour : double.

Local Abbreviation taskList :=
  (setupCurrentTaskList rank npoints nbin isPeriodic getIndices getIndex get
     contour).
Local Abbreviation flagged :=
  (flagged rank nbin isPeriodic getIndices getIndex get contour).

Lemma increasing_app (l1 l2 : list nat) (bound : nat) :
  increasing l1 -> increasing l2 ->
  (forall x, In x l1 -> x < bound) -> (forall y, In y l2 -> bound <= y) ->
  increasing (l1 ++ l2).
Proof.
  intros H1 H2 Hlow Hhigh p q x y Hp Hq Hpq.
  apply lookup_app_Some in Hp as [Hp|[Hlp Hp]];
    apply lookup_app_Some in Hq as [Hq|[Hlq Hq]].
  - apply (H1 p q); assumption.
  - apply list_elem_of_lookup_2, list_elem_of_In in Hp, Hq.
    specialize (Hlow x Hp). specialize (Hhigh y Hq). lia.
  - apply lookup_lt_Some in Hq. lia.
  - apply (H2 (p - length l1) (q - length l1)); [assumption..|lia].
Qed.

Lemma increasing_nil : increasing [].
Proof. intros p q x y Hp. discriminate. Qed.

(** The tasks of the first [r] dimensions at a grid point. *)
Lemma flagged_dimensions (i r : nat) :
  increasing (flat_map (flagged i) (seq 0 r)) /\
  forall t, In t (flat_map (flagged i) (seq 0 r)) ->
            rank * i <= t < rank * i + r.
Proof.
  induction r as [|r [IHs IHb]].
  - split; [apply increasing_nil | intros t []].
  - rewrite seq_S, flat_map_app. cbn [Nat.add flat_map].
    rewrite app_nil_r.
    assert (Hlast : forall t, In t (flagged i r) -> t = rank * i + r).
    { intros t Ht. unfold FindContour.flagged in Ht.
      destruct (_ && _); [|destruct Ht].
      destruct Ht as [<-|[]]. reflexivity. }
    split.
    + apply (increasing_app _ _ (rank * i + r)); [exact IHs | | |].
      * intros p q x y Hp Hq Hpq.
        unfold FindContour.flagged in Hp, Hq.
        destruct (_ && _); [|discriminate].
        apply lookup_lt_Some in Hq. cbn in Hq. lia.
      * intros x Hx. apply IHb in Hx. lia.
      * intros y Hy. apply Hlast in Hy. lia.
    + intros t Ht. apply in_app_or in Ht as [Ht|Ht].
      * apply IHb in Ht. lia.
      * apply Hlast in Ht. lia.
Qed.

Lemma tasks_of_points (n : nat) :
  let l := flat_map (fun i => flat_map (flagged i) (seq 0 rank)) (seq 0 n) in
  increasing l /\ forall t, In t l -> t < rank * n.
Proof.
  induction n as [|n [IHs IHb]].
  - split; [apply increasing_nil | intros t []].
  - cbv zeta. rewrite seq_S, flat_map_app. cbn [Nat.add flat_map].
    rewrite app_nil_r.
    destruct (flagged_dimensions n rank) as [Hs Hb].
    split.
    + apply (increasing_app _ _ (rank * n)); [exact IHs | exact Hs | |].
      * intros x Hx. apply IHb. exact Hx.
      * intros y Hy. apply Hb in Hy. lia.
    + intros t Ht. apply in_app_or in Ht as [Ht|Ht].
      * apply IHb in Ht. nia.
      * apply Hb in Ht. nia.
Qed.

Lemma increasing_NoDup (l : list nat) : increasing l -> List.NoDup l.
Proof.
  intros H. apply NoDup_ListNoDup, NoDup_alt.
  intros p q x Hp Hq.
  destruct (Nat.lt_trichotomy p q) as [Hlt|[Heq|Hlt]]; [|exact Heq|].
  - specialize (H p q x x Hp Hq Hlt). lia.
  - specialize (H q p x x Hq Hp Hlt). lia.
Qed.

(** X14. [setupCurrentTaskList] hands the tasks to [addTaskToCurrentList]
    in growing order, so no edge is handed over twice, and every task is
    below [rank * npoints], the length that [finishOutputSetup] gives to
    the outputs. *)
Theorem contour_tasks_grow_and_fit_the_output :
  increasing taskList /\ List.NoDup taskList /\
  forall t, In t taskList ->
    exists n, finishOutputSetup rank npoints = [n] /\ t < n.
Proof.
  pose proof (taskList_spec rank npoints nbin isPeriodic getIndices getIndex
                get contour) as Hspec.
  destruct (tasks_of_points npoints) as [Hs Hb]. cbv zeta in Hs, Hb.
  rewrite <- Hspec in Hs, Hb.
  split; [exact Hs|]. split; [apply increasing_NoDup; exact Hs|].
  intros t Ht. exists (rank * npoints). split; [reflexivity|].
  apply Hb. exact Ht.
Qed.

End FindContourOrder.

(** ** The steps of a calculation *)

Section PerformCalcFacts.
Import PlumedMain.

Lemma before_lookup {A : Type} (x y : A) (l : list A) :
  before x y l ->
  exists p q, p < q /\ l !! p = Some x /\ l !! q = Some y.
Proof.
  intros (l1 & l2 & l3 & ->).
  exists (length l1), (length (l1 ++ x :: l2)).
  split; [rewrite List.length_app; cbn; lia|].
  split; [apply list_lookup_middle; reflexivity|].
  change (l1 ++ x :: l2 ++ y :: l3) with (l1 ++ (x :: l2) ++ y :: l3).
  rewrite (app_assoc l1 (x :: l2) (y :: l3)).
  apply list_lookup_middle. reflexivity.
Qed.

Lemma inPhases_app (l1 l2 : list Call) (k : nat) :
  inPhases l1 -> inPhases l2 ->
  (forall x, In x l1 -> phase x <= k) -> (forall y, In y l2 -> k <= phase y) ->
  inPhases (l1 ++ l2).
Proof.
  intros H1 H2 Hlow Hhigh p q x y Hp Hq Hpq.
  apply lookup_app_Some in Hp as [Hp|[Hlp Hp]];
    apply lookup_app_Some in Hq as [Hq|[Hlq Hq]].
  - apply (H1 p q); assumption.
  - apply list_elem_of_lookup_2, list_elem_of_In in Hp, Hq.
    specialize (Hlow x Hp). specialize (Hhigh y Hq). lia.
  - apply lookup_lt_Some in Hq. lia.
  - apply (H2 (p - length l1) (q - length l1)); [assumption..|lia].
Qed.

(** The calls of one phase. *)
Lemma inPhases_one (l : list Call) (k : nat) :
  (forall x, In x l -> phase x = k) -> inPhases l.
Proof.
  intros H p q x y Hp Hq _.
  apply list_elem_of_lookup_2, list_elem_of_In in Hp, Hq.
  rewrite (H x Hp), (H y Hq). lia.
Qed.

Lemma waitData_phase (pm : PlumedMain) (s : Step) (x : Call) :
  In x (waitData pm s) -> phase x = 0.
Proof.
  unfold waitData. destruct (negb (active pm)); [intros []|].
  intros H. apply in_flat_map in H as (ip & _ & H).
  destruct (fst (snd ip) && snd (snd ip)); [destruct H as [<-|[]]; reflexivity|].
  destruct (fst (snd ip)); [destruct H as [<-|[]]; reflexivity | destruct H].
Qed.

Lemma justCalculate_phase (pm : PlumedMain) (x : Call) :
  In x (List.map Loop (justCalculate pm)) -> phase x = 1.
Proof.
  intros H. apply in_map_iff in H as (e & <- & H).
  unfold justCalculate in H. destruct (negb (active pm)); [destruct H|].
  apply in_flat_map in H as (ip & _ & H).
  destruct (isActive (snd ip)); [|destruct H].
  unfold calculate_body in H.
  repeat (apply in_app_or in H as [H|H]);
    repeat match type of H with
      | In _ (if ?c then _ else _) => destruct c
      end;
    cbn in H; intuition (subst; try reflexivity).
  destruct (checkNumericalDerivatives (snd ip)); reflexivity.
Qed.

Lemma backwardPropagate_phase (pm : PlumedMain) (x : Call) :
  In x (List.map Loop (backwardPropagate pm)) -> phase x = 2.
Proof.
  intros H. apply in_map_iff in H as (e & <- & H).
  unfold backwardPropagate in H. destruct (negb (active pm)); [destruct H|].
  apply in_flat_map in H as (ip & _ & H).
  destruct (isActive (snd ip)); [|destruct H].
  destruct H as [<-|[]]. reflexivity.
Qed.

Lemma update_phase (pm : PlumedMain) (s : Step) (x : Call) :
  In x (fst (update pm s)) -> phase x = 3.
Proof.
  unfold update. destruct (negb (active pm)); [intros []|]. cbv zeta.
  assert (Hfirst : forall l,
    In x (flat_map (fun ip : nat * Action =>
                      if isActive (snd ip) then [FirstUpdate (fst ip)]
                      else []) l) -> phase x = 3).
  { intros l H. apply in_flat_map in H as (ip & _ & H).
    destruct (isActive (snd ip)); [|destruct H].
    destruct H as [<-|[]]. reflexivity. }
  assert (Hupd : forall l,
    In x (flat_map (fun ip : nat * Action =>
                      BeforeUpdate (fst ip)
                      :: (if isActive (snd ip) && checkUpdate s (fst ip)
                             && updateFlagsTop s (fst ip)
                          then [Update (fst ip)] else [])) l) ->
    phase x = 3).
  { intros l H. apply in_flat_map in H as (ip & _ & H).
    destruct H as [<-|H]; [reflexivity|].
    destruct (_ && _); [|destruct H]. destruct H as [<-|[]]. reflexivity. }
  destruct (stopNow s && negb (stopFlag s)); cbn [fst]; intros H.
  - apply in_app_or in H as [H|H]; [eapply Hfirst | eapply Hupd]; exact H.
  - apply in_app_or in H as [H|H]; [eapply Hfirst; exact H|].
    apply in_app_or in H as [H|H]; [eapply Hupd; exact H|].
    apply in_app_or in H as [H|H].
    + destruct (stopNow s); [|destruct H]. destruct H as [<-|[]]. reflexivity.
    + destruct (_ || _); [|destruct H].
      destruct H as [<-|[<-|H]]; [reflexivity | reflexivity |].
      apply in_map_iff in H as (a & <- & _). reflexivity.
Qed.

(** X15. [performCalc] makes its calls phase by phase: it waits for the
    data of the inputs, runs the forward loop, runs the backward loop and
    then updates. So a call made before another call never belongs to a
    later phase: no [apply()] comes before a [calculate()], and no call of
    [firstUpdate], [beforeUpdate] or [update] comes before an [apply()].
    [performCalcNoUpdate] makes the calls of the first three phases. *)
Theorem a_calculation_goes_phase_by_phase (pm : PlumedMain) (s : Step) :
  inPhases (fst (performCalc pm s)) /\
  (forall x y, before x y (fst (performCalc pm s)) -> phase x <= phase y) /\
  (forall a b,
     ~ before (Loop (EvApply a)) (Loop (EvCalculate b))
         (fst (performCalc pm s)) /\
     ~ before (Update a) (Loop (EvApply b)) (fst (performCalc pm s))) /\
  fst (performCalc pm s) = performCalcNoUpdate pm s ++ fst (update pm s).
Proof.
  assert (Hall : inPhases (fst (performCalc pm s))).
  { unfold performCalc, performCalcNoUpdate. cbn [fst].
    rewrite <- !app_assoc.
    apply (inPhases_app _ _ 0).
    - apply (inPhases_one _ 0), waitData_phase.
    - apply (inPhases_app _ _ 1).
      + apply (inPhases_one _ 1), justCalculate_phase.
      + apply (inPhases_app _ _ 2).
        * apply (inPhases_one _ 2), backwardPropagate_phase.
        * apply (inPhases_one _ 3), update_phase.
        * intros x Hx. rewrite (backwardPropagate_phase _ _ Hx). lia.
        * intros y Hy. rewrite (update_phase _ _ _ Hy). lia.
      + intros x Hx. rewrite (justCalculate_phase _ _ Hx). lia.
      + intros y Hy. apply in_app_or in Hy as [Hy|Hy].
        * rewrite (backwardPropagate_phase _ _ Hy). lia.
        * rewrite (update_phase _ _ _ Hy). lia.
    - intros x Hx. rewrite (waitData_phase _ _ _ Hx). lia.
    - intros y Hy. apply in_app_or in Hy as [Hy|Hy];
        [rewrite (justCalculate_phase _ _ Hy); lia|].
      apply in_app_or in Hy as [Hy|Hy].
      + rewrite (backwardPropagate_phase _ _ Hy). lia.
      + rewrite (update_phase _ _ _ Hy). lia. }
  assert (Hbefore : forall x y, before x y (fst (performCalc pm s)) ->
                                phase x <= phase y).
  { intros x y H. apply before_lookup in H as (p & q & Hpq & Hp & Hq).
    apply (Hall p q); assumption. }
  split; [exact Hall|]. split; [exact Hbefore|]. split; [|reflexivity].
  intros a b. split; intros H; apply Hbefore in H; cbn in H; lia.
Qed.

(** X16. On a step on which no pilot is on, [active] is false and
    [performCalc] makes no call at all: it waits for no input, calculates
    and applies nothing, and updates nothing. *)
Theorem an_inactive_step_makes_no_call (pm : PlumedMain) (s : Step) :
  active pm = false -> performCalc pm s = ([], None).
Proof.
  intros H. unfold performCalc, performCalcNoUpdate, waitData, update,
    justCalculate, backwardPropagate.
  rewrite H. reflexivity.
Qed.

End PerformCalcFacts.

Lemma an_inactive_step_makes_no_call_witness :
  PlumedMain.performCalc
    (PlumedMain.mkPlumedMain false
       (PlumedMain.actionSet PlumedMain.three_actions) [false])
    PlumedMain.first_step
  = ([], None).
Proof.
  apply (an_inactive_step_makes_no_call
           (PlumedMain.mkPlumedMain false
              (PlumedMain.actionSet PlumedMain.three_actions) [false])
           PlumedMain.first_step).
  reflexivity.
Defined.

Lemma a_calculation_goes_phase_by_phase_witness :
  PlumedMain.phase (PlumedMain.Loop (PlumedMain.EvCalculate 0))
  <= PlumedMain.phase (PlumedMain.Loop (PlumedMain.EvApply 2)).
Proof.
  apply (proj1 (proj2 (a_calculation_goes_phase_by_phase
                         PlumedMain.three_actions PlumedMain.first_step))).
  set (l := fst (PlumedMain.performCalc PlumedMain.three_actions
                   PlumedMain.first_step)).
  exists (take 4 l), (take 10 (drop 5 l)), (drop 16 l).
  reflexivity.
Defined.

(** ** Matrix: transposition, product, symmetry and the triangular solve *)

Section MatrixFacts.

Lemma table_S (nr nc : nat) (f : nat -> nat -> Q) :
  Matrix.table (S nr) nc f
  = Matrix.table nr nc f ++ List.map (f nr) (seq 0 nc).
Proof.
  unfold Matrix.table. rewrite seq_S, flat_map_app. cbn [flat_map Nat.add].
  now rewrite app_nil_r.
Qed.

Lemma table_length (nr nc : nat) (f : nat -> nat -> Q) :
  length (Matrix.table nr nc f) = nr * nc.
Proof.
  induction nr as [|nr IH]; [reflexivity|].
  rewrite table_S, length_app, IH, length_map, length_seq. lia.
Qed.

Lemma table_lookup (nr nc : nat) (f : nat -> nat -> Q) (i j : nat) :
  i < nr -> j < nc -> Matrix.table nr nc f !! (j + i * nc) = Some (f i j).
Proof.
  induction nr as [|nr IH]; intros Hi Hj; [lia|].
  rewrite table_S. destruct (decide (i = nr)) as [->|Hne].
  - rewrite lookup_app_r by (rewrite table_length; lia).
    rewrite table_length. replace (j + nr * nc - nr * nc) with j by lia.
    rewrite list_lookup_fmap, lookup_seq_lt by lia. reflexivity.
  - rewrite lookup_app_l by (rewrite table_length; nia).
    apply IH; lia.
Qed.

Lemma table_ext (nr nc : nat) (f g : nat -> nat -> Q) :
  (forall i j, i < nr -> j < nc -> f i j = g i j) ->
  Matrix.table nr nc f = Matrix.table nr nc g.
Proof.
  intros H. induction nr as [|nr IH]; [reflexivity|].
  rewrite !table_S, IH by (intros; apply H; lia). f_equal.
  apply map_ext_in. intros j Hj. apply in_seq in Hj. apply H; lia.
Qed.

Lemma row_of_data (d : list Q) (s c : nat) :
  s + c <= length d ->
  List.map (fun j => nth (j + s) d 0%Q) (seq 0 c) = take c (drop s d).
Proof.
  induction c as [|c IH]; intros H; [reflexivity|].
  rewrite seq_S, map_app, IH by lia. cbn [List.map Nat.add].
  destruct (lookup_lt_is_Some_2 d (c + s)) as [x Hx]; [lia|].
  rewrite (take_S_r _ _ x) by (rewrite lookup_drop; rewrite <- Hx; f_equal; lia).
  now rewrite (nth_lookup_Some _ _ _ _ Hx).
Qed.

Lemma table_of_data (nr nc : nat) (d : list Q) :
  nr * nc <= length d ->
  Matrix.table nr nc (fun i j => nth (j + i * nc) d 0%Q) = take (nr * nc) d.
Proof.
  induction nr as [|nr IH]; intros H; [reflexivity|].
  rewrite table_S, IH by lia. rewrite row_of_data by lia.
  replace (S nr * nc) with (nr * nc + nc) by lia.
  now rewrite <- take_take_drop.
Qed.

(** A loop over the rows and the columns that rewrites the element it
    visits from the element that is there. *)
Lemma cells_row (cell : Matrix.Matrix -> nat -> nat -> Outcome Matrix.Matrix)
    (g : nat -> nat -> Q -> Q) (nr nc : nat) (s r c : nat) (d0 : list Q)
    (i : nat) :
  (forall M i j pre x post, i < nr -> j < nc -> Matrix.cl M = nc ->
     Matrix.data M = pre ++ x :: post -> length pre = j + i * nc ->
     cell M i j
     = Done (Matrix.mkMatrix (Matrix.sz M) (Matrix.rw M) (Matrix.cl M)
               (pre ++ g i j x :: post))) ->
  i < nr -> c <= nc -> length d0 = nr * nc ->
  foldM (fun M3 j => cell M3 i j) (seq 0 c)
    (Matrix.mkMatrix s r nc
       (take (i * nc)
          (Matrix.table nr nc (fun i j => g i j (nth (j + i * nc) d0 0%Q)))
        ++ drop (i * nc) d0))
  = Done (Matrix.mkMatrix s r nc
       (take (c + i * nc)
          (Matrix.table nr nc (fun i j => g i j (nth (j + i * nc) d0 0%Q)))
        ++ drop (c + i * nc) d0)).
Proof.
  intros Hcell Hi Hc Hd. induction c as [|c IH]; [reflexivity|].
  rewrite seq_S, foldM_app, IH by lia. cbn [Nat.add foldM bindO].
  set (T := Matrix.table nr nc _).
  assert (Hlt : c + i * nc < nr * nc) by nia.
  destruct (lookup_lt_is_Some_2 d0 (c + i * nc)) as [x Hx]; [lia|].
  rewrite (Hcell _ i c (take (c + i * nc) T) x (drop (S (c + i * nc)) d0));
    try lia; try reflexivity.
  - cbn. f_equal. f_equal.
    rewrite (take_S_r T (c + i * nc) (g i c x)).
    + now rewrite <- app_assoc.
    + unfold T. rewrite table_lookup by lia.
      now rewrite (nth_lookup_Some _ _ _ _ Hx).
  - cbn. f_equal. now apply drop_S.
  - rewrite length_take. unfold T. rewrite table_length. lia.
Qed.

Lemma cells_loop (cell : Matrix.Matrix -> nat -> nat -> Outcome Matrix.Matrix)
    (g : nat -> nat -> Q -> Q) (nr nc : nat) (M : Matrix.Matrix) :
  (forall M i j pre x post, i < nr -> j < nc -> Matrix.cl M = nc ->
     Matrix.data M = pre ++ x :: post -> length pre = j + i * nc ->
     cell M i j
     = Done (Matrix.mkMatrix (Matrix.sz M) (Matrix.rw M) (Matrix.cl M)
               (pre ++ g i j x :: post))) ->
  Matrix.cl M = nc -> length (Matrix.data M) = nr * nc ->
  foldM (fun M2 i => foldM (fun M3 j => cell M3 i j) (seq 0 nc) M2)
    (seq 0 nr) M
  = Done (Matrix.mkMatrix (Matrix.sz M) (Matrix.rw M) nc
       (Matrix.table nr nc
          (fun i j => g i j (nth (j + i * nc) (Matrix.data M) 0%Q)))).
Proof.
  intros Hcell Hcl Hd. destruct M as [s r c d0]. cbn in *. subst c.
  set (T := Matrix.table nr nc _).
  assert (H : forall n, n <= nr ->
    foldM (fun M2 i => foldM (fun M3 j => cell M3 i j) (seq 0 nc) M2)
      (seq 0 n) (Matrix.mkMatrix s r nc d0)
    = Done (Matrix.mkMatrix s r nc (take (n * nc) T ++ drop (n * nc) d0))).
  { induction n as [|n IH]; intros Hn.
    - cbn. now rewrite take_0, drop_0.
    - rewrite seq_S, foldM_app, IH by lia. cbn [Nat.add foldM bindO].
      unfold T. rewrite (cells_row cell g nr nc s r nc d0 n Hcell) by lia.
      cbn. now replace (nc + n * nc) with (S n * nc) by lia. }
  rewrite H by lia. f_equal. f_equal.
  rewrite drop_ge by lia. rewrite app_nil_r.
  apply take_ge. unfold T. rewrite table_length. lia.
Qed.

Lemma elem_entry (m : Matrix.Matrix) (i j : nat) :
  Matrix.wf m -> i < Matrix.rw m -> j < Matrix.cl m ->
  Matrix.elem m i j = Done (Matrix.entry m i j).
Proof.
  intros [Hs Hl] Hi Hj. unfold Matrix.elem, Matrix.entry.
  destruct (lookup_lt_is_Some_2 (Matrix.data m) (j + i * Matrix.cl m))
    as [x Hx]; [nia|].
  now rewrite Hx, (nth_lookup_Some _ _ _ _ Hx).
Qed.

Lemma setElem_middle (M : Matrix.Matrix) (i j : nat) (pre post : list Q)
    (x v : Q) :
  Matrix.data M = pre ++ x :: post -> length pre = j + i * Matrix.cl M ->
  Matrix.setElem M i j v
  = Done (Matrix.mkMatrix (Matrix.sz M) (Matrix.rw M) (Matrix.cl M)
            (pre ++ v :: post)).
Proof.
  intros Hd Hp. unfold Matrix.setElem. rewrite Hd, <- Hp.
  rewrite length_app. cbn [length].
  destruct (Nat.ltb_spec (length pre) (length pre + S (length post)));
    [|lia].
  rewrite insert_app_r_alt by lia. now rewrite Nat.sub_diag.
Qed.

Lemma resize_shape (nr nc : nat) (m : Matrix.Matrix) :
  let m' := Matrix.resize nr nc m in
  Matrix.sz m' = nr * nc /\ Matrix.rw m' = nr /\ Matrix.cl m' = nc
  /\ length (Matrix.data m') = nr * nc.
Proof.
  cbn. repeat split. rewrite length_app, length_take, length_replicate. lia.
Qed.

(** The matrix that [transpose] and [mult] write into has the shape they
    need, after the resize of their first line or without it. *)
Lemma target_shape (nr nc : nat) (m : Matrix.Matrix) :
  Matrix.wf m ->
  forall m',
  m' = (if negb (nr =? Matrix.rw m) || negb (nc =? Matrix.cl m)
        then Matrix.resize nr nc m else m) ->
  Matrix.sz m' = nr * nc /\ Matrix.rw m' = nr /\ Matrix.cl m' = nc
  /\ length (Matrix.data m') = nr * nc.
Proof.
  intros [Hs Hl] m' ->.
  destruct (Nat.eqb_spec nr (Matrix.rw m)) as [->|];
    destruct (Nat.eqb_spec nc (Matrix.cl m)) as [->|]; cbn [negb orb];
    try apply resize_shape.
  repeat split; congruence.
Qed.

Lemma transpose_run (A AT : Matrix.Matrix) :
  Matrix.wf A -> Matrix.wf AT ->
  Matrix.transpose A AT
  = Done (Matrix.mkMatrix (Matrix.cl A * Matrix.rw A) (Matrix.cl A)
            (Matrix.rw A)
            (Matrix.table (Matrix.cl A) (Matrix.rw A)
               (fun i j => Matrix.entry A j i))).
Proof.
  intros HA HAT. unfold Matrix.transpose.
  replace (negb (Matrix.rw A =? Matrix.cl AT)
           || negb (Matrix.cl A =? Matrix.rw AT))
    with (negb (Matrix.cl A =? Matrix.rw AT)
          || negb (Matrix.rw A =? Matrix.cl AT)) by apply orb_comm.
  match goal with
  | |- context [if ?c then ?a else ?b] =>
      remember (if c then a else b) as AT1 eqn:E
  end.
  destruct (target_shape (Matrix.cl A) (Matrix.rw A) AT HAT AT1 E)
    as (Hs & Hr & Hc & Hl).
  rewrite (cells_loop
             (fun M i j => let! x := Matrix.elem A j i in
                           Matrix.setElem M i j x)
             (fun i j _ => Matrix.entry A j i)
             (Matrix.cl A) (Matrix.rw A) AT1); auto.
  - now rewrite Hs, Hr.
  - intros M i j pre x post Hi Hj Hcl Hd Hp.
    rewrite elem_entry by auto. cbn [bindO].
    apply (setElem_middle M i j pre post x); congruence.
Qed.

Lemma transposed_wf (A : Matrix.Matrix) :
  Matrix.wf
    (Matrix.mkMatrix (Matrix.cl A * Matrix.rw A) (Matrix.cl A) (Matrix.rw A)
       (Matrix.table (Matrix.cl A) (Matrix.rw A)
          (fun i j => Matrix.entry A j i))).
Proof. split; cbn; [reflexivity|apply table_length]. Qed.

Lemma entry_table (s nr nc : nat) (f : nat -> nat -> Q) (i j : nat) :
  i < nr -> j < nc ->
  Matrix.entry (Matrix.mkMatrix s nr nc (Matrix.table nr nc f)) i j = f i j.
Proof.
  intros Hi Hj. unfold Matrix.entry. cbn.
  apply nth_lookup_Some with (d := 0%Q). now apply table_lookup.
Qed.

(** X17. [transpose] gives, whatever the matrix it writes into held, a
    well formed matrix with the rows and the columns of [A] exchanged, whose
    element (i,j) is the element (j,i) of [A]; transposing that matrix again
    gives [A] back. *)
Theorem transposing_twice_gives_the_matrix_back (A X Y : Matrix.Matrix) :
  Matrix.wf A -> Matrix.wf X -> Matrix.wf Y ->
  exists AT,
    Matrix.transpose A X = Done AT
    /\ Matrix.wf AT
    /\ Matrix.rw AT = Matrix.cl A /\ Matrix.cl AT = Matrix.rw A
    /\ (forall i j, i < Matrix.cl A -> j < Matrix.rw A ->
          Matrix.elem AT i j = Matrix.elem A j i)
    /\ Matrix.transpose AT Y = Done A.
Proof.
  intros HA HX HY. eexists. split; [apply transpose_run; auto|].
  split; [apply transposed_wf|]. split; [reflexivity|].
  split; [reflexivity|]. split.
  - intros i j Hi Hj. rewrite (elem_entry A) by auto.
    rewrite elem_entry; [|apply transposed_wf|auto|auto].
    now rewrite entry_table.
  - rewrite transpose_run; [|apply transposed_wf|auto].
    destruct A as [s r c d]. destruct HA as [Hs Hl].
    cbn [Matrix.rw Matrix.cl Matrix.sz Matrix.data] in *. subst s.
    f_equal. f_equal.
    rewrite (table_ext r c _ (fun i j => nth (j + i * c) d 0%Q)).
    + rewrite table_of_data by lia. apply take_ge. lia.
    + intros i j Hi Hj. now rewrite entry_table.
Qed.

Lemma nth_zeros (n k : nat) : nth k (replicate n 0%Q) 0%Q = 0%Q.
Proof.
  revert k. induction n as [|n IH]; intros [|k]; cbn; auto.
Qed.

Lemma mult_cell (A B M : Matrix.Matrix) (i j : nat) (pre post : list Q)
    (ks : list nat) (x : Q) :
  Matrix.wf A -> Matrix.wf B -> Matrix.cl A = Matrix.rw B ->
  i < Matrix.rw A -> j < Matrix.cl B ->
  (forall k, In k ks -> k < Matrix.cl A) ->
  Matrix.data M = pre ++ x :: post -> length pre = j + i * Matrix.cl M ->
  foldM
    (fun C5 k =>
       let! a := Matrix.elem A i k in
       let! b := Matrix.elem B k j in
       let! c := Matrix.elem C5 i j in
       Matrix.setElem C5 i j (c + a * b)%Q) ks M
  = Done (Matrix.mkMatrix (Matrix.sz M) (Matrix.rw M) (Matrix.cl M)
            (pre ++ fold_left
                      (fun acc k =>
                         (acc + Matrix.entry A i k * Matrix.entry B k j)%Q)
                      ks x :: post)).
Proof.
  intros HA HB HAB Hi Hj. revert M x.
  induction ks as [|k ks IH]; intros M x Hks Hd Hp.
  - cbn. destruct M; cbn in *. now subst.
  - cbn [foldM fold_left].
    assert (Hk : k < Matrix.cl A) by (apply Hks; now left).
    rewrite (elem_entry A), (elem_entry B) by (auto; lia). cbn [bindO].
    assert (Hc : Matrix.elem M i j = Done x).
    { unfold Matrix.elem. rewrite Hd, <- Hp.
      now rewrite list_lookup_middle. }
    rewrite Hc. cbn [bindO].
    rewrite (setElem_middle M i j pre post x) by auto. cbn [bindO].
    rewrite (IH _ (x + Matrix.entry A i k * Matrix.entry B k j)%Q); auto.
    intros k' Hk'. apply Hks. now right.
Qed.

Lemma mult_run (A B C : Matrix.Matrix) :
  Matrix.wf A -> Matrix.wf B -> Matrix.wf C -> Matrix.cl A = Matrix.rw B ->
  Matrix.mult A B C
  = Done (Matrix.mkMatrix (Matrix.rw A * Matrix.cl B) (Matrix.rw A)
            (Matrix.cl B)
            (Matrix.table (Matrix.rw A) (Matrix.cl B) (Matrix.dot A B))).
Proof.
  intros HA HB HC HAB. unfold Matrix.mult.
  rewrite HAB, Nat.eqb_refl. cbn [Matrix.assert bindO]. rewrite <- HAB.
  match goal with
  | |- context [if ?c then ?a else ?b] =>
      remember (if c then a else b) as C1 eqn:E
  end.
  destruct (target_shape (Matrix.rw A) (Matrix.cl B) C HC C1 E)
    as (Hs & Hr & Hc & Hl).
  unfold Matrix.fill. rewrite Hl, Hs, Nat.leb_refl. cbn [bindO].
  rewrite drop_ge, app_nil_r by lia. rewrite Hr, Hc.
  rewrite (cells_loop
             (fun M i j =>
                foldM
                  (fun C5 k =>
                     let! a := Matrix.elem A i k in
                     let! b := Matrix.elem B k j in
                     let! c := Matrix.elem C5 i j in
                     Matrix.setElem C5 i j (c + a * b)%Q)
                  (seq 0 (Matrix.cl A)) M)
             (fun i j x =>
                fold_left
                  (fun acc k =>
                     (acc + Matrix.entry A i k * Matrix.entry B k j)%Q)
                  (seq 0 (Matrix.cl A)) x)
             (Matrix.rw A) (Matrix.cl B)); cbn; auto.
  - f_equal. f_equal. apply table_ext. intros i j _ _.
    now rewrite nth_zeros.
  - intros M i j pre x post Hi Hj Hcl Hd Hp.
    apply mult_cell; auto; [|congruence].
    intros k Hk. apply in_seq in Hk. lia.
  - apply length_replicate.
Qed.

Lemma product_wf (A B : Matrix.Matrix) :
  Matrix.wf
    (Matrix.mkMatrix (Matrix.rw A * Matrix.cl B) (Matrix.rw A) (Matrix.cl B)
       (Matrix.table (Matrix.rw A) (Matrix.cl B) (Matrix.dot A B))).
Proof. split; cbn; [reflexivity|apply table_length]. Qed.

(** X18. [mult( A, B, C )] with as many columns in [A] as rows in [B]
    leaves in [C], whatever its shape and elements were, the well formed
    matrix of the rows of [A] and the columns of [B] whose element (i,j) is
    the sum over [k] of [A(i,k)*B(k,j)], added from the first [k]; with
    another number of rows in [B] the assertion of the first line stops
    the call. *)
Theorem the_product_does_not_depend_on_its_target (A B C : Matrix.Matrix) :
  Matrix.wf A -> Matrix.wf B -> Matrix.wf C ->
  (Matrix.cl A <> Matrix.rw B ->
   Matrix.mult A B C = Failed "A.cl==B.rw")
  /\ (Matrix.cl A = Matrix.rw B ->
      exists P,
        Matrix.mult A B C = Done P
        /\ Matrix.wf P
        /\ Matrix.rw P = Matrix.rw A /\ Matrix.cl P = Matrix.cl B
        /\ forall i j, i < Matrix.rw A -> j < Matrix.cl B ->
             Matrix.elem P i j = Done (Matrix.dot A B i j)).
Proof.
  intros HA HB HC. split.
  - intros Hne. unfold Matrix.mult.
    destruct (Nat.eqb_spec (Matrix.cl A) (Matrix.rw B)); [tauto|reflexivity].
  - intros HAB. eexists. split; [apply mult_run; auto|].
    split; [apply product_wf|]. split; [reflexivity|]. split; [reflexivity|].
    intros i j Hi Hj. rewrite elem_entry; [|apply product_wf|auto|auto].
    now rewrite entry_table.
Qed.

Lemma Qmult_comm_eq (x y : Q) : (x * y)%Q = (y * x)%Q.
Proof.
  destruct x, y. unfold Qmult. cbn.
  now rewrite Z.mul_comm, Pos.mul_comm.
Qed.

Lemma fold_left_ext_in {A B : Type} (f g : A -> B -> A) (l : list B) (a : A) :
  (forall a x, In x l -> f a x = g a x) -> fold_left f l a = fold_left g l a.
Proof.
  revert a. induction l as [|x l IH]; intros a H; [reflexivity|].
  cbn. rewrite H by now left. apply IH. intros. apply H. now right.
Qed.

(** X19. The transpose of a product is the product of the transposes in
    the other order: [transpose] of what [mult( A, B, . )] gives is, element
    for element, what [mult] gives for the transposes of [B] and of [A]. *)
Theorem the_transpose_of_a_product
    (A B C X Y Z W : Matrix.Matrix) :
  Matrix.wf A -> Matrix.wf B -> Matrix.wf C -> Matrix.wf X -> Matrix.wf Y ->
  Matrix.wf Z -> Matrix.wf W ->
  Matrix.cl A = Matrix.rw B ->
  exists P PT BT AT,
    Matrix.mult A B C = Done P
    /\ Matrix.transpose P X = Done PT
    /\ Matrix.transpose B Y = Done BT
    /\ Matrix.transpose A Z = Done AT
    /\ Matrix.mult BT AT W = Done PT.
Proof.
  intros HA HB HC HX HY HZ HW HAB.
  do 4 eexists.
  split; [apply mult_run; auto|].
  split; [apply transpose_run; [apply product_wf|auto]|].
  split; [apply transpose_run; auto|].
  split; [apply transpose_run; auto|].
  rewrite mult_run; auto using transposed_wf.
  cbn [Matrix.rw Matrix.cl Matrix.sz Matrix.data].
  f_equal. f_equal.
  apply table_ext. intros i j Hi Hj.
  rewrite entry_table by auto.
  unfold Matrix.dot. cbn [Matrix.cl]. rewrite <- HAB.
  apply fold_left_ext_in. intros a k Hk. apply in_seq in Hk. f_equal.
  rewrite !entry_table by lia. apply Qmult_comm_eq.
Qed.

Lemma symmetricRow_run (m : Matrix.Matrix) (sym i : nat) (js : list nat) :
  Matrix.wf m -> Matrix.rw m = Matrix.cl m -> i < Matrix.rw m ->
  (forall j, In j js -> j < Matrix.rw m) ->
  Matrix.symmetricRow m sym i js
  = Done (if forallb
               (fun j => Qeq_bool (Matrix.entry m j i) (Matrix.entry m i j))
               js
          then sym else 0).
Proof.
  intros [Hs Hl] Hsq Hi. induction js as [|j js IH]; intros Hjs;
    [reflexivity|].
  assert (Hj : j < Matrix.rw m) by (apply Hjs; now left).
  cbn [Matrix.symmetricRow forallb]. unfold Matrix.entry at 1 2.
  destruct (lookup_lt_is_Some_2 (Matrix.data m) (i + j * Matrix.cl m))
    as [a Ha]; [nia|].
  destruct (lookup_lt_is_Some_2 (Matrix.data m) (j + i * Matrix.cl m))
    as [b Hb]; [nia|].
  rewrite Ha, Hb, (nth_lookup_Some _ _ _ _ Ha), (nth_lookup_Some _ _ _ _ Hb).
  destruct (Qeq_bool a b); [|reflexivity].
  cbn [andb]. apply IH. intros j' Hj'. apply Hjs. now right.
Qed.

Lemma symmetric_rows (m : Matrix.Matrix) (l : list nat) (sym : nat) :
  Matrix.wf m -> Matrix.rw m = Matrix.cl m ->
  (forall i, In i l -> i < Matrix.rw m) ->
  foldM (fun sym i => Matrix.symmetricRow m sym i (seq 0 i)) l sym
  = Done (if forallb
               (fun i =>
                  forallb
                    (fun j =>
                       Qeq_bool (Matrix.entry m j i) (Matrix.entry m i j))
                    (seq 0 i))
               l
          then sym else 0).
Proof.
  intros Hwf Hsq. revert sym. induction l as [|i l IH]; intros sym Hl;
    [reflexivity|].
  assert (Hi : i < Matrix.rw m) by (apply Hl; now left).
  cbn [foldM forallb]. rewrite symmetricRow_run; auto.
  - cbn [bindO]. rewrite IH by (intros; apply Hl; now right).
    destruct (forallb _ (seq 0 i)); cbn [andb]; [reflexivity|].
    now destruct (forallb _ l).
  - intros j Hj. apply in_seq in Hj. lia.
Qed.

(** X20. [isSymmetric] answers 0 for a matrix that is not square, and for a
    square one 1 or 0: 1 exactly when every element (i,j) equals the
    element (j,i). (The [break] of line 126 leaves the inner loop only; the
    rows that follow are still compared and the answer stays 0.) *)
Theorem symmetric_means_equal_across_the_diagonal (m : Matrix.Matrix) :
  Matrix.wf m ->
  (Matrix.rw m <> Matrix.cl m -> Matrix.isSymmetric m = Done 0)
  /\ (Matrix.rw m = Matrix.cl m ->
      exists s,
        Matrix.isSymmetric m = Done s
        /\ (s = 0 \/ s = 1)
        /\ (s = 1 <->
            forall i j, i < Matrix.rw m -> j < Matrix.rw m ->
              (Matrix.entry m i j == Matrix.entry m j i)%Q)).
Proof.
  intros Hwf. split.
  - intros Hne. unfold Matrix.isSymmetric.
    destruct (Nat.eqb_spec (Matrix.rw m) (Matrix.cl m)); [tauto|reflexivity].
  - intros Hsq. unfold Matrix.isSymmetric.
    destruct (Nat.eqb_spec (Matrix.rw m) (Matrix.cl m)); [|tauto].
    cbn [negb].
    rewrite symmetric_rows; auto;
      [|intros i Hi; apply in_seq in Hi; lia].
    eexists. split; [reflexivity|].
    destruct (forallb _ (seq 1 (Matrix.rw m - 1))) eqn:E.
    + split; [now right|]. split; [|reflexivity]. intros _.
      rewrite forallb_forall in E.
      assert (Hlow : forall i j, j < i -> i < Matrix.rw m ->
                (Matrix.entry m j i == Matrix.entry m i j)%Q).
      { intros i j Hji Hi. apply Qeq_bool_iff.
        assert (Hrow := E i). rewrite forallb_forall in Hrow.
        apply Hrow; apply in_seq; lia. }
      intros i j Hi Hj.
      destruct (Nat.lt_trichotomy i j) as [H|[->|H]].
      * now apply Hlow.
      * reflexivity.
      * symmetry. now apply Hlow.
    + split; [now left|]. split; [discriminate|]. intros Hall. exfalso.
      assert (Ht : forallb
                (fun i =>
                   forallb
                     (fun j =>
                        Qeq_bool (Matrix.entry m j i) (Matrix.entry m i j))
                     (seq 0 i))
                (seq 1 (Matrix.rw m - 1)) = true); [|congruence].
      apply forallb_forall. intros i Hi. apply in_seq in Hi.
      apply forallb_forall. intros j Hj. apply in_seq in Hj.
      apply Qeq_bool_iff. apply Hall; lia.
Qed.

Lemma lookup_nth_lt (y : list Q) (i : nat) :
  i < length y -> y !! i = Some (nth i y 0%Q).
Proof.
  intros H. destruct (lookup_lt_is_Some_2 y i H) as [x Hx].
  now rewrite (nth_lookup_Some _ _ _ _ Hx).
Qed.

Variable rsub rmul rdiv : Q -> Q -> Q.

Local Abbreviation subtractKnown := (Matrix.subtractKnown rsub rmul).
Local Abbreviation solveRow := (Matrix.solveRow rsub rmul rdiv).
Local Abbreviation chol_elsolve := (Matrix.chol_elsolve rsub rmul rdiv).

Lemma subtract_loop (M : Matrix.Matrix) (i c : nat) (y : list Q) (bi : Q) :
  Matrix.wf M -> Matrix.rw M = Matrix.cl M -> i < Matrix.rw M -> c <= i ->
  i < length y ->
  foldM (subtractKnown M i) (seq 0 c) (<[i:=bi]> y)
  = Done (<[i:=fold_left
                 (fun acc j => rsub acc (rmul (Matrix.entry M i j) (nth j y 0%Q)))
                 (seq 0 c) bi]> y).
Proof.
  intros Hwf Hsq Hi Hc Hy. induction c as [|c IH]; [reflexivity|].
  rewrite seq_S, foldM_app, IH by lia. cbn [Nat.add foldM bindO].
  rewrite fold_left_app. cbn [fold_left].
  unfold Matrix.subtractKnown. rewrite elem_entry by (auto; lia).
  cbn [bindO]. rewrite list_lookup_insert_eq by auto.
  rewrite list_lookup_insert_ne by lia.
  rewrite (lookup_nth_lt y c) by lia.
  now rewrite list_insert_insert_eq.
Qed.

Lemma solveRow_run (M : Matrix.Matrix) (b y : list Q) (i : nat) :
  Matrix.wf M -> Matrix.rw M = Matrix.cl M -> i < Matrix.rw M ->
  length b = Matrix.rw M -> length y = Matrix.rw M ->
  solveRow M b y i
  = Done (<[i:=rmul
                 (fold_left
                    (fun acc j =>
                       rsub acc (rmul (Matrix.entry M i j) (nth j y 0%Q)))
                    (seq 0 i) (nth i b 0%Q))
                 (rdiv 1 (Matrix.entry M i i))]> y).
Proof.
  intros Hwf Hsq Hi Hb Hy. unfold Matrix.solveRow.
  rewrite (lookup_nth_lt b i) by lia.
  destruct (Nat.ltb_spec i (length y)); [|lia].
  rewrite subtract_loop by (auto; lia). cbn [bindO].
  rewrite elem_entry by (auto; lia). cbn [bindO].
  rewrite list_lookup_insert_eq by lia.
  now rewrite list_insert_insert_eq.
Qed.

(** The first [r] turns of the loop over [i] write the first [r] elements
    of [y], from [b] and from the elements of [M] on and below the
    diagonal, and leave the others. *)
Lemma solve_rows (M M' : Matrix.Matrix) (b : list Q) (r : nat)
    (y y' : list Q) :
  Matrix.wf M -> Matrix.wf M' -> Matrix.rw M = Matrix.cl M ->
  Matrix.rw M' = Matrix.rw M -> Matrix.cl M' = Matrix.cl M ->
  length b = Matrix.rw M ->
  (forall i j, j <= i -> i < Matrix.rw M ->
     Matrix.entry M' i j = Matrix.entry M i j) ->
  r <= Matrix.rw M -> length y = Matrix.rw M -> length y' = Matrix.rw M ->
  exists sol,
    length sol = r
    /\ foldM (solveRow M b) (seq 0 r) y = Done (sol ++ drop r y)
    /\ foldM (solveRow M' b) (seq 0 r) y' = Done (sol ++ drop r y').
Proof.
  intros Hwf Hwf' Hsq Hrw Hcl Hb Hlow Hr Hy Hy'. induction r as [|r IH].
  - exists []. repeat split.
  - destruct IH as (sol & Hlen & Hrun & Hrun'); [lia|].
    rewrite !seq_S, !foldM_app, Hrun, Hrun'. cbn [Nat.add foldM bindO].
    rewrite !solveRow_run;
      try (rewrite ?length_app, ?length_drop; lia); auto; try congruence.
    cbn [bindO].
    set (v := rmul _ (rdiv 1 (Matrix.entry M r r))).
    exists (sol ++ [v]). split; [rewrite length_app; cbn; lia|].
    assert (Hput : forall z : list Q, length z = Matrix.rw M ->
              <[r:=v]> (sol ++ drop r z) = (sol ++ [v]) ++ drop (S r) z).
    { intros z Hz. rewrite insert_app_r_alt by lia.
      rewrite Hlen, Nat.sub_diag.
      destruct (lookup_lt_is_Some_2 z r) as [x Hx]; [lia|].
      rewrite (drop_S _ _ _ Hx). cbn. now rewrite <- app_assoc. }
    split; [f_equal; apply Hput; exact Hy|].
    rewrite <- (Hput y' Hy'). f_equal. f_equal. unfold v.
    rewrite (Hlow r r) by lia. f_equal.
    apply fold_left_ext_in. intros acc j Hj. apply in_seq in Hj.
    rewrite (Hlow r j) by lia. f_equal. f_equal.
    rewrite !app_nth1 by lia. reflexivity.
Qed.

(** X21. [chol_elsolve( M, b, y )] for a square [M] of two rows or more
    whose element (0,1) is zero, and a [b] of as many elements: the call
    returns, and the new [y] has as many elements. It is computed from [b]
    and from the elements of [M] on and below the diagonal alone: it is the
    same for whatever [y] held before, and for a matrix that differs from
    [M] above the diagonal only. This holds for any rounding of the three
    operations of the loop. *)
Theorem the_triangular_solve_reads_the_lower_triangle
    (M M' : Matrix.Matrix) (b y0 y0' : list Q) :
  Matrix.wf M -> Matrix.wf M' -> Matrix.rw M = Matrix.cl M ->
  Matrix.rw M' = Matrix.rw M -> Matrix.cl M' = Matrix.cl M ->
  2 <= Matrix.rw M ->
  (Matrix.entry M 0 1 == 0)%Q -> (Matrix.entry M' 0 1 == 0)%Q ->
  length b = Matrix.rw M ->
  (forall i j, j <= i -> i < Matrix.rw M ->
     Matrix.entry M' i j = Matrix.entry M i j) ->
  exists y,
    chol_elsolve M b y0 = Done y
    /\ length y = Matrix.rw M
    /\ chol_elsolve M b y0' = Done y
    /\ chol_elsolve M' b y0' = Done y.
Proof.
  intros Hwf Hwf' Hsq Hrw Hcl Hn H01 H01' Hb Hlow.
  assert (Hstart : forall (N : Matrix.Matrix) (z : list Q),
            Matrix.wf N -> Matrix.rw N = Matrix.rw M ->
            Matrix.cl N = Matrix.cl M ->
            (Matrix.entry N 0 1 == 0)%Q ->
            exists z1, length z1 = Matrix.rw M /\
              chol_elsolve N b z
              = foldM (solveRow N b) (seq 0 (Matrix.rw M)) z1).
  { intros N z HN Hr Hc HN01. unfold Matrix.chol_elsolve.
    rewrite Hr, Hc, <- Hsq, Nat.eqb_refl. cbn [Matrix.assert bindO].
    rewrite elem_entry by (auto; lia). cbn [bindO].
    apply Qeq_bool_iff in HN01. rewrite HN01, Hb, Nat.eqb_refl.
    cbn [andb Matrix.assert bindO].
    eexists. split; [|reflexivity].
    destruct (Nat.eqb_spec (length z) (Matrix.rw M)); cbn [negb]; auto.
    rewrite length_app, length_take, length_replicate. lia. }
  destruct (Hstart M y0 Hwf eq_refl eq_refl H01) as (z & Hz & ->).
  destruct (Hstart M y0' Hwf eq_refl eq_refl H01) as (z' & Hz' & ->).
  destruct (Hstart M' y0' Hwf' Hrw Hcl H01') as (z'' & Hz'' & ->).
  destruct (solve_rows M M b (Matrix.rw M) z z') as (sol & Hlen & Hr1 & Hr2);
    auto.
  destruct (solve_rows M M' b (Matrix.rw M) z z'')
    as (sol' & Hlen' & Hr1' & Hr3); auto.
  rewrite Hr1 in Hr1'. injection Hr1' as Heq.
  rewrite !drop_ge in * by lia. rewrite !app_nil_r in *. subst sol'.
  exists sol. repeat split; assumption.
Qed.

(** X22. What [chol_elsolve] does not solve. A matrix that is not square
    fails the assertion; for a square matrix of one row, or of none, the
    assertion reads the element (0,1), which is outside the data; with two
    rows or more, an element (0,1) that is not zero or a [b] of another
    length fails the assertion. *)
Theorem a_single_equation_is_not_solved (M : Matrix.Matrix) (b y : list Q) :
  Matrix.wf M ->
  (Matrix.rw M <> Matrix.cl M ->
   chol_elsolve M b y
   = Failed "M.rw==M.cl && M(0,1)==0.0 && b.size()==M.rw")
  /\ (Matrix.rw M = Matrix.cl M -> Matrix.rw M <= 1 ->
      chol_elsolve M b y = Undefined)
  /\ (Matrix.rw M = Matrix.cl M -> 2 <= Matrix.rw M ->
      ~ (Matrix.entry M 0 1 == 0)%Q \/ length b <> Matrix.rw M ->
      chol_elsolve M b y
      = Failed "M.rw==M.cl && M(0,1)==0.0 && b.size()==M.rw").
Proof.
  intros Hwf. unfold Matrix.chol_elsolve. split; [|split].
  - intros Hne.
    destruct (Nat.eqb_spec (Matrix.rw M) (Matrix.cl M)); [tauto|reflexivity].
  - intros Hsq Hn.
    destruct (Nat.eqb_spec (Matrix.rw M) (Matrix.cl M)); [|tauto].
    cbn [Matrix.assert bindO]. unfold Matrix.elem.
    destruct Hwf as [Hs Hl].
    rewrite (lookup_ge_None_2 (Matrix.data M)) by nia. reflexivity.
  - intros Hsq Hn Hbad.
    destruct (Nat.eqb_spec (Matrix.rw M) (Matrix.cl M)); [|tauto].
    cbn [Matrix.assert bindO]. rewrite elem_entry by (auto; lia).
    cbn [bindO]. destruct Hbad as [H01|Hb].
    + destruct (Qeq_bool (Matrix.entry M 0 1) 0) eqn:E; [|reflexivity].
      apply Qeq_bool_iff in E. tauto.
    + destruct (Nat.eqb_spec (length b) (Matrix.rw M)); [tauto|].
      rewrite andb_false_r. reflexivity.
Qed.

End MatrixFacts.

Lemma transposing_twice_gives_the_matrix_back_witness :
  exists AT,
    Matrix.transpose Matrix.two_by_three (Matrix.create 0 0) = Done AT
    /\ Matrix.wf AT
    /\ Matrix.rw AT = 3 /\ Matrix.cl AT = 2
    /\ (forall i j, i < 3 -> j < 2 ->
          Matrix.elem AT i j = Matrix.elem Matrix.two_by_three j i)
    /\ Matrix.transpose AT Matrix.single = Done Matrix.two_by_three.
Proof.
  apply (transposing_twice_gives_the_matrix_back
           Matrix.two_by_three (Matrix.create 0 0) Matrix.single);
    split; reflexivity.
Defined.

Lemma the_product_does_not_depend_on_its_target_witness :
  exists P,
    Matrix.mult Matrix.two_by_three Matrix.three_by_two Matrix.lower3
    = Done P
    /\ Matrix.wf P
    /\ Matrix.rw P = 2 /\ Matrix.cl P = 2
    /\ forall i j, i < 2 -> j < 2 ->
         Matrix.elem P i j
         = Done (Matrix.dot Matrix.two_by_three Matrix.three_by_two i j).
Proof.
  apply (proj2 (the_product_does_not_depend_on_its_target
                  Matrix.two_by_three Matrix.three_by_two Matrix.lower3
                  ltac:(split; reflexivity) ltac:(split; reflexivity)
                  ltac:(split; reflexivity))).
  reflexivity.
Defined.

Lemma the_transpose_of_a_product_witness :
  exists P PT BT AT,
    Matrix.mult Matrix.two_by_three Matrix.three_by_two Matrix.single
    = Done P
    /\ Matrix.transpose P Matrix.single = Done PT
    /\ Matrix.transpose Matrix.three_by_two Matrix.single = Done BT
    /\ Matrix.transpose Matrix.two_by_three Matrix.single = Done AT
    /\ Matrix.mult BT AT Matrix.single = Done PT.
Proof.
  apply (the_transpose_of_a_product
           Matrix.two_by_three Matrix.three_by_two Matrix.single
           Matrix.single Matrix.single Matrix.single Matrix.single);
    try (split; reflexivity); reflexivity.
Defined.

Lemma symmetric_means_equal_across_the_diagonal_witness :
  exists s,
    Matrix.isSymmetric Matrix.symmetric2 = Done s
    /\ (s = 0 \/ s = 1)
    /\ (s = 1 <->
        forall i j, i < 2 -> j < 2 ->
          (Matrix.entry Matrix.symmetric2 i j
           == Matrix.entry Matrix.symmetric2 j i)%Q).
Proof.
  apply (proj2 (symmetric_means_equal_across_the_diagonal
                  Matrix.symmetric2 ltac:(split; reflexivity))).
  reflexivity.
Defined.

Lemma the_triangular_solve_reads_the_lower_triangle_witness :
  exists y,
    Matrix.chol_elsolve Qminus Qmult Qdiv Matrix.lower3 [2; 3; 9]%Q []
    = Done y
    /\ length y = 3
    /\ Matrix.chol_elsolve Qminus Qmult Qdiv Matrix.lower3 [2; 3; 9]%Q
         [7; 7; 7; 7]%Q = Done y
    /\ Matrix.chol_elsolve Qminus Qmult Qdiv Matrix.filled3 [2; 3; 9]%Q
         [7; 7; 7; 7]%Q = Done y.
Proof.
  apply (the_triangular_solve_reads_the_lower_triangle Qminus Qmult Qdiv
           Matrix.lower3 Matrix.filled3 [2; 3; 9]%Q [] [7; 7; 7; 7]%Q);
    try (split; reflexivity); try reflexivity; try (cbn; lia).
  intros i j Hji Hi. cbn in Hi.
  destruct i as [|[|[|i]]]; [| | |lia];
    destruct j as [|[|[|j]]]; try lia; reflexivity.
Defined.

Lemma a_single_equation_is_not_solved_witness :
  Matrix.chol_elsolve Qminus Qmult Qdiv Matrix.single [4]%Q [] = Undefined.
Proof.
  apply (proj1 (proj2 (a_single_equation_is_not_solved Qminus Qmult Qdiv
                         Matrix.single [4]%Q []
                         ltac:(split; reflexivity))));
    [reflexivity|cbn; lia].
Defined.

(** ** FunctionOfVector: the derivatives of a task and the forces *)

Section PlainDerivativeFacts.
Import MultiValue ActionWithArguments.

Variable plumed : Plumed.
Variable argstart : nat.
Variable derivatives : nat -> nat -> Q.

Local Abbreviation getNumberOfValues := (getNumberOfValues plumed).
Local Abbreviation getRank := (getRank plumed).
Local Abbreviation numberOfScalars := (numberOfScalars plumed).
Local Abbreviation scalarsOf := (scalarsOf plumed).
Local Abbreviation forceIndex := (forceIndex plumed).

(** The loop over the outputs of lines 236 to 240, or 242 to 246, from
    the output number [s] on. *)
Lemma outputs_loop_other (d : nat -> Q) (idx : nat) (outs : list nat)
    (s : nat) (m : MultiValue) (o : nat) :
  ~ In o outs ->
  let m' := fold_left
              (fun m io =>
                 updateIndex (snd io) idx
                   (addDerivative (snd io) idx (d (fst io)) m))
              (combine (seq s (length outs)) outs) m in
  (forall n, MultiValue.derivatives m' o n = MultiValue.derivatives m o n)
  /\ active_list m' o = active_list m o.
Proof.
  revert s m. induction outs as [|o0 outs IH]; intros s m Hin; cbn;
    [split; auto|].
  destruct (IH (S s)
              (updateIndex o0 idx (addDerivative o0 idx (d s) m)))
    as [Hd Ha]; [intros H; apply Hin; now right|].
  assert (Hne : o <> o0) by (intros ->; apply Hin; now left).
  split.
  - intros n. rewrite Hd. cbn.
    destruct (Nat.eqb_spec o o0); [tauto|reflexivity].
  - rewrite Ha. cbn. destruct (Nat.eqb_spec o o0); [tauto|reflexivity].
Qed.

Lemma outputs_loop (d : nat -> Q) (idx : nat) (outs : list nat)
    (s : nat) (m : MultiValue) (i o : nat) :
  List.NoDup outs -> outs !! i = Some o ->
  let m' := fold_left
              (fun m io =>
                 updateIndex (snd io) idx
                   (addDerivative (snd io) idx (d (fst io)) m))
              (combine (seq s (length outs)) outs) m in
  (forall n, n <> idx ->
     MultiValue.derivatives m' o n = MultiValue.derivatives m o n)
  /\ MultiValue.derivatives m' o idx
     = (MultiValue.derivatives m o idx + d (s + i)%nat)%Q
  /\ active_list m' o = active_list m o ++ [idx].
Proof.
  revert s m i. induction outs as [|o0 outs IH]; intros s m i Hnd Hi;
    [discriminate|].
  inversion Hnd as [|? ? Hnot Hnd']; subst.
  cbn [length seq combine fold_left fst snd].
  destruct i as [|i].
  - injection Hi as ->.
    destruct (outputs_loop_other d idx outs (S s)
                (updateIndex o idx (addDerivative o idx (d s) m)) o Hnot)
      as [Hd Ha].
    cbv zeta in *. split; [|split].
    + intros n Hn. rewrite Hd. cbn. rewrite Nat.eqb_refl.
      destruct (Nat.eqb_spec n idx); [tauto|reflexivity].
    + rewrite Hd. cbn. rewrite !Nat.eqb_refl, Nat.add_0_r. reflexivity.
    + rewrite Ha. cbn. now rewrite Nat.eqb_refl.
  - cbn in Hi.
    assert (Hne : o <> o0).
    { intros ->. apply Hnot. apply list_elem_of_In.
      eapply list_elem_of_lookup_2; eauto. }
    destruct (IH (S s) (updateIndex o0 idx (addDerivative o0 idx (d s) m))
                i Hnd' Hi) as (Hd & He & Ha).
    cbv zeta in *. split; [|split].
    + intros n Hn. rewrite Hd by auto. cbn.
      destruct (Nat.eqb_spec o o0); [tauto|reflexivity].
    + rewrite He. cbn. destruct (Nat.eqb_spec o o0); [tauto|].
      cbn. now replace (s + S i) with (S (s + i)) by lia.
    + rewrite Ha. cbn. destruct (Nat.eqb_spec o o0); [tauto|reflexivity].
Qed.

Variable outputStreams : list nat.
Hypothesis outputs_distinct : List.NoDup outputStreams.

Local Abbreviation plainDerivatives :=
  (FunctionOfVector.plainDerivatives plumed argstart outputStreams
     derivatives).

(** The element of an argument that a task differentiates: the element of
    the task for a vector, the only one for a scalar. *)
Local Abbreviation element v current :=
  (if getRank v =? 1 then current else 0).

Lemma numberOfScalars_app (l1 l2 : list nat) :
  numberOfScalars (l1 ++ l2) = numberOfScalars l1 + numberOfScalars l2.
Proof.
  unfold ActionWithArguments.numberOfScalars.
  induction l1 as [|w l1 IH]; cbn in *; lia.
Qed.

Lemma numberOfScalars_snoc (l : list nat) (v : nat) :
  numberOfScalars (l ++ [v]) = numberOfScalars l + getNumberOfValues v.
Proof.
  rewrite numberOfScalars_app. cbn. lia.
Qed.

Lemma plain_loop (st : State) (current : nat) (m0 : MultiValue) (n : nat) :
  let args := drop argstart (arguments (this st)) in
  (forall j v, args !! j = Some v -> element v current < getNumberOfValues v) ->
  n <= length args ->
  exists m,
    foldM (plainDerivatives st current) (seq 0 n) (m0, 0)
    = Done (m, numberOfScalars (take n args))
    /\ (forall o idx, numberOfScalars (take n args) <= idx ->
          MultiValue.derivatives m o idx = MultiValue.derivatives m0 o idx)
    /\ (forall i o j v, outputStreams !! i = Some o -> j < n ->
          args !! j = Some v ->
          MultiValue.derivatives m o (forceIndex argstart j (element v current) st)
          = (MultiValue.derivatives m0 o
               (forceIndex argstart j (element v current) st)
             + derivatives i j)%Q
          /\ In (forceIndex argstart j (element v current) st)
               (active_list m o))
    /\ (forall o, In o outputStreams ->
          length (active_list m o) = length (active_list m0 o) + n).
Proof.
  intros args Hfit. induction n as [|n IH]; intros Hn.
  - exists m0. cbn. repeat split; auto; intros; lia.
  - destruct IH as (m & Hrun & Habove & Hder & Hact); [lia|].
    destruct (lookup_lt_is_Some_2 args n) as [v Hv]; [lia|].
    rewrite seq_S, foldM_app, Hrun. cbn [Nat.add foldM bindO].
    unfold FunctionOfVector.plainDerivatives at 1.
    assert (Hv' : arguments (this st) !! (argstart + n) = Some v).
    { unfold args in Hv. now rewrite lookup_drop in Hv. }
    rewrite Hv'. cbn [bindO fst snd].
    rewrite (take_S_r _ _ _ Hv), numberOfScalars_snoc.
    set (base := numberOfScalars (take n args)).
    assert (Hidx : (if getRank v =? 1 then base + current else base)
                   = base + element v current)
      by (destruct (getRank v =? 1); lia).
    rewrite Hidx. pose proof (Hfit n v Hv) as Hk.
    eexists. split; [reflexivity|]. split; [|split].
    + intros o idx Hle.
      destruct (in_dec Nat.eq_dec o outputStreams) as [Hin|Hout].
      * apply list_elem_of_In, list_elem_of_lookup_1 in Hin.
        destruct Hin as [i Hi].
        destruct (outputs_loop (fun i => derivatives i n)
                    (base + element v current) outputStreams 0 m i o
                    outputs_distinct Hi) as (Hd & _ & _).
        unfold FunctionOfVector.numberedOutputs.
        rewrite Hd by lia. apply Habove. lia.
      * destruct (outputs_loop_other (fun i => derivatives i n)
                    (base + element v current) outputStreams 0 m o Hout)
          as [Hd _].
        unfold FunctionOfVector.numberedOutputs.
        rewrite Hd. apply Habove. lia.
    + intros i o j w Hi Hj Hw.
      destruct (outputs_loop (fun i => derivatives i n)
                  (base + element v current) outputStreams 0 m i o
                  outputs_distinct Hi) as (Hd & He & Ha).
      unfold FunctionOfVector.numberedOutputs. cbv zeta in *.
      destruct (decide (j = n)) as [->|Hne].
      * assert (w = v) by congruence. subst w.
        unfold ActionWithArguments.forceIndex. fold args. fold base.
        rewrite He, Ha. split.
        -- rewrite Habove by lia. reflexivity.
        -- apply in_or_app. right. now left.
      * destruct (Hder i o j w Hi ltac:(lia) Hw) as [Hold Hin].
        assert (Hlt : forceIndex argstart j (element w current) st < base).
        { unfold ActionWithArguments.forceIndex. fold args. unfold base.
          pose proof (Hfit j w Hw) as Hkw.
          assert (Hj' : j < n) by lia.
          rewrite <- (take_drop (S j) (take n args)).
          rewrite take_take, Nat.min_l by lia.
          rewrite (take_S_r _ _ _ Hw).
          rewrite numberOfScalars_app, numberOfScalars_snoc. lia. }
        rewrite Hd by lia. rewrite Ha. split; [exact Hold|].
        apply in_or_app. now left.
    + intros o Hin. apply list_elem_of_In, list_elem_of_lookup_1 in Hin.
      destruct Hin as [i Hi].
      destruct (outputs_loop (fun i => derivatives i n)
                  (base + element v current) outputStreams 0 m i o
                  outputs_distinct Hi) as (_ & _ & Ha).
      unfold FunctionOfVector.numberedOutputs. cbv zeta in *.
      rewrite Ha, length_app. cbn [length].
      rewrite Hact by (apply list_elem_of_In; eapply list_elem_of_lookup_2; eauto).
      lia.
Qed.

(** X23. Without a chain, [performTask] files the derivative of each output
    with respect to the element of an argument that the task uses (the
    element [current] of a vector, the only element of a scalar) under the
    flat number of that element among the scalars of the arguments from
    [argstart] on, which is the entry of [forces] that, by X3,
    [setForcesOnArguments( argstart, forces, 0 )] adds to that element. Each
    output gets one active index for each argument. The outputs are at
    distinct places of the stream and every argument has the element that is
    used. *)
Theorem a_derivative_sits_where_its_force_is_read
    (actionInChain : bool) (st : State) (current : nat) :
  actionInChain && (0 <? length (arg_deriv_starts (this st))) = false ->
  (forall j v, arguments (this st) !! (argstart + j) = Some v ->
     element v current < getNumberOfValues v) ->
  exists m,
    FunctionOfVector.performTask plumed argstart outputStreams actionInChain
      false derivatives st current (cleared current) = Done m
    /\ (forall i o j v, outputStreams !! i = Some o ->
          arguments (this st) !! (argstart + j) = Some v ->
          let k := element v current in
          let n := forceIndex argstart j k st in
          scalarsOf (drop argstart (arguments (this st))) !! n = Some (v, k)
          /\ (getDerivative m o n == derivatives i j)%Q
          /\ In n (active_list m o))
    /\ (forall o, In o outputStreams ->
          length (active_list m o)
          = length (arguments (this st)) - argstart).
Proof.
  intros Hplain Hfit. unfold FunctionOfVector.performTask. rewrite Hplain.
  set (args := drop argstart (arguments (this st))).
  assert (Hfit' : forall j v, args !! j = Some v ->
                    element v current < getNumberOfValues v).
  { intros j v Hv. apply (Hfit j). unfold args in Hv.
    now rewrite lookup_drop in Hv. }
  destruct (plain_loop st current (cleared current) (length args) Hfit'
              (Nat.le_refl _)) as (m & Hrun & _ & Hder & Hact).
  assert (Hlen : length args = length (arguments (this st)) - argstart)
    by (unfold args; apply length_drop).
  rewrite <- Hlen, Hrun. cbn [bindO fst]. exists m. split; [reflexivity|].
  split.
  - intros i o j v Hi Hv. cbv zeta.
    assert (Hv' : args !! j = Some v)
      by (unfold args; now rewrite lookup_drop).
    assert (Hj : j < length args) by (eapply lookup_lt_Some; eauto).
    destruct (Hder i o j v Hi Hj Hv') as [He Hin].
    split; [|split; [|exact Hin]].
    + unfold ActionWithArguments.forceIndex. fold args.
      apply scalarsOf_lookup; eauto.
    + unfold getDerivative. rewrite He. cbn. ring.
  - intros o Ho. rewrite (Hact o Ho). cbn. lia.
Qed.

End PlainDerivativeFacts.

Lemma a_derivative_sits_where_its_force_is_read_witness :
  let s := ActionWithArguments.sample (fun _ => 3) in
  let st := ActionWithArguments.two_vectors in
  let d := fun i j : nat => inject_Z (Z.of_nat (1 + i + 2 * j)) in
  exists m,
    FunctionOfVector.performTask s 0 [4; 5] false false d st 1
      (MultiValue.cleared 1) = Done m
    /\ (forall i o j v, [4; 5] !! i = Some o ->
          ActionWithArguments.arguments (ActionWithArguments.this st)
            !! (0 + j) = Some v ->
          let k := if ActionWithArguments.getRank s v =? 1 then 1 else 0 in
          let n := ActionWithArguments.forceIndex s 0 j k st in
          ActionWithArguments.scalarsOf s
            (drop 0 (ActionWithArguments.arguments
                       (ActionWithArguments.this st))) !! n = Some (v, k)
          /\ (MultiValue.getDerivative m o n == d i j)%Q
          /\ In n (MultiValue.active_list m o))
    /\ (forall o, In o [4; 5] ->
          length (MultiValue.active_list m o)
          = length (ActionWithArguments.arguments
                      (ActionWithArguments.this st)) - 0).
Proof.
  intros s st d.
  apply (a_derivative_sits_where_its_force_is_read s 0 d [4; 5]).
  - repeat constructor; cbn; intuition lia.
  - reflexivity.
  - intros j v _. cbn. lia.
Defined.
